(** * open-simulator, package [apply]: the node-count search of [Run]

    A shallow embedding of [pkg/apply] (the applier: [NewApplier],
    [validate], [Run] with its steps 1 to 4, [newFakeNodes], [report],
    [satisfyResourceSetting], [containLocalStorage] and [containGpu]) and
    the properties of the capacity-planning specification that are settled
    on it, followed by further properties of the package.

    Conventions of the embedding.
    - Go [int] and [int64] are 64-bit two's complement integers, embedded in
      [Z]; where the source adds [int64] fields the wrap-around is written
      out ([Go.wrap64]).
    - Go [float64] is IEEE 754 binary64, embedded as [spec_float] with
      precision 53 and [emax = 1024]; all operations round to nearest even.
    - A Go [error] result is a sum: [inl e] is [err != nil], [inr v] is the
      value returned with [err == nil].
    - Slices are headers (array, length, capacity) over a store of backing
      arrays, so that [append] shares or reallocates as in Go.
    - Collaborators that live outside this package (the scheduling oracle,
      [utils], [simontype], the operating system) are the fields of the
      classes [SimonType], [Platform] and [Collab]; those that only
      [report] and the steps 1 to 3 of [Run] use are the fields of
      [ReportCollab] and [Loader]. *)

From Stdlib Require Import ZArith String Ascii List Lia Bool.
From Stdlib Require Import Floats.SpecFloat.
From stdpp Require Import base option list gmap strings.

Set Default Proof Using "Type".
Local Open Scope Z_scope.

(* ===================================================================== *)
(** * Go: the language-level operations the package relies on            *)
(* ===================================================================== *)

Module Go.

Definition MinInt64 : Z := - 2 ^ 63.
Definition MaxInt64 : Z := 2 ^ 63 - 1.

(** Two's complement wrap-around of [int64] arithmetic. *)
Definition wrap64 (z : Z) : Z := (z + 2 ^ 63) mod 2 ^ 64 - 2 ^ 63.

Definition in_int64 (z : Z) : bool := (MinInt64 <=? z) && (z <=? MaxInt64).

(** ** float64 *)

Definition prec : Z := 53.
Definition emax : Z := 1024.

(** [float64(n)] for an integer [n]: the nearest binary64, ties to even. *)
Definition float64 (n : Z) : spec_float := binary_normalize prec emax n 0 false.

Definition fdiv (x y : spec_float) : spec_float := SFdiv prec emax x y.
Definition fmul (x y : spec_float) : spec_float := SFmul prec emax x y.

(** The integer part of a finite float (the fraction is discarded). *)
Definition truncate (f : spec_float) : option Z :=
  match f with
  | S754_zero _ => Some 0
  | S754_finite s m e =>
      let a := match e with
               | Zneg p => Z.shiftr (Zpos m) (Zpos p)
               | _ => Z.shiftl (Zpos m) e
               end in
      Some (if s then - a else a)
  | S754_infinity _ | S754_nan => None
  end.

(** ** Decimal text *)

Definition digit (n : nat) : ascii := ascii_of_nat (48 + n).

(** The decimal digits of [n] in front of [acc]; [fuel] bounds the number
    of digits. *)
Fixpoint itoa_aux (fuel n : nat) (acc : string) : string :=
  match fuel with
  | O => acc
  | S fuel' =>
      let acc' := String (digit (n mod 10)) acc in
      if (n <? 10)%nat then acc' else itoa_aux fuel' (n / 10) acc'
  end.

(** [%d] of a non-negative integer. *)
Definition itoa (n : nat) : string := itoa_aux (S n) n "".

(** [%02d] of a non-negative integer: at least two digits, padded with
    a zero on the left. *)
Definition fmt02d (n : nat) : string :=
  if (n <? 10)%nat then String "0" (itoa n) else itoa n.

(** The value of a decimal digit, if the byte is one. *)
Definition digit_val (c : ascii) : option Z :=
  let n := nat_of_ascii c in
  if (48 <=? n)%nat && (n <=? 57)%nat then Some (Z.of_nat (n - 48)) else None.

Fixpoint parse_digits (s : string) (acc : Z) : option Z :=
  match s with
  | EmptyString => Some acc
  | String c rest =>
      match digit_val c with
      | Some d => parse_digits rest (10 * acc + d)
      | None => None
      end
  end.

(** [strconv.Atoi]: an optional sign and one or more decimal digits,
    whose value fits [int]; anything else is a [*NumError], of which
    the model keeps the offending text. *)
Definition Atoi (s : string) : string + Z :=
  match s with
  | EmptyString => inl s
  | String c rest =>
      let neg := Ascii.eqb c "-" in
      let body := if neg || Ascii.eqb c "+" then rest else s in
      match body with
      | EmptyString => inl s
      | _ =>
          match parse_digits body 0 with
          | None => inl s
          | Some n =>
              let v := if neg then - n else n in
              if in_int64 v then inr v else inl s
          end
      end
  end.

End Go.

(** What the language leaves to the implementation. The conversion
    [int(f)] of a [float64] discards the fraction; when the value cannot be
    represented in [int] (NaN, an infinity, or out of range) the result is
    implementation-dependent. *)
Class Platform := {
  cvt_unrepresentable : spec_float -> Z;
  (** the capacity the runtime gives a slice that [append] has to
      reallocate, from the old capacity and the length needed *)
  growslice : nat -> nat -> nat
}.

Definition float64_to_int `{Platform} (f : spec_float) : Z :=
  match Go.truncate f with
  | Some z => if Go.in_int64 z then z else cvt_unrepresentable f
  | None => cvt_unrepresentable f
  end.

(** amd64: [CVTTSD2SQ] yields the "integer indefinite" value. *)
Definition double_or_fit (old needed : nat) : nat := Nat.max needed (2 * old).

Definition amd64 : Platform :=
  {| cvt_unrepresentable := fun _ => Go.MinInt64;
     growslice := double_or_fit |}.

(** arm64: [FCVTZS] saturates, and converts NaN to zero. *)
Definition arm64 : Platform :=
  {| cvt_unrepresentable := fun f =>
       match f with
       | S754_nan => 0
       | S754_infinity true | S754_finite true _ _ => Go.MinInt64
       | S754_infinity false | S754_finite false _ _ => Go.MaxInt64
       | S754_zero _ => 0
       end;
     growslice := double_or_fit |}.

(* ===================================================================== *)
(** * Data model                                                         *)
(* ===================================================================== *)

(** Resource quantities, kept as the [MilliValue()] of the Kubernetes
    [Quantity]: millicores for CPU, thousandths of a byte for memory. *)
Record ResourceList := {
  Cpu : Z;
  Memory : Z
}.

Record Node := {
  NodeName : string;
  NodeLabels : gmap string string;
  NodeAnnotations : gmap string string;
  Allocatable : ResourceList
}.

Record Pod := {
  PodNamespace : string;
  PodName : string;
  PodNodeName : string;
  PodRequests : ResourceList
}.

Record DaemonSet := {
  DsNamespace : string;
  DsName : string;
  DsRequests : ResourceList
}.

(** [simulator.NodeStatus], [simulator.UnscheduledPod] and
    [simulator.SimulateResult]. *)
Record NodeStatus := {
  nsNode : Node;
  nsPods : list Pod
}.

Record UnscheduledPod := {
  upPod : Pod;
  upReason : string
}.

Record SimulateResult := {
  UnscheduledPods : list UnscheduledPod;
  NodeStatuses : list NodeStatus
}.

(** [localcache.SharedResource] (two [int64] fields) and the volume groups
    of [utils.NodeStorage]. *)
Record SharedResource := {
  vgName : string;
  Capacity : Z;
  Requested : Z
}.

Record NodeStorage := {
  VGs : list SharedResource
}.

(** Errors of collaborators are opaque values that are passed on. *)
Definition ExtError := string.

(** The errors the package itself constructs with [fmt.Errorf]. *)
Inductive error :=
| ErrNodeIsNil                                  (* "node is nil " *)
| ErrConvertEnv (env text : string)             (* "failed to convert env %s to int: %s " *)
| ErrUnmarshalNode (node : string)              (* "error when unmarshal json data, node is %s\n" *)
| ErrOnlyOneCluster                             (* "only one of values of both kubeConfig and customConfig must exist " *)
| ErrInvalidPath (what : string) (cause : ExtError)  (* "invalid path of %s: %v " *)
| ErrCollab (e : ExtError).                     (* an error returned by a collaborator, unchanged *)

Definition Result (A : Type) : Type := error + A.

#[global] Instance Result_ret : MRet Result := fun _ x => inr x.
#[global] Instance Result_bind : MBind Result := fun _ _ f m =>
  match m with
  | inl e => inl e
  | inr x => f x
  end.

(** Constants of [pkg/type] ([simontype]). *)
Class SimonType := {
  MaxNumNewNode : nat;
  NewNodeNamePrefix : string;
  LabelNewNode : string;
  EnvMaxCPU : string;
  EnvMaxMemory : string;
  EnvMaxVG : string;
  AnnoNodeLocalStorage : string
}.

(** The snapshot handed to the scheduling oracle: what it reads through
    the slices of a [simulator.ResourceTypes] value. *)
Record ClusterView (Workloads : Type) := {
  vNodes : list Node;
  vDaemonSets : list DaemonSet;
  vWorkloads : Workloads
}.
Arguments vNodes {_} _.
Arguments vDaemonSets {_} _.
Arguments vWorkloads {_} _.

Record AppView (Workloads : Type) := {
  avName : string;
  avResource : ClusterView Workloads
}.
Arguments avName {_} _.
Arguments avResource {_} _.

(** Collaborators outside the package: the operating system, [ffjson],
    [pkg/utils] and the scheduling oracle of [pkg/simulator]. [World] is
    the state of the outside that they may read and change (random
    identifiers, clocks); [Workloads] stands for the workload objects of a
    [ResourceTypes] other than nodes and daemon sets. *)
Class Collab := {
  World : Type;
  Workloads : Type;
  Getenv : string -> string;
  Stat : string -> option ExtError;
  UnmarshalNodeStorage : string -> ExtError + NodeStorage;
  GetPodsTotalRequestsAndLimitsByNodeName : list Pod -> string -> ResourceList;
  MakeValidNodeByNode : Node -> string -> World -> (ExtError + Node) * World;
  NodeShouldRunPod : Node -> Pod -> bool;
  MeetResourceRequests : Node -> Pod -> list DaemonSet -> ExtError + bool;
  Simulate : ClusterView Workloads -> list (AppView Workloads) -> World ->
             (ExtError + SimulateResult) * World
}.

(* ===================================================================== *)
(** * The resource admission check: [satisfyResourceSetting]             *)
(* ===================================================================== *)

Inductive ResourceKind := KindCpu | KindMemory | KindVG.

(** The reason text: "the average occupancy rate(%d%%) of <kind> goes
    beyond the env setting(%d%%)\n", or the empty string. *)
Inductive Reason :=
| NoReason
| BeyondSetting (kind : ResourceKind) (rate setting : Z).

Record Totals := {
  allocCpu : Z;
  allocMem : Z;
  usedCpu : Z;
  usedMem : Z;
  vgRequested : Z;
  vgCapacity : Z
}.

Definition zeroTotals : Totals :=
  {| allocCpu := 0; allocMem := 0; usedCpu := 0; usedMem := 0;
     vgRequested := 0; vgCapacity := 0 |}.

Section Admission.
Context `{SimonType} `{Platform} `{Collab}.

(** One of the three blocks that read a ceiling (lines 585-610): the
    default 100 stands when the variable is empty; a value that does not
    parse is an error; a parsed value outside [0,100] is replaced by 100. *)
Definition readSetting (env : string) : Result Z :=
  let str := Getenv env in
  if String.eqb str "" then inr 100
  else match Go.Atoi str with
       | inl text => inl (ErrConvertEnv env text)
       | inr v => inr (if (100 <? v) || (v <? 0) then 100 else v)
       end.

(** [maxcpu], [maxmem], [maxvg], in the order the source reads them. *)
Definition readSettings : Result (Z * Z * Z) :=
  maxcpu ← readSetting EnvMaxCPU;
  maxmem ← readSetting EnvMaxMemory;
  maxvg ← readSetting EnvMaxVG;
  mret (maxcpu, maxmem, maxvg).

Definition addVG (t : Totals) (vg : SharedResource) : Totals :=
  {| allocCpu := allocCpu t; allocMem := allocMem t;
     usedCpu := usedCpu t; usedMem := usedMem t;
     vgRequested := Go.wrap64 (vgRequested t + Requested vg);
     vgCapacity := Go.wrap64 (vgCapacity t + Capacity vg) |}.

(** The body of the loop over [nodeStatuses] (lines 628-647). *)
Definition addNodeStatus (allPods : list Pod) (t : Totals) (status : NodeStatus)
  : Result Totals :=
  let node := nsNode status in
  let reqs := GetPodsTotalRequestsAndLimitsByNodeName allPods (NodeName node) in
  let t1 := {| allocCpu := allocCpu t + Cpu (Allocatable node);
               allocMem := allocMem t + Memory (Allocatable node);
               usedCpu := usedCpu t + Cpu reqs;
               usedMem := usedMem t + Memory reqs;
               vgRequested := vgRequested t;
               vgCapacity := vgCapacity t |} in
  match NodeAnnotations node !! AnnoNodeLocalStorage with
  | Some nodeStorageStr =>
      match UnmarshalNodeStorage nodeStorageStr with
      | inl _ => inl (ErrUnmarshalNode (NodeName node))
      | inr nodeStorage => inr (fold_left addVG (VGs nodeStorage) t1)
      end
  | None => inr t1
  end.

Fixpoint aggregate (allPods : list Pod) (statuses : list NodeStatus) (t : Totals)
  : Result Totals :=
  match statuses with
  | [] => inr t
  | status :: rest =>
      t' ← addNodeStatus allPods t status;
      aggregate allPods rest t'
  end.

(** [int(float64(used) / float64(allocatable) * 100)]. *)
Definition occupancyRate (used allocatable : Z) : Z :=
  float64_to_int
    (Go.fmul (Go.fdiv (Go.float64 used) (Go.float64 allocatable)) (Go.float64 100)).

(** Lines 649-665: the three comparisons, in the order of the source. *)
Definition checkOccupancy (maxcpu maxmem maxvg : Z) (t : Totals) : bool * Reason :=
  let cpuOccupancyRate := occupancyRate (usedCpu t) (allocCpu t) in
  let memoryOccupancyRate := occupancyRate (usedMem t) (allocMem t) in
  if maxcpu <? cpuOccupancyRate then
    (false, BeyondSetting KindCpu cpuOccupancyRate maxcpu)
  else if maxmem <? memoryOccupancyRate then
    (false, BeyondSetting KindMemory memoryOccupancyRate maxmem)
  else if negb (vgCapacity t =? 0) then
    let vgOccupancyRate := occupancyRate (vgRequested t) (vgCapacity t) in
    if maxvg <? vgOccupancyRate then
      (false, BeyondSetting KindVG vgOccupancyRate maxvg)
    else (true, NoReason)
  else (true, NoReason).

Definition allPodsOf (statuses : list NodeStatus) : list Pod :=
  flat_map nsPods statuses.

Definition satisfyResourceSetting (nodeStatuses : list NodeStatus)
  : Result (bool * Reason) :=
  '(maxcpu, maxmem, maxvg) ← readSettings;
  totals ← aggregate (allPodsOf nodeStatuses) nodeStatuses zeroTotals;
  mret (checkOccupancy maxcpu maxmem maxvg totals).

End Admission.

(* ===================================================================== *)
(** * Slices                                                             *)
(* ===================================================================== *)

(** A slice value is a header: the backing array it points into, its
    length and its capacity. Copying a struct that holds a slice copies
    the header, so both copies share the array. The store maps an array
    to the cells that have been written; cells between that and the
    capacity hold zero values, which no slice of this package can reach
    (it never reslices). *)
Module Slice.

Record t := mk { arr : nat; len : nat; cap : nat }.

(** The nil slice. *)
Definition null : t := mk 0 0 0.

Section Ops.
Context {A : Type}.

(** The elements a slice denotes: the first [len] cells of its array. *)
Definition view (h : gmap nat (list A)) (s : t) : list A :=
  take (len s) (default [] (h !! arr s)).

(** A well-formed slice: the length is within the capacity, and unless
    the capacity is zero the array exists and holds the [len] cells. *)
Definition wf (h : gmap nat (list A)) (s : t) : Prop :=
  (len s ≤ cap s)%nat ∧
  (cap s = 0%nat ∨ ∃ a, h !! arr s = Some a ∧ (len s ≤ length a)%nat).

(** [append(s, xs...)]: when the capacity suffices the elements are
    written into the shared array behind the current length; otherwise
    a new array is allocated, of the capacity [grow] chooses (at least
    what is needed), and the old elements are copied. *)
Definition append (grow : nat -> nat -> nat) (h : gmap nat (list A)) (s : t) (xs : list A)
  : gmap nat (list A) * t :=
  let n := (len s + length xs)%nat in
  if decide (n ≤ cap s)%nat then
    (alter (fun a => take (len s) a ++ xs ++ drop n a) (arr s) h,
     mk (arr s) n (cap s))
  else
    let p := fresh (dom h) in
    (<[p := view h s ++ xs]> h, mk p n (Nat.max n (grow (cap s) n))).

(** A slice over a fresh array, as a literal or a decoder makes it. *)
Definition alloc (h : gmap nat (list A)) (xs : list A) : gmap nat (list A) * t :=
  let p := fresh (dom h) in
  (<[p := xs]> h, mk p (length xs) (length xs)).
End Ops.

(** [s0] is out of the reach of an [append] to [s]: they have different
    arrays, or the elements of [s0] end before the end of [s]. *)
Definition apart (s0 s : t) : Prop :=
  arr s0 ≠ arr s ∨ (len s0 ≤ len s)%nat.

End Slice.

(* ===================================================================== *)
(** * The applier                                                        *)
(* ===================================================================== *)

(** [v1alpha1.Cluster], [v1alpha1.AppInfo], [Options] and [Applier]. *)
Record Cluster := {
  KubeConfig : string;
  CustomCluster : string
}.

Record AppInfo := {
  AppName : string;
  AppPath : string;
  AppChart : bool
}.

Record Simon := {
  SpecCluster : Cluster;
  SpecAppList : list AppInfo;
  SpecNewNode : string
}.

Record Options := {
  SimonConfig : string;
  DefaultSchedulerConfigFile : string;
  UseGreed : bool;
  Interactive : bool;
  ExtendedResources : list string
}.

Record Applier := {
  cluster : Cluster;
  appList : list AppInfo;
  newNode : string;
  schedulerConfig : string;
  useGreed : bool;
  interactive : bool;
  extendedResources : list string
}.

(** [simulator.ResourceTypes] and [simulator.AppResource], as the program
    holds them: the node and daemon-set lists are slices. *)
Record ResourceTypes (Workloads : Type) := {
  Nodes : Slice.t;
  DaemonSets : Slice.t;
  Others : Workloads
}.
Arguments Nodes {_} _.
Arguments DaemonSets {_} _.
Arguments Others {_} _.

Record AppResource (Workloads : Type) := {
  Name : string;
  Resource : ResourceTypes Workloads
}.
Arguments Name {_} _.
Arguments Resource {_} _.

Inductive Color := ColorRed | ColorGreen | ColorYellow | ColorReset.

(** Why a pod stops the search: the two messages of lines 216 and 225. *)
Inductive Structural := NotFitAffinityOrTaints | DaemonSetsTooLarge.

(** What [fmt.Printf] is given. *)
Inductive Message :=
| MsgAddNodes (i : nat)                          (* "add %d node(s)\n" *)
| MsgReason (reason : Reason)                    (* "%s" of the admission reason *)
| MsgUnscheduled (n : nat)                       (* "there are %d unscheduled pods\n" *)
| MsgFailedToSchedule (pod : UnscheduledPod) (why : Structural)
| MsgSuccess                                     (* "Success!\n" *)
| MsgStillFailed (n : nat)                       (* "we have added %d nodes but it still failed!!" *)
| MsgColor (c : Color).                          (* a colour escape alone *)

(** How one pass through the body of the search loop ends. *)
Inductive Ctl :=
| CtlNext                                            (* falls to [i++] *)
| CtlBreak                                           (* [success = true; break] *)
| CtlReturnNil (pod : UnscheduledPod) (why : Structural).  (* [return nil] *)

(** The terminal states of the search; [Run] returns [nil] in each. *)
Inductive Outcome :=
| Success (i : nat) (result : SimulateResult)
| StructurallyFailed (i : nat) (result : SimulateResult)
                     (pod : UnscheduledPod) (why : Structural)
| Exhausted.

Section Applier.
Context `{SimonType} `{Platform} `{Collab}.

(** What the run does that can be observed: output, the call of [report],
    and the calls it makes to its collaborators with their arguments. *)
Inductive Event :=
| Printf (m : Message)
| Debugf (pod : UnscheduledPod)                  (* log.Debugf, line 214 *)
| ReportCall (statuses : list NodeStatus) (ext : list string)
| CallSimulate (snapshot : ClusterView Workloads) (apps : list (AppView Workloads))
| CallSatisfyResourceSetting (statuses : list NodeStatus)
| CallNodeShouldRunPod (node : Node) (pod : Pod)
| CallMeetResourceRequests (node : Node) (pod : Pod) (daemonSets : list DaemonSet).

(** The state a run threads: the outside world, the backing arrays of the
    node and daemon-set slices, and the events so far (oldest first). *)
Record State := {
  world : World;
  nodeArrays : gmap nat (list Node);
  dsArrays : gmap nat (list DaemonSet);
  out : list Event
}.

Definition M (A : Type) : Type := State -> Result A * State.

Definition ret {A} (x : A) : M A := fun s => (inr x, s).

Definition bind {A B} (m : M A) (f : A -> M B) : M B :=
  fun s => match m s with
           | (inl e, s') => (inl e, s')
           | (inr x, s') => f x s'
           end.

Definition fail {A} (e : error) : M A := fun s => (inl e, s).

Definition emit (ev : Event) : M unit :=
  fun s => (inr tt, {| world := world s; nodeArrays := nodeArrays s;
                       dsArrays := dsArrays s; out := out s ++ [ev] |}).

(** A computation on the outside world alone. *)
Definition inWorld {A} (f : World -> Result A * World) : M A :=
  fun s => let '(r, w) := f (world s) in
           (r, {| world := w; nodeArrays := nodeArrays s;
                  dsArrays := dsArrays s; out := out s |}).

(** A call of a collaborator; its error is returned unchanged. *)
Definition extern {A} (f : World -> (ExtError + A) * World) : World -> Result A * World :=
  fun w => let '(r, w') := f w in
           (match r with
            | inl e => inl (ErrCollab e)
            | inr x => inr x
            end, w').

Definition liftResult {A} (r : Result A) : M A := fun s => (r, s).

(** Operations on the backing arrays of the node slices, and of the
    daemon-set slices. *)
Definition onNodes {A} (f : gmap nat (list Node) -> gmap nat (list Node) * A) : M A :=
  fun s => let '(h, x) := f (nodeArrays s) in
           (inr x, {| world := world s; nodeArrays := h;
                      dsArrays := dsArrays s; out := out s |}).

Definition onDaemonSets {A}
    (f : gmap nat (list DaemonSet) -> gmap nat (list DaemonSet) * A) : M A :=
  fun s => let '(h, x) := f (dsArrays s) in
           (inr x, {| world := world s; nodeArrays := nodeArrays s;
                      dsArrays := h; out := out s |}).

Definition readDaemonSets (s : Slice.t) : M (list DaemonSet) :=
  fun st => (inr (Slice.view (dsArrays st) s), st).

#[global] Instance M_ret : MRet M := @ret.
#[global] Instance M_bind : MBind M := fun A B f m => bind m f.

End Applier.

Section Run.
Context `{SimonType} `{Platform} `{Collab}.

(** ** [validate] *)

Definition isEmpty (s : string) : bool := (String.length s =? 0)%nat.

Definition statPath (what path : string) : option error :=
  match Stat path with
  | Some err => Some (ErrInvalidPath what err)
  | None => None
  end.

Fixpoint validateApps (apps : list AppInfo) : option error :=
  match apps with
  | [] => None
  | app :: rest =>
      match statPath (AppName app +:+ " app") (AppPath app) with
      | Some err => Some err
      | None => validateApps rest
      end
  end.

(** A path that is empty is not checked. *)
Definition statIfSet (what path : string) : option error :=
  if negb (isEmpty path) then statPath what path else None.

(** [None] is the [nil] error. *)
Definition validate (applier : Applier) : option error :=
  let kube := KubeConfig (cluster applier) in
  let custom := CustomCluster (cluster applier) in
  if isEmpty kube && isEmpty custom || negb (isEmpty kube) && negb (isEmpty custom) then
    Some ErrOnlyOneCluster
  else
    match statIfSet "kubeConfig" kube with
    | Some err => Some err
    | None =>
    match statIfSet "customConfig" custom with
    | Some err => Some err
    | None =>
    match statIfSet "scheduler config" (schedulerConfig applier) with
    | Some err => Some err
    | None =>
    match statIfSet "newNode" (newNode applier) with
    | Some err => Some err
    | None => validateApps (appList applier)
    end end end end.

(** ** [NewApplier] *)

(** [NewApplier] either returns the applier or ends the process: with
    [log.Fatalf] when the configuration cannot be read, with [os.Exit(1)]
    after printing the error when [validate] fails. *)
Inductive Startup :=
| Fatal (cause : ExtError)
| Exit (status : Z) (printed : error)
| Applied (applier : Applier).

Definition applierOf (opts : Options) (simonCR : Simon) : Applier :=
  {| cluster := SpecCluster simonCR;
     appList := SpecAppList simonCR;
     newNode := SpecNewNode simonCR;
     schedulerConfig := DefaultSchedulerConfigFile opts;
     useGreed := UseGreed opts;
     interactive := Interactive opts;
     extendedResources := ExtendedResources opts |}.

(** [readConfig] stands for reading the file, converting it to JSON and
    decoding it (lines 57-68). *)
Definition NewApplier (readConfig : string -> ExtError + Simon) (opts : Options) : Startup :=
  match readConfig (SimonConfig opts) with
  | inl e => Fatal e
  | inr simonCR =>
      let applier := applierOf opts simonCR in
      match validate applier with
      | Some err => Exit 1 err
      | None => Applied applier
      end
  end.

(** ** [newFakeNodes] *)

(** [fmt.Sprintf("%s-%02d", simontype.NewNodeNamePrefix, i)]. *)
Definition hostnameOf (i : nat) : string :=
  NewNodeNamePrefix +:+ "-" +:+ Go.fmt02d i.

(** [metav1.SetMetaDataLabel]: sets the label, creating the map if needed. *)
Definition SetMetaDataLabel (node : Node) (key value : string) : Node :=
  {| NodeName := NodeName node;
     NodeLabels := <[key := value]> (NodeLabels node);
     NodeAnnotations := NodeAnnotations node;
     Allocatable := Allocatable node |}.

(** A deep copy of a value is the value. *)
Definition DeepCopy (node : Node) : Node := node.

(** The loop of lines 293-301 with [todo] passes left, at index [i]. It
    touches nothing but the outside world, through [MakeValidNodeByNode]. *)
Fixpoint makeFakeNodes (node : Node) (todo i : nat) (nodes : list Node) (w : World)
  : Result (list Node) * World :=
  match todo with
  | O => (inr nodes, w)
  | S todo' =>
      let hostname := hostnameOf i in
      match MakeValidNodeByNode node hostname w with
      | (inl err, w') => (inl (ErrCollab err), w')
      | (inr validNode, w') =>
          let validNode := SetMetaDataLabel validNode LabelNewNode "" in
          makeFakeNodes node todo' (S i) (nodes ++ [DeepCopy validNode]) w'
      end
  end.

(** [node] is a pointer: [None] is [nil]. A count that is not positive
    runs the loop zero times. *)
Definition newFakeNodes (node : option Node) (nodeCount : Z) (w : World)
  : Result (list Node) * World :=
  match node with
  | None => (inl ErrNodeIsNil, w)
  | Some node => makeFakeNodes node (Z.to_nat nodeCount) 0 [] w
  end.

(** ** Step 4 of [Run] *)

Definition viewOf (nodes : gmap nat (list Node)) (daemonSets : gmap nat (list DaemonSet))
    (r : ResourceTypes Workloads) : ClusterView Workloads :=
  {| vNodes := Slice.view nodes (Nodes r);
     vDaemonSets := Slice.view daemonSets (DaemonSets r);
     vWorkloads := Others r |}.

Definition appViewOf (nodes : gmap nat (list Node)) (daemonSets : gmap nat (list DaemonSet))
    (app : AppResource Workloads) : AppView Workloads :=
  {| avName := Name app; avResource := viewOf nodes daemonSets (Resource app) |}.

(** [simulator.Simulate(newClusterResource, selectedResourceList)]: the
    oracle reads the snapshot through the slices. *)
Definition callSimulate (newClusterResource : ResourceTypes Workloads)
    (selectedResourceList : list (AppResource Workloads)) : M SimulateResult :=
  fun st =>
    let snapshot := viewOf (nodeArrays st) (dsArrays st) newClusterResource in
    let apps := map (appViewOf (nodeArrays st) (dsArrays st)) selectedResourceList in
    (emit (CallSimulate snapshot apps);;
     inWorld (extern (Simulate snapshot apps))) st.

Definition callSatisfyResourceSetting (statuses : list NodeStatus) : M (bool * Reason) :=
  emit (CallSatisfyResourceSetting statuses);;
  liftResult (satisfyResourceSetting statuses).

Definition callNodeShouldRunPod (node : Node) (pod : Pod) : M bool :=
  emit (CallNodeShouldRunPod node pod);;
  mret (NodeShouldRunPod node pod).

Definition callMeetResourceRequests (node : Node) (pod : Pod) (daemonSets : list DaemonSet)
  : M bool :=
  emit (CallMeetResourceRequests node pod daemonSets);;
  match MeetResourceRequests node pod daemonSets with
  | inl e => fail (ErrCollab e)
  | inr m => mret m
  end.

(** [report(result.NodeStatus, applier.extendedResources)] between the
    two colour escapes. *)
Definition reportIn (c : Color) (statuses : list NodeStatus) (ext : list string) : M unit :=
  emit (Printf (MsgColor c));;
  emit (ReportCall statuses ext);;
  emit (Printf (MsgColor ColorReset)).

(** Dereferencing the template pointer. *)
Definition deref (node : option Node) : M Node :=
  match node with
  | Some n => mret n
  | None => fail ErrNodeIsNil
  end.

Section Search.
Variable clusterResource : ResourceTypes Workloads.
Variable selectedResourceList : list (AppResource Workloads).
Variable newNodePtr : option Node.        (* [nodeResource.Nodes[0]] *)
Variable ext : list string.               (* [applier.extendedResources] *)

(** Lines 209-212: the daemon sets of the cluster and then of every
    selected application, appended to the slice of the cluster. It
    touches nothing but the backing arrays of daemon-set slices. *)
Fixpoint collectDaemonSets (apps : list (AppResource Workloads)) (allDaemonSets : Slice.t)
    (h : gmap nat (list DaemonSet)) : gmap nat (list DaemonSet) * Slice.t :=
  match apps with
  | [] => (h, allDaemonSets)
  | app :: rest =>
      let '(h', allDaemonSets') :=
        Slice.append growslice h allDaemonSets
                     (Slice.view h (DaemonSets (Resource app))) in
      collectDaemonSets rest allDaemonSets' h'
  end.

(** Lines 213-231: the loop over the unscheduled pods. [daemonSets] is
    what the slice [allDaemonSets] holds; nothing writes to it while the
    loop runs. *)
Fixpoint rangeUnscheduledPods (node : Node) (daemonSets : list DaemonSet)
    (result : SimulateResult) (pods : list UnscheduledPod) : M Ctl :=
  match pods with
  | [] => mret CtlNext
  | unScheduledPod :: rest =>
      emit (Debugf unScheduledPod);;
      should ← callNodeShouldRunPod node (upPod unScheduledPod);
      if negb should then
        emit (Printf (MsgFailedToSchedule unScheduledPod NotFitAffinityOrTaints));;
        reportIn ColorRed (NodeStatuses result) ext;;
        mret (CtlReturnNil unScheduledPod NotFitAffinityOrTaints)
      else
        m ← callMeetResourceRequests node (upPod unScheduledPod) daemonSets;
        if negb m then
          emit (Printf (MsgFailedToSchedule unScheduledPod DaemonSetsTooLarge));;
          reportIn ColorRed (NodeStatuses result) ext;;
          mret (CtlReturnNil unScheduledPod DaemonSetsTooLarge)
        else rangeUnscheduledPods node daemonSets result rest
  end.

(** Lines 184-232: the body of the search loop at count [i]. *)
Definition iteration (i : nat) : M (Ctl * SimulateResult) :=
  emit (Printf (MsgAddNodes i));;
  nodes ← inWorld (newFakeNodes newNodePtr (Z.of_nat i));
  newNodes ← onNodes (fun h => Slice.append growslice h (Nodes clusterResource) nodes);
  let newClusterResource :=
    {| Nodes := newNodes;
       DaemonSets := DaemonSets clusterResource;
       Others := Others clusterResource |} in
  result ← callSimulate newClusterResource selectedResourceList;
  match UnscheduledPods result with
  | [] =>
      '(ok, reason) ← callSatisfyResourceSetting (NodeStatuses result);
      if negb ok then
        emit (Printf (MsgReason reason));;
        mret (CtlNext, result)
      else mret (CtlBreak, result)
  | _ :: _ =>
      emit (Printf (MsgUnscheduled (length (UnscheduledPods result))));;
      allDaemonSets ← onDaemonSets (collectDaemonSets selectedResourceList
                                      (DaemonSets newClusterResource));
      daemonSets ← readDaemonSets allDaemonSets;
      node ← deref newNodePtr;
      ctl ← rangeUnscheduledPods node daemonSets result (UnscheduledPods result);
      mret (ctl, result)
  end.

(** [for i := 0; i < simontype.MaxNumNewNode; i++], with [todo] counts
    left from [i]; then lines 235-244. *)
Fixpoint search (todo i : nat) : M Outcome :=
  match todo with
  | O =>
      (* the loop ends with [success] still false *)
      emit (Printf (MsgStillFailed MaxNumNewNode));;
      mret Exhausted
  | S todo' =>
      '(ctl, result) ← iteration i;
      match ctl with
      | CtlNext => search todo' (S i)
      | CtlBreak =>
          emit (Printf MsgSuccess);;
          reportIn ColorGreen (NodeStatuses result) ext;;
          mret (Success i result)
      | CtlReturnNil pod why => mret (StructurallyFailed i result pod why)
      end
  end.

(** Step 4 of [Run] (lines 177-245). Steps 1 to 3 read the applications,
    the cluster and the new node from files; their results are the
    variables of this section. *)
Definition Run : M Outcome := search MaxNumNewNode 0.

End Search.

(** The [error] that [Run] returns. *)
Definition returned {A} (r : Result A) : option error :=
  match r with
  | inl e => Some e
  | inr _ => None
  end.

Definition initial (w : World) (nodes : gmap nat (list Node))
    (daemonSets : gmap nat (list DaemonSet)) : State :=
  {| world := w; nodeArrays := nodes; dsArrays := daemonSets; out := [] |}.

End Run.

(* ===================================================================== *)
(** * Summaries of the loops, used to state their properties             *)
(* ===================================================================== *)

(** The three verdicts of the specification on an unplaced pod. *)
Inductive Class := Unfixable | OverheadBlocked | CapacityLimited.

Section Classifier.
Context `{Collab}.

(** What lines 215-230 decide for one pod: the placement constraints
    first, then the overhead of the daemon sets. *)
Definition classify (node : Node) (daemonSets : list DaemonSet) (pod : Pod)
  : Result Class :=
  if negb (NodeShouldRunPod node pod) then inr Unfixable
  else match MeetResourceRequests node pod daemonSets with
       | inl e => inl (ErrCollab e)
       | inr m => if negb m then inr OverheadBlocked else inr CapacityLimited
       end.

Definition structural (c : Class) : option Structural :=
  match c with
  | Unfixable => Some NotFitAffinityOrTaints
  | OverheadBlocked => Some DaemonSetsTooLarge
  | CapacityLimited => None
  end.

(** The first pod of the list, in order, that is not capacity-limited:
    an error of its check, or the pod and why it blocks. *)
Fixpoint firstBlocker (node : Node) (daemonSets : list DaemonSet)
    (pods : list UnscheduledPod) : Result (option (UnscheduledPod * Structural)) :=
  match pods with
  | [] => inr None
  | up :: rest =>
      match classify node daemonSets (upPod up) with
      | inl e => inl e
      | inr c =>
          match structural c with
          | Some why => inr (Some (up, why))
          | None => firstBlocker node daemonSets rest
          end
      end
  end.

Definition ctlOf (b : Result (option (UnscheduledPod * Structural))) : Result Ctl :=
  match b with
  | inl e => inl e
  | inr None => inr CtlNext
  | inr (Some (up, why)) => inr (CtlReturnNil up why)
  end.

(** The events of the loop over the unscheduled pods. *)
Definition abortEvents (up : UnscheduledPod) (why : Structural)
    (result : SimulateResult) (ext : list string) : list Event :=
  [ Printf (MsgFailedToSchedule up why);
    Printf (MsgColor ColorRed);
    ReportCall (NodeStatuses result) ext;
    Printf (MsgColor ColorReset) ].

Fixpoint rangeEvents (node : Node) (daemonSets : list DaemonSet)
    (result : SimulateResult) (ext : list string) (pods : list UnscheduledPod)
  : list Event :=
  match pods with
  | [] => []
  | up :: rest =>
      Debugf up :: CallNodeShouldRunPod node (upPod up) ::
      if negb (NodeShouldRunPod node (upPod up)) then
        abortEvents up NotFitAffinityOrTaints result ext
      else
        CallMeetResourceRequests node (upPod up) daemonSets ::
        match MeetResourceRequests node (upPod up) daemonSets with
        | inl _ => []
        | inr m =>
            if negb m then abortEvents up DaemonSetsTooLarge result ext
            else rangeEvents node daemonSets result ext rest
        end
  end.

(** The counts attempted, as the run announces them ("add %d node(s)"). *)
Definition attempts (events : list Event) : list nat :=
  omap (fun ev => match ev with
                  | Printf (MsgAddNodes i) => Some i
                  | _ => None
                  end) events.

Definition isReport (ev : Event) : bool :=
  match ev with
  | ReportCall _ _ => true
  | _ => false
  end.

End Classifier.

(** ** One pass of the search loop, as a relation *)

Section IterationCases.
Context `{SimonType} `{Platform} `{Collab}.
Variable clusterResource : ResourceTypes Workloads.
Variable selectedResourceList : list (AppResource Workloads).
Variable newNodePtr : option Node.
Variable ext : list string.

(** The cluster with the slice of nodes that [append] returned. *)
Definition withNodes (newNodes : Slice.t) : ResourceTypes Workloads :=
  {| Nodes := newNodes;
     DaemonSets := DaemonSets clusterResource;
     Others := Others clusterResource |}.

(** The call of the oracle at count [i] from state [st]: the candidate
    nodes [nodes], the node arrays [hn] and the slice [newNodes] after the
    [append], the snapshot and applications the oracle is given, what it
    answers and the world [w] it leaves. *)
Record OracleCall (i : nat) (st : State) := {
  ocNodes : list Node;
  ocWorld1 : World;
  ocArrays : gmap nat (list Node);
  ocNewNodes : Slice.t;
  ocAnswer : ExtError + SimulateResult;
  ocWorld : World;
  ocSnapshot := viewOf ocArrays (dsArrays st) (withNodes ocNewNodes);
  ocApps := map (appViewOf ocArrays (dsArrays st)) selectedResourceList;
  oc_nodes : newFakeNodes newNodePtr (Z.of_nat i) (world st) = (inr ocNodes, ocWorld1);
  oc_append : Slice.append growslice (nodeArrays st) (Nodes clusterResource) ocNodes
              = (ocArrays, ocNewNodes);
  oc_answer : Simulate ocSnapshot ocApps ocWorld1 = (ocAnswer, ocWorld)
}.
Arguments ocNodes {_ _} _.
Arguments ocWorld {_ _} _.
Arguments ocArrays {_ _} _.
Arguments ocNewNodes {_ _} _.
Arguments ocAnswer {_ _} _.
Arguments ocSnapshot {_ _} _.
Arguments ocApps {_ _} _.

(** The events up to the answer of the oracle. *)
Definition oracleEvents {i st} (c : OracleCall i st) : list Event :=
  [ Printf (MsgAddNodes i); CallSimulate (ocSnapshot c) (ocApps c) ].

(** The ways one pass at count [i] from [st] can go: its result and the
    state it leaves. *)
Inductive Iter (i : nat) (st : State) : Result (Ctl * SimulateResult) -> State -> Prop :=
| Iter_nodes_error e w :
    newFakeNodes newNodePtr (Z.of_nat i) (world st) = (inl e, w) ->
    Iter i st (inl e)
      {| world := w; nodeArrays := nodeArrays st; dsArrays := dsArrays st;
         out := out st ++ [Printf (MsgAddNodes i)] |}
| Iter_oracle_error (c : OracleCall i st) e :
    ocAnswer c = inl e ->
    Iter i st (inl (ErrCollab e))
      {| world := ocWorld c; nodeArrays := ocArrays c; dsArrays := dsArrays st;
         out := out st ++ oracleEvents c |}
| Iter_setting_error (c : OracleCall i st) result e :
    ocAnswer c = inr result ->
    UnscheduledPods result = [] ->
    satisfyResourceSetting (NodeStatuses result) = inl e ->
    Iter i st (inl e)
      {| world := ocWorld c; nodeArrays := ocArrays c; dsArrays := dsArrays st;
         out := out st ++ oracleEvents c ++
                [CallSatisfyResourceSetting (NodeStatuses result)] |}
| Iter_rejected (c : OracleCall i st) result reason :
    ocAnswer c = inr result ->
    UnscheduledPods result = [] ->
    satisfyResourceSetting (NodeStatuses result) = inr (false, reason) ->
    Iter i st (inr (CtlNext, result))
      {| world := ocWorld c; nodeArrays := ocArrays c; dsArrays := dsArrays st;
         out := out st ++ oracleEvents c ++
                [CallSatisfyResourceSetting (NodeStatuses result);
                 Printf (MsgReason reason)] |}
| Iter_accepted (c : OracleCall i st) result reason :
    ocAnswer c = inr result ->
    UnscheduledPods result = [] ->
    satisfyResourceSetting (NodeStatuses result) = inr (true, reason) ->
    Iter i st (inr (CtlBreak, result))
      {| world := ocWorld c; nodeArrays := ocArrays c; dsArrays := dsArrays st;
         out := out st ++ oracleEvents c ++
                [CallSatisfyResourceSetting (NodeStatuses result)] |}
| Iter_unscheduled (c : OracleCall i st) result node hd allDaemonSets :
    let ds := Slice.view hd allDaemonSets in
    let pods := UnscheduledPods result in
    ocAnswer c = inr result ->
    pods <> [] ->
    newNodePtr = Some node ->
    collectDaemonSets selectedResourceList (DaemonSets clusterResource) (dsArrays st)
      = (hd, allDaemonSets) ->
    Iter i st
      (match ctlOf (firstBlocker node ds pods) with
       | inl e => inl e
       | inr ctl => inr (ctl, result)
       end)
      {| world := ocWorld c; nodeArrays := ocArrays c; dsArrays := hd;
         out := out st ++ oracleEvents c ++
                Printf (MsgUnscheduled (length pods)) ::
                rangeEvents node ds result ext pods |}.

End IterationCases.

Arguments ocNodes {_ _ _ _ _ _ _ _} _.
Arguments ocWorld {_ _ _ _ _ _ _ _} _.
Arguments ocArrays {_ _ _ _ _ _ _ _} _.
Arguments ocNewNodes {_ _ _ _ _ _ _ _} _.
Arguments ocAnswer {_ _ _ _ _ _ _ _} _.
Arguments ocSnapshot {_ _ _ _ _ _ _ _} _.
Arguments ocApps {_ _ _ _ _ _ _ _} _.
Arguments oracleEvents {_ _ _ _ _ _ _ _} _.

(** ** The search loop, as a relation *)

Section SearchCases.
Context `{SimonType} `{Platform} `{Collab}.
Variable clusterResource : ResourceTypes Workloads.
Variable selectedResourceList : list (AppResource Workloads).
Variable newNodePtr : option Node.
Variable ext : list string.

(** [Steps i st j st']: from count [i] in state [st] the passes at counts
    [i], ..., [j-1] have all ended in [i++], leaving the loop at count [j]
    in state [st']. *)
Inductive Steps : nat -> State -> nat -> State -> Prop :=
| Steps_here i st : Steps i st i st
| Steps_next i st result st1 j st' :
    iteration clusterResource selectedResourceList newNodePtr ext i st
      = (inr (CtlNext, result), st1) ->
    Steps (S i) st1 j st' ->
    Steps i st j st'.

(** The events after the loop has been left with [success = true]. *)
Definition successEvents (result : SimulateResult) : list Event :=
  [ Printf MsgSuccess;
    Printf (MsgColor ColorGreen);
    ReportCall (NodeStatuses result) ext;
    Printf (MsgColor ColorReset) ].

Definition emitted (st : State) (events : list Event) : State :=
  {| world := world st; nodeArrays := nodeArrays st; dsArrays := dsArrays st;
     out := out st ++ events |}.

(** [Ends max j st R st']: with the loop at count [j] in state [st], and
    the ceiling [max], the run ends with [R] in state [st']. *)
Inductive Ends (max : nat) (j : nat) (st : State) : Result Outcome -> State -> Prop :=
| Ends_exhausted :
    j = max ->
    Ends max j st (inr Exhausted) (emitted st [Printf (MsgStillFailed MaxNumNewNode)])
| Ends_error e st1 :
    (j < max)%nat ->
    iteration clusterResource selectedResourceList newNodePtr ext j st = (inl e, st1) ->
    Ends max j st (inl e) st1
| Ends_success result st1 :
    (j < max)%nat ->
    iteration clusterResource selectedResourceList newNodePtr ext j st
      = (inr (CtlBreak, result), st1) ->
    Ends max j st (inr (Success j result)) (emitted st1 (successEvents result))
| Ends_structural result pod why st1 :
    (j < max)%nat ->
    iteration clusterResource selectedResourceList newNodePtr ext j st
      = (inr (CtlReturnNil pod why, result), st1) ->
    Ends max j st (inr (StructurallyFailed j result pod why)) st1.

End SearchCases.

(** ** A pass of the loop after the oracle has answered *)

Section AfterOracle.
Context `{SimonType} `{Platform} `{Collab}.
Variable clusterResource : ResourceTypes Workloads.
Variable selectedResourceList : list (AppResource Workloads).
Variable newNodePtr : option Node.
Variable ext : list string.

(** A pass, from the answer of the oracle on. *)
Definition afterOracle (i : nat) (st : State) (hn : gmap nat (list Node)) (w2 : World)
    (events : list Event) (answer : ExtError + SimulateResult)
  : Result (Ctl * SimulateResult) * State :=
  match answer with
  | inl e =>
      (inl (ErrCollab e),
       {| world := w2; nodeArrays := hn; dsArrays := dsArrays st;
          out := out st ++ events |})
  | inr result =>
      match UnscheduledPods result with
      | [] =>
          match satisfyResourceSetting (NodeStatuses result) with
          | inl e =>
              (inl e,
               {| world := w2; nodeArrays := hn; dsArrays := dsArrays st;
                  out := out st ++ events ++
                         [CallSatisfyResourceSetting (NodeStatuses result)] |})
          | inr (ok, reason) =>
              (inr (if ok then CtlBreak else CtlNext, result),
               {| world := w2; nodeArrays := hn; dsArrays := dsArrays st;
                  out := out st ++ events ++
                         CallSatisfyResourceSetting (NodeStatuses result) ::
                         (if ok then [] else [Printf (MsgReason reason)]) |})
          end
      | _ :: _ =>
          let '(hd, allDaemonSets) :=
            collectDaemonSets selectedResourceList (DaemonSets clusterResource)
                              (dsArrays st) in
          let ds := Slice.view hd allDaemonSets in
          match newNodePtr with
          | None =>
              (inl ErrNodeIsNil,
               {| world := w2; nodeArrays := hn; dsArrays := hd;
                  out := out st ++ events ++
                         [Printf (MsgUnscheduled (length (UnscheduledPods result)))] |})
          | Some node =>
              (match ctlOf (firstBlocker node ds (UnscheduledPods result)) with
               | inl e => inl e
               | inr ctl => inr (ctl, result)
               end,
               {| world := w2; nodeArrays := hn; dsArrays := hd;
                  out := out st ++ events ++
                         Printf (MsgUnscheduled (length (UnscheduledPods result))) ::
                         rangeEvents node ds result ext (UnscheduledPods result) |})
          end
      end
  end.

End AfterOracle.

(* ===================================================================== *)
(** * Vocabulary of the properties                                       *)
(* ===================================================================== *)

(** How an admission ceiling is configured through its environment
    variable: not at all, or to an integer. *)
Inductive Setting := Unconfigured | Configured (v : Z).

Definition configures (str : string) (s : Setting) : Prop :=
  match s with
  | Unconfigured => str = ""%string
  | Configured v => Go.Atoi str = inr v
  end.

(** The ceiling that is in effect for a setting. *)
Definition effective (s : Setting) (ceiling : Z) : Prop :=
  match s with
  | Unconfigured => ceiling = 100
  | Configured v =>
      (v < 0 ∨ 100 < v -> ceiling = 100) ∧ (0 <= v <= 100 -> ceiling = v)
  end.


(** The occupancy as the specification words it: requested / allocatable
    x 100 over the rationals, rounded down. *)
Definition floorPercent (requested allocatable : Z) : Z :=
  (requested * 100) / allocatable.

(** The statuses come from an answer of the oracle that leaves no pod
    unscheduled. *)
Definition fullyPlaced `{Collab} (statuses : list NodeStatus) : Prop :=
  ∃ snapshot apps w w' result,
    Simulate snapshot apps w = (inr result, w') ∧
    UnscheduledPods result = [] ∧
    NodeStatuses result = statuses.


(** An event that is a call of the admission check is given the statuses
    of a full placement. *)
Definition admissionOnFullPlacement `{Collab} (ev : Event) : Prop :=
  match ev with
  | CallSatisfyResourceSetting statuses => fullyPlaced statuses
  | _ => True
  end.


(** What the properties of the candidate nodes need from
    [utils.MakeValidNodeByNode]: the node it returns carries the host name
    it was given, and its labels do not depend on the state of the
    outside (only identifiers of the run do). *)
Definition validatorNames `{Collab} : Prop :=
  ∀ node hostname w v w',
    MakeValidNodeByNode node hostname w = (inr v, w') -> NodeName v = hostname.

Definition validatorLabels `{Collab} : Prop :=
  ∀ node hostname w1 w2 v1 v2 w1' w2',
    MakeValidNodeByNode node hostname w1 = (inr v1, w1') ->
    MakeValidNodeByNode node hostname w2 = (inr v2, w2') ->
    NodeLabels v1 = NodeLabels v2.

(** The marker label of a node the simulator has added. *)
Definition isNewNode `{SimonType} (node : Node) : Prop :=
  NodeLabels node !! LabelNewNode = Some ""%string.


(** ** What a pass of the search loop finds *)

Section PassVocabulary.
Context `{SimonType} `{Platform} `{Collab}.
Variable clusterResource : ResourceTypes Workloads.
Variable selectedResourceList : list (AppResource Workloads).
Variable newNodePtr : option Node.

(** Every pod is placed and the admission check refuses, or accepts. *)
Definition admissionRejected (result : SimulateResult) : Prop :=
  UnscheduledPods result = [] ∧
  ∃ reason, satisfyResourceSetting (NodeStatuses result) = inr (false, reason).

Definition admissionPassed (result : SimulateResult) : Prop :=
  UnscheduledPods result = [] ∧
  ∃ reason, satisfyResourceSetting (NodeStatuses result) = inr (true, reason).

(** The daemon sets that a pass from state [st] hands to the overhead
    check: what the slice built in lines 209-212 holds. *)
Definition allDaemonSetsAt (st : State) : list DaemonSet :=
  let '(hd, allDaemonSets) :=
    collectDaemonSets selectedResourceList (DaemonSets clusterResource) (dsArrays st) in
  Slice.view hd allDaemonSets.

(** The verdict on an unplaced pod in a pass from state [st]. *)
Definition verdictAt (st : State) (up : UnscheduledPod) : Result Class :=
  match newNodePtr with
  | Some node => classify node (allDaemonSetsAt st) (upPod up)
  | None => inl ErrNodeIsNil
  end.

Definition capacityLimited (st : State) (up : UnscheduledPod) : Prop :=
  verdictAt st up = inr CapacityLimited.

(** Unfixable or overhead-blocked. *)
Definition structurallyBlocked (st : State) (up : UnscheduledPod) : Prop :=
  verdictAt st up = inr Unfixable ∨ verdictAt st up = inr OverheadBlocked.

Definition classified (st : State) (up : UnscheduledPod) : Prop :=
  ∃ c, verdictAt st up = inr c.

End PassVocabulary.


(** In a list of events, every call of the overhead check comes right
    after the call of the placement-constraint check for the same node and
    pod, and that check has passed. *)
Definition overheadAfterPlacement `{Collab} (events : list Event) : Prop :=
  ∀ k node pod ds,
    events !! k = Some (CallMeetResourceRequests node pod ds) ->
    ∃ k', k = S k' ∧
          events !! k' = Some (CallNodeShouldRunPod node pod) ∧
          NodeShouldRunPod node pod = true.

Definition isOverheadCall `{Collab} (ev : Event) : bool :=
  match ev with
  | CallMeetResourceRequests _ _ _ => true
  | _ => false
  end.


(** ** The search loop of the specification, with cancellation *)

(** The terminal states of the specification: those of [Run], and
    [Cancelled]. *)
Inductive SpecOutcome :=
| Finished (outcome : Outcome)
| Cancelled.

Section Cancellable.
Context `{SimonType} `{Platform} `{Collab}.
Variable clusterResource : ResourceTypes Workloads.
Variable selectedResourceList : list (AppResource Workloads).
Variable newNodePtr : option Node.
Variable ext : list string.

(** This loop follows the words of the specification (section 5), not the
    source: it is the loop of [search] with one addition, a cancellation
    that is looked for at the boundary before each pass. [cancel i] says
    that a cancellation is pending at the boundary before count [i]. *)
Fixpoint searchCancellable (cancel : nat -> bool) (todo i : nat) : M SpecOutcome :=
  match todo with
  | O =>
      emit (Printf (MsgStillFailed MaxNumNewNode));;
      mret (Finished Exhausted)
  | S todo' =>
      if cancel i then mret Cancelled
      else
        '(ctl, result) ← iteration clusterResource selectedResourceList newNodePtr ext i;
        match ctl with
        | CtlNext => searchCancellable cancel todo' (S i)
        | CtlBreak =>
            emit (Printf MsgSuccess);;
            reportIn ColorGreen (NodeStatuses result) ext;;
            mret (Finished (Success i result))
        | CtlReturnNil pod why => mret (Finished (StructurallyFailed i result pod why))
        end
  end.

Definition RunCancellable (cancel : nat -> bool) : M SpecOutcome :=
  searchCancellable cancel MaxNumNewNode 0.

(** A run of the source seen as a run of the specification. *)
Definition finished (r : Result Outcome * State) : Result SpecOutcome * State :=
  (match r.1 with
   | inl e => inl e
   | inr outcome => inr (Finished outcome)
   end, r.2).

End Cancellable.


(** ** The original snapshot *)

Section Frame.
Context `{SimonType} `{Platform} `{Collab}.
Variable clusterResource : ResourceTypes Workloads.
Variable selectedResourceList : list (AppResource Workloads).

(** The inputs of the search as Go builds them: every slice is well
    formed, and no slice of an application reaches into the array of the
    cluster's slice behind the cluster's elements. *)
Definition wellFormedInputs (st : State) : Prop :=
  Slice.wf (nodeArrays st) (Nodes clusterResource) ∧
  Slice.wf (dsArrays st) (DaemonSets clusterResource) ∧
  Forall (fun app =>
            Slice.wf (nodeArrays st) (Nodes (Resource app)) ∧
            Slice.apart (Nodes (Resource app)) (Nodes clusterResource) ∧
            Slice.wf (dsArrays st) (DaemonSets (Resource app)) ∧
            Slice.apart (DaemonSets (Resource app)) (DaemonSets clusterResource))
         selectedResourceList.

(** From [st0] to [st] no slice that an [append] to the cluster's slices
    cannot reach has changed. *)
Definition Framed (st0 st : State) : Prop :=
  (∀ s0, Slice.wf (nodeArrays st0) s0 -> Slice.apart s0 (Nodes clusterResource) ->
         Slice.view (nodeArrays st) s0 = Slice.view (nodeArrays st0) s0 ∧
         Slice.wf (nodeArrays st) s0) ∧
  (∀ s0, Slice.wf (dsArrays st0) s0 -> Slice.apart s0 (DaemonSets clusterResource) ->
         Slice.view (dsArrays st) s0 = Slice.view (dsArrays st0) s0 ∧
         Slice.wf (dsArrays st) s0).

End Frame.


(** ** Vocabulary of further properties *)

(** [containLocalStorage] and [containGpu] (lines 668-684). *)
Fixpoint containLocalStorage (extendedResources : list string) : bool :=
  match extendedResources with
  | [] => false
  | res :: rest => if String.eqb res "open-local" then true else containLocalStorage rest
  end.

Fixpoint containGpu (extendedResources : list string) : bool :=
  match extendedResources with
  | [] => false
  | res :: rest => if String.eqb res "gpu" then true else containGpu rest
  end.

(** A ceiling variable that is set to something [strconv.Atoi] refuses,
    and one that is empty or set to an integer. *)
Definition malformed `{Collab} (env text : string) : Prop :=
  Getenv env <> ""%string ∧ Go.Atoi (Getenv env) = inl text.

Definition wellFormed `{Collab} (env : string) : Prop :=
  Getenv env = ""%string ∨ ∃ v, Go.Atoi (Getenv env) = inr v.

(** The paths that [validate] checks with [os.Stat], in its order: the
    four paths of the applier when they are not empty, then the path of
    every application, empty or not. *)
Definition checkedPaths (applier : Applier) : list (string * string) :=
  filter (fun p => p.2 <> ""%string)
    [ ("kubeConfig"%string, KubeConfig (cluster applier));
      ("customConfig"%string, CustomCluster (cluster applier));
      ("scheduler config"%string, schedulerConfig applier);
      ("newNode"%string, newNode applier) ]
  ++ map (fun app => (AppName app +:+ " app", AppPath app)) (appList applier).

(** Exactly one of the two cluster sources is given. *)
Definition oneClusterSource (c : Cluster) : Prop :=
  (KubeConfig c = ""%string ∧ CustomCluster c <> ""%string) ∨
  (KubeConfig c <> ""%string ∧ CustomCluster c = ""%string).


(** The first path of a list, in order, that [os.Stat] refuses. *)
Fixpoint firstMissing `{Collab} (paths : list (string * string)) : option error :=
  match paths with
  | [] => None
  | (what, path) :: rest =>
      match Stat path with
      | Some cause => Some (ErrInvalidPath what cause)
      | None => firstMissing rest
      end
  end.


Definition sumZ (l : list Z) : Z := foldr Z.add 0 l.

(** The volume groups that the storage annotation of a node declares;
    none when the node has no annotation. *)
Definition volumeGroupsOf `{SimonType} `{Collab} (status : NodeStatus) : list SharedResource :=
  match NodeAnnotations (nsNode status) !! AnnoNodeLocalStorage with
  | Some nodeStorageStr =>
      match UnmarshalNodeStorage nodeStorageStr with
      | inr nodeStorage => VGs nodeStorage
      | inl _ => []
      end
  | None => []
  end.

(** The node carries a storage annotation that cannot be decoded. *)
Definition badStorage `{SimonType} `{Collab} (status : NodeStatus) : Prop :=
  ∃ nodeStorageStr cause,
    NodeAnnotations (nsNode status) !! AnnoNodeLocalStorage = Some nodeStorageStr ∧
    UnmarshalNodeStorage nodeStorageStr = inl cause.


(** [env] is the first of the three ceiling variables, in the order CPU,
    memory, storage, that is malformed, and [text] is what
    [strconv.Atoi] says about it. *)
Definition firstMalformed `{SimonType} `{Collab} (env text : string) : Prop :=
  (env = EnvMaxCPU ∧ malformed EnvMaxCPU text) ∨
  (env = EnvMaxMemory ∧ wellFormed EnvMaxCPU ∧ malformed EnvMaxMemory text) ∨
  (env = EnvMaxVG ∧ wellFormed EnvMaxCPU ∧ wellFormed EnvMaxMemory ∧
   malformed EnvMaxVG text).


(** ** Vocabulary of the further properties of the search *)

Section RunVocabulary.
Context `{SimonType} `{Platform} `{Collab}.
Variable clusterResource : ResourceTypes Workloads.
Variable selectedResourceList : list (AppResource Workloads).
Variable newNodePtr : option Node.

(** The pass at count [i] from state [s] ends the run with the error
    [e]: the candidate nodes cannot be made, the oracle fails, the
    admission check fails on a full placement, or the overhead check
    fails before any pod blocks. *)
Definition passError (i : nat) (s : State) (e : error) : Prop :=
  (∃ w, newFakeNodes newNodePtr (Z.of_nat i) (world s) = (inl e, w)) ∨
  ∃ c : OracleCall clusterResource selectedResourceList newNodePtr i s,
    match ocAnswer c with
    | inl cause => e = ErrCollab cause
    | inr result =>
        match UnscheduledPods result with
        | [] => satisfyResourceSetting (NodeStatuses result) = inl e
        | pods =>
            ∃ node, newNodePtr = Some node ∧
              firstBlocker node
                (allDaemonSetsAt clusterResource selectedResourceList s) pods = inl e
        end
    end.

(** The overhead check is called for the template node with the daemon
    sets [daemonSets]. *)
Definition overheadGiven (daemonSets : list DaemonSet) (ev : Event) : Prop :=
  match ev with
  | CallMeetResourceRequests node pod ds => newNodePtr = Some node ∧ ds = daemonSets
  | _ => True
  end.

End RunVocabulary.

(** Events that tell the user how the run ended: a report, the success
    message, the failure message at the ceiling. *)
Definition isVerdict `{Collab} (ev : Event) : bool :=
  match ev with
  | ReportCall _ _ => true
  | Printf MsgSuccess => true
  | Printf (MsgStillFailed _) => true
  | _ => false
  end.

Definition isOracleCall `{Collab} (ev : Event) : bool :=
  match ev with
  | CallSimulate _ _ => true
  | _ => false
  end.

Definition isAdmissionCall `{Collab} (ev : Event) : bool :=
  match ev with
  | CallSatisfyResourceSetting _ => true
  | _ => false
  end.

(** How often a list of events calls the oracle, and the admission check. *)
Definition oracleCalls `{Collab} (events : list Event) : nat :=
  length (filter (fun ev => isOracleCall ev = true) events).

Definition admissionCalls `{Collab} (events : list Event) : nat :=
  length (filter (fun ev => isAdmissionCall ev = true) events).


(** The daemon sets that the cluster and the selected applications
    declare, as the state [s] holds them: those of the cluster, then
    those of every application in order. *)
Definition declaredDaemonSets `{Collab} (clusterResource : ResourceTypes Workloads)
    (selectedResourceList : list (AppResource Workloads)) (s : State) : list DaemonSet :=
  vDaemonSets (viewOf (nodeArrays s) (dsArrays s) clusterResource) ++
  flat_map (fun app => vDaemonSets (avResource app))
           (map (appViewOf (nodeArrays s) (dsArrays s)) selectedResourceList).


(* ===================================================================== *)
(** * The report: [report]                                               *)
(* ===================================================================== *)

(** [%d] of an integer. *)
Definition fmtd (z : Z) : string :=
  if z <? 0 then "-" +:+ Go.itoa (Z.to_nat (- z)) else Go.itoa (Z.to_nat z).

(** [Quantity.Value()] of a quantity given by its [MilliValue()]: the
    value rounded up to the nearest integer away from zero. *)
Definition QuantityValue (milli : Z) : Z :=
  if milli <? 0 then - ((- milli + 999) / 1000) else (milli + 999) / 1000.

(** A volume of [utils.GetPodStorage], a device of [utils.NodeStorage],
    and the GPU information of a node ([gpusharecache.NodeGpuInfo]) with
    its devices. Quantities of bytes are kept as their [Value()]. *)
Record Volume := {
  volKind : string;
  volSize : Z
}.

Record Device := {
  devDevice : string;
  devMediaType : string;
  devCapacity : Z;
  devIsAllocated : bool
}.

Record DeviceInfoBrief := {
  devGpuTotalMemory : Z;
  devGpuUsedMemory : Z;
  devPodList : string           (* [fmt.Sprintf("%s", deviceInfoBrief.PodList)] *)
}.

Record NodeGpuInfo := {
  GpuModel : string;
  GpuCount : Z;
  GpuTotalMemory : Z;
  NumPods : Z;
  DevsBrief : gmap nat DeviceInfoBrief
}.

(** What [report] takes from outside the package: two more constants of
    [simontype], the parts of a pod and of a node that the model of the
    search does not keep, the texts of quantities, and the decoders. *)
Class ReportCollab := {
  LabelAppName : string;
  AnnoNodeGpuShare : string;
  PodLabels : Pod -> gmap string string;
  (** [q.String()] of a quantity of a Kubernetes object, given by its
      [MilliValue()] *)
  QuantityString : Z -> string;
  (** [resource.NewQuantity(n, resource.BinarySI).String()] *)
  BinarySIString : Z -> string;
  GetPodStorage : Pod -> option (list Volume);
  (** [int64(gpuMem*gpuNum)] of
      [gpushareutils.GetGpuMemoryAndCountFromPodAnnotation(pod)] *)
  PodGpuMemRequest : Pod -> Z;
  GetGpuIdFromAnnotation : Pod -> string;
  (** [allocatable.Name(gpushareutils.ResourceName, resource.BinarySI)]:
      its [Value()] and its [String()] *)
  AllocatableGpuMem : Node -> Z;
  AllocatableGpuMemString : Node -> string;
  (** the [Devices] that [ffjson.Unmarshal] decodes beside the volume
      groups of [UnmarshalNodeStorage] *)
  StorageDevices : string -> list Device;
  UnmarshalNodeGpuInfo : string -> ExtError + NodeGpuInfo;
  (** [sort.Slice] of the pods by name; the sort is not stable *)
  SortByName : list Pod -> list Pod
}.

(** What [report] writes: lines on the standard output, tables handed to
    [tablewriter] (every table is rendered with row lines, aligned left;
    [mergeColumns] are the columns of [SetAutoMergeCellsByColumnIndex]),
    and errors logged with [klog.Errorf]. *)
Inductive Output :=
| Println (text : string)
| Render (header : list string) (rows : list (list string)) (mergeColumns : list nat)
| Errorf (node : string) (cause : ExtError).

(** [log.Fatalf] of line 476: the process ends. *)
Record ReportFatal := {
  fatalNode : string;
  fatalCause : ExtError
}.

Section Report.
Context `{SimonType} `{Platform} `{Collab} `{ReportCollab}.

(** [fmt.Sprintf("%s(%d%%)", text, percent)]. *)
Definition withShare (text : string) (percent : Z) : string :=
  text +:+ "(" +:+ fmtd percent +:+ "%)".

(** ** Step 1: the pods *)

Definition podHeader (extendedResources : list string) : list string :=
  [ "Node"; "Pod"; "CPU Requests"; "Memory Requests" ]%string
  ++ (if containLocalStorage extendedResources then ["Volume Request"%string] else [])
  ++ (if containGpu extendedResources then ["GPU Mem Requests"%string] else [])
  ++ [ "APP Name"%string ].

(** The loop of lines 349-355 over the volumes of a pod, at index [i]. *)
Fixpoint volumesText (i : nat) (volumes : list Volume) (podVolumeStr : string) : string :=
  match volumes with
  | [] => podVolumeStr
  | volume :: rest =>
      let volumeStr :=
        "<" +:+ Go.itoa i +:+ "> " +:+ volKind volume +:+ ": "
            +:+ BinarySIString (volSize volume) in
      let podVolumeStr := podVolumeStr +:+ volumeStr in
      volumesText (S i) rest
        (match rest with
         | [] => podVolumeStr
         | _ :: _ => podVolumeStr +:+ String (ascii_of_nat 10) ""
         end)
  end.

Definition podRow (extendedResources : list string) (node : Node) (pod : Pod)
  : list string :=
  let allocatable := Allocatable node in
  let cpuReq := Cpu (PodRequests pod) in
  let memoryReq := Memory (PodRequests pod) in
  let appname := default ""%string (PodLabels pod !! LabelAppName) in
  [ NodeName node;
    PodNamespace pod +:+ "/" +:+ PodName pod;
    withShare (QuantityString cpuReq) (occupancyRate cpuReq (Cpu allocatable));
    withShare (QuantityString memoryReq)
      (occupancyRate (QuantityValue memoryReq) (QuantityValue (Memory allocatable))) ]
  ++ (if containLocalStorage extendedResources then
        [ match GetPodStorage pod with
          | Some volumes => volumesText 0 volumes ""
          | None => ""%string
          end ]
      else [])
  ++ (if containGpu extendedResources then
        [ withShare (BinarySIString (PodGpuMemRequest pod))
            (occupancyRate (PodGpuMemRequest pod) (AllocatableGpuMem node)) ]
      else [])
  ++ [ appname ].

(** A pod is listed under the node of its status only if it is bound to
    that node. *)
Definition podRows (extendedResources : list string) (nodeStatuses : list NodeStatus)
  : list (list string) :=
  flat_map
    (fun status =>
       flat_map
         (fun pod =>
            if negb (String.eqb (PodNodeName pod) (NodeName (nsNode status))) then []
            else [ podRow extendedResources (nsNode status) pod ])
         (nsPods status))
    nodeStatuses.

(** ** Step 2: the nodes *)

Definition nodeTableHeader (extendedResources : list string) : list string :=
  [ "Node"; "CPU Allocatable"; "CPU Requests"; "Memory Allocatable";
    "Memory Requests" ]%string
  ++ (if containGpu extendedResources
      then [ "GPU Mem Allocatable"; "GPU Mem Requests" ]%string else [])
  ++ [ "Pod Count"; "New Node" ]%string.

(** The GPU memory requested by the pods of [allPods] bound to the node. *)
Definition nodeGpuMemReq (allPods : list Pod) (node : Node) : Z :=
  fold_left
    (fun total pod =>
       if String.eqb (PodNodeName pod) (NodeName node)
       then total + PodGpuMemRequest pod else total)
    allPods 0.

Definition nodeRow (extendedResources : list string) (allPods : list Pod)
    (status : NodeStatus) : list string :=
  let node := nsNode status in
  let allocatable := Allocatable node in
  let reqs := GetPodsTotalRequestsAndLimitsByNodeName allPods (NodeName node) in
  let newNode :=
    match NodeLabels node !! LabelNewNode with
    | Some _ => "√"%string
    | None => ""%string
    end in
  [ NodeName node;
    QuantityString (Cpu allocatable);
    withShare (QuantityString (Cpu reqs)) (occupancyRate (Cpu reqs) (Cpu allocatable));
    QuantityString (Memory allocatable);
    withShare (QuantityString (Memory reqs))
      (occupancyRate (QuantityValue (Memory reqs)) (QuantityValue (Memory allocatable))) ]
  ++ (if containGpu extendedResources then
        [ AllocatableGpuMemString node;
          withShare (BinarySIString (nodeGpuMemReq allPods node))
            (occupancyRate (nodeGpuMemReq allPods node) (AllocatableGpuMem node)) ]
      else [])
  ++ [ fmtd (Z.of_nat (length (nsPods status))); newNode ].

Definition nodeRows (extendedResources : list string) (nodeStatuses : list NodeStatus)
  : list (list string) :=
  map (nodeRow extendedResources (allPodsOf nodeStatuses)) nodeStatuses.

(** ** Step 3: local storage *)

Definition storageHeader : list string :=
  [ "Node"; "Storage Kind"; "Storage Name"; "Storage Allocatable";
    "Storage Requests" ]%string.

Definition vgRow (node : Node) (vg : SharedResource) : list string :=
  [ NodeName node; "VG"%string; vgName vg; BinarySIString (Capacity vg);
    withShare (BinarySIString (Requested vg)) (occupancyRate (Requested vg) (Capacity vg)) ].

Definition deviceRow (node : Node) (device : Device) : list string :=
  [ NodeName node; "Device(" +:+ devMediaType device +:+ ")"; devDevice device;
    BinarySIString (devCapacity device);
    if devIsAllocated device then "used"%string else "unused"%string ].

(** The loop of lines 470-503: the rows appended so far, or the
    [log.Fatalf] on the first node whose annotation cannot be decoded. *)
Fixpoint storageRows (nodeStatuses : list NodeStatus) (rows : list (list string))
  : ReportFatal + list (list string) :=
  match nodeStatuses with
  | [] => inr rows
  | status :: rest =>
      let node := nsNode status in
      match NodeAnnotations node !! AnnoNodeLocalStorage with
      | Some nodeStorageStr =>
          match UnmarshalNodeStorage nodeStorageStr with
          | inl err => inl {| fatalNode := NodeName node; fatalCause := err |}
          | inr nodeStorage =>
              storageRows rest
                (rows ++ map (vgRow node) (VGs nodeStorage)
                      ++ map (deviceRow node) (StorageDevices nodeStorageStr))
          end
      | None => storageRows rest rows
      end
  end.

(** ** Step 3: GPU *)

Definition gpuNodeHeader : list string :=
  [ "Node"; "GPU ID"; "GPU Request/Capacity"; "Pod List" ]%string.

Definition podGpuHeader : list string :=
  [ "Pod"; "CPU Req"; "Mem Req"; "GPU Req"; "Host Node"; "GPU IDX" ]%string.

(** [fmt.Sprintf("%s/%s(%d%%)", ...)]. *)
Definition reqCap (requested capacity : string) (percent : Z) : string :=
  requested +:+ "/" +:+ withShare capacity percent.

Definition gpuDeviceRows (node : Node) (nodeGpuInfo : NodeGpuInfo) : list (list string) :=
  flat_map
    (fun idx =>
       match DevsBrief nodeGpuInfo !! idx with
       | Some deviceInfoBrief =>
           let devTotalGpuMem := devGpuTotalMemory deviceInfoBrief in
           if devTotalGpuMem <=? 0 then []
           else
             let devUsedGpuMem := devGpuUsedMemory deviceInfoBrief in
             [ [ NodeName node +:+ " (" +:+ GpuModel nodeGpuInfo +:+ ")";
                 fmtd (Z.of_nat idx);
                 reqCap (BinarySIString devUsedGpuMem) (BinarySIString devTotalGpuMem)
                        (occupancyRate devUsedGpuMem devTotalGpuMem);
                 devPodList deviceInfoBrief ] ]
       | None => []
       end)
    (seq 0 (size (DevsBrief nodeGpuInfo))).

(** The loop of lines 510-545: what [klog.Errorf] has logged and the rows
    appended. *)
Fixpoint gpuNodeRows (allPods : list Pod) (nodeStatuses : list NodeStatus)
  : list Output * list (list string) :=
  match nodeStatuses with
  | [] => ([], [])
  | status :: rest =>
      let node := nsNode status in
      let '(logged, rows) := gpuNodeRows allPods rest in
      match NodeAnnotations node !! AnnoNodeGpuShare with
      | Some nodeGpuInfoStr =>
          match UnmarshalNodeGpuInfo nodeGpuInfoStr with
          | inl err => (Errorf (NodeName node) err :: logged, rows)
          | inr nodeGpuInfo =>
              let requested := nodeGpuMemReq allPods node in
              (logged,
               [ NodeName node +:+ " (" +:+ GpuModel nodeGpuInfo +:+ ")";
                 fmtd (GpuCount nodeGpuInfo) +:+ " GPUs";
                 reqCap (BinarySIString requested)
                        (BinarySIString (GpuTotalMemory nodeGpuInfo))
                        (occupancyRate requested (GpuTotalMemory nodeGpuInfo));
                 fmtd (NumPods nodeGpuInfo) +:+ " Pods" ]
               :: gpuDeviceRows node nodeGpuInfo ++ rows)
          end
      | None => (logged, rows)
      end
  end.

Definition podGpuRow (pod : Pod) : list string :=
  [ PodName pod;
    QuantityString (Cpu (PodRequests pod));
    QuantityString (Memory (PodRequests pod));
    BinarySIString (PodGpuMemRequest pod);
    PodNodeName pod;
    GetGpuIdFromAnnotation pod ].

(** ** [report] *)

(** What has been written, and how the call ends: [None] when [report]
    returns, the [log.Fatalf] otherwise. *)
Definition report (nodeStatuses : list NodeStatus) (extendedResources : list string)
  : list Output * option ReportFatal :=
  let allPods := allPodsOf nodeStatuses in
  let step1 :=
    [ Println "Pod Info";
      Render (podHeader extendedResources) (podRows extendedResources nodeStatuses) [0%nat];
      Println "" ] in
  let step2 :=
    [ Println "Node Info";
      Render (nodeTableHeader extendedResources)
             (nodeRows extendedResources nodeStatuses) [];
      Println "" ] in
  let gpu :=
    if containGpu extendedResources then
      let '(logged, rows) := gpuNodeRows allPods nodeStatuses in
      [ Println "GPU Node Resource" ] ++ logged ++
      [ Render gpuNodeHeader rows [0%nat];
        Println (String (ascii_of_nat 10) "Pod -> Node Map");
        Render podGpuHeader (map podGpuRow (SortByName allPods)) [] ]
    else [] in
  match extendedResources with
  | [] => (step1 ++ step2, None)
  | _ :: _ =>
      let heading := [ Println "Extended Resource Info" ] in
      if containLocalStorage extendedResources then
        match storageRows nodeStatuses [] with
        | inl fatal =>
            (step1 ++ step2 ++ heading ++ [ Println "Node Local Storage" ], Some fatal)
        | inr rows =>
            (step1 ++ step2 ++ heading ++
             [ Println "Node Local Storage"; Render storageHeader rows [0%nat] ] ++ gpu,
             None)
        end
      else (step1 ++ step2 ++ heading ++ gpu, None)
  end.

End Report.


(** The tables among what has been written. *)
Definition isRender (o : Output) : bool :=
  match o with
  | Render _ _ _ => true
  | _ => false
  end.

(** Every row of the table has as many cells as the header. *)
Definition rectangular (o : Output) : Prop :=
  match o with
  | Render header rows _ => Forall (fun row => length row = length header) rows
  | _ => True
  end.

(** Every pod of the status is bound to the node of the status. *)
Definition allBound (status : NodeStatus) : Prop :=
  Forall (fun pod => PodNodeName pod = NodeName (nsNode status)) (nsPods status).


(** How many tables a list of outputs holds. *)
Definition tableCount (outputs : list Output) : nat :=
  length (filter (fun o => isRender o = true) outputs).

(** The pods of a status that the pod table lists. *)
Definition boundPods (status : NodeStatus) : list Pod :=
  filter (fun pod => PodNodeName pod = NodeName (nsNode status)) (nsPods status).


(** How often a list of events calls [report]. *)
Definition reportCalls `{Collab} (events : list Event) : nat :=
  length (filter (fun ev => isReport ev = true) events).


(* ===================================================================== *)
(** * Steps 1 to 3 of [Run]: reading the inputs                          *)
(* ===================================================================== *)

(** The packages that read the files and build the Kubernetes objects
    ([chart], [utils], [simulator]) and the prompt ([survey]). A reader
    of files works on the outside world; a decoder also allocates the
    backing arrays of the slices it returns. [NoWorkloads] is what the
    zero value of [simulator.ResourceTypes] holds beside its nil
    slices. *)
Class Loader `{Collab} := {
  KubeClient : Type;
  NoWorkloads : Workloads;
  ProcessChart : string -> string -> World -> (ExtError + list string) * World;
  GetYamlContentFromDirectory : string -> World -> (ExtError + list string) * World;
  GetObjectFromYamlContent :
    list string -> World -> gmap nat (list Node) -> gmap nat (list DaemonSet) ->
    (ExtError + ResourceTypes Workloads) *
    (World * gmap nat (list Node) * gmap nat (list DaemonSet));
  CreateKubeClient : string -> World -> (ExtError + KubeClient) * World;
  CreateClusterResourceFromClient :
    KubeClient -> World -> gmap nat (list Node) -> gmap nat (list DaemonSet) ->
    (ExtError + ResourceTypes Workloads) *
    (World * gmap nat (list Node) * gmap nat (list DaemonSet));
  CreateClusterResourceFromClusterConfig :
    string -> World -> gmap nat (list Node) -> gmap nat (list DaemonSet) ->
    (ExtError + ResourceTypes Workloads) *
    (World * gmap nat (list Node) * gmap nat (list DaemonSet));
  (** the nodes as the call leaves them: it is given pointers and changes
      the nodes in place *)
  MatchAndSetLocalStorageAnnotationOnNode :
    list Node -> string -> World -> list Node * World;
  (** [survey.Ask] with the options offered: the names selected *)
  Ask : list string -> World -> (ExtError + list string) * World
}.

(** How steps 1 to 3 end when no collaborator fails: with the error
    "the new node directory(%s) has no nodes ", with [log.Fatalf] after
    the prompt has failed, or with the inputs of step 4. *)
Inductive Prepared `{Collab} :=
| NoNodes (dir : string)
| AskFailed (cause : ExtError)
| Ready (clusterResource : ResourceTypes Workloads)
        (selectedResourceList : list (AppResource Workloads))
        (newNode : option Node).

(** How [Run] ends when it returns no error of a collaborator. *)
Inductive RunResult `{Collab} :=
| ReturnedNoNodes (dir : string)
| ExitedAtPrompt (cause : ExtError)
| Searched (outcome : Outcome).

Section Preparation.
Context `{SimonType} `{Platform} `{Collab} `{!Loader}.

(** A call of a decoder; its error is returned unchanged. *)
Definition decoding {A}
    (f : World -> gmap nat (list Node) -> gmap nat (list DaemonSet) ->
         (ExtError + A) * (World * gmap nat (list Node) * gmap nat (list DaemonSet)))
  : M A :=
  fun s =>
    let '(r, (w, hn, hd)) := f (world s) (nodeArrays s) (dsArrays s) in
    (match r with
     | inl e => inl (ErrCollab e)
     | inr x => inr x
     end,
     {| world := w; nodeArrays := hn; dsArrays := hd; out := out s |}).

(** Step 1 (lines 98-116): [resourceMap] and [resourceList] after the
    applications have been read in order. *)
Fixpoint loadApps (apps : list AppInfo)
    (resourceMap : gmap string (ResourceTypes Workloads)) (resourceList : list string)
  : M (gmap string (ResourceTypes Workloads) * list string) :=
  match apps with
  | [] => mret (resourceMap, resourceList)
  | app :: rest =>
      content ← inWorld (extern (if AppChart app
                                 then ProcessChart (AppName app) (AppPath app)
                                 else GetYamlContentFromDirectory (AppPath app)));
      appResource ← decoding (GetObjectFromYamlContent content);
      loadApps rest (<[AppName app := appResource]> resourceMap)
               (resourceList ++ [AppName app])
  end.

(** Step 2 (lines 118-133). *)
Definition loadCluster (applier : Applier) : M (ResourceTypes Workloads) :=
  if negb (String.eqb (KubeConfig (cluster applier)) "") then
    kubeclient ← inWorld (extern (CreateKubeClient (KubeConfig (cluster applier))));
    decoding (CreateClusterResourceFromClient kubeclient)
  else
    decoding (CreateClusterResourceFromClusterConfig (CustomCluster (cluster applier))).

(** Line 147: the nodes of the slice are changed in place; the slice
    keeps its length. *)
Definition matchAndSet (nodes : Slice.t) (dir : string) : M unit :=
  fun s =>
    let old := Slice.view (nodeArrays s) nodes in
    let '(new, w) := MatchAndSetLocalStorageAnnotationOnNode old dir (world s) in
    (inr tt,
     {| world := w;
        nodeArrays :=
          alter (fun a => take (length old) (new ++ drop (length new) old)
                          ++ drop (length old) a)
                (Slice.arr nodes) (nodeArrays s);
        dsArrays := dsArrays s;
        out := out s |}).

(** [resourceMap[name]]: the zero value when the name is not a key. *)
Definition zeroResource : ResourceTypes Workloads :=
  {| Nodes := Slice.null; DaemonSets := Slice.null; Others := NoWorkloads |}.

Definition selectResource (resourceMap : gmap string (ResourceTypes Workloads))
    (name : string) : AppResource Workloads :=
  {| Name := name; Resource := default zeroResource (resourceMap !! name) |}.

(** [nodeResource.Nodes[0]] of line 181, as a pointer. *)
Definition firstNode (nodes : Slice.t) : M (option Node) :=
  fun s => (inr (head (Slice.view (nodeArrays s) nodes)), s).

(** [survey.Ask] (lines 161-164); its error is not returned but ends the
    process. *)
Definition askSelection (resourceList : list string) : M (ExtError + list string) :=
  fun s =>
    let '(answer, w) := Ask resourceList (world s) in
    (inr answer,
     {| world := w; nodeArrays := nodeArrays s; dsArrays := dsArrays s; out := out s |}).

(** Lines 168-175 and line 181. *)
Definition selectAll (clusterResource : ResourceTypes Workloads)
    (resourceMap : gmap string (ResourceTypes Workloads))
    (nodeResource : ResourceTypes Workloads) (selectedAppNameList : list string)
  : M Prepared :=
  newNode ← firstNode (Nodes nodeResource);
  mret (Ready clusterResource
              (map (selectResource resourceMap) selectedAppNameList)
              newNode).

(** Steps 1 to 3 (lines 96-175) and line 181. *)
Definition prepare (applier : Applier) : M Prepared :=
  '(resourceMap, resourceList) ← loadApps (appList applier) ∅ [];
  clusterResource ← loadCluster applier;
  content ← inWorld (extern (GetYamlContentFromDirectory (newNode applier)));
  nodeResource ← decoding (GetObjectFromYamlContent content);
  if (Slice.len (Nodes nodeResource) =? 0)%nat then mret (NoNodes (newNode applier))
  else
    matchAndSet (Nodes nodeResource) (newNode applier);;
    if interactive applier then
      answer ← askSelection resourceList;
      match answer with
      | inl cause => mret (AskFailed cause)
      | inr selectedAppNameList =>
          selectAll clusterResource resourceMap nodeResource selectedAppNameList
      end
    else selectAll clusterResource resourceMap nodeResource resourceList.

(** The method [Run] of the applier (lines 88-245): steps 1 to 3, then the
    search. *)
Definition runApplier (applier : Applier) : M RunResult :=
  prepared ← prepare applier;
  match prepared with
  | NoNodes dir => mret (ReturnedNoNodes dir)
  | AskFailed cause => mret (ExitedAtPrompt cause)
  | Ready clusterResource selectedResourceList newNode =>
      outcome ← Run clusterResource selectedResourceList newNode
                    (extendedResources applier);
      mret (Searched outcome)
  end.

End Preparation.

(** Two appliers that differ at most in what [Run] never reads: the
    scheduler configuration, the greed flag, and the custom cluster when
    a kubeconfig is given. *)
Definition sameForRun (a b : Applier) : Prop :=
  appList a = appList b ∧ newNode a = newNode b ∧
  interactive a = interactive b ∧ extendedResources a = extendedResources b ∧
  KubeConfig (cluster a) = KubeConfig (cluster b) ∧
  (KubeConfig (cluster a) = ""%string ->
   CustomCluster (cluster a) = CustomCluster (cluster b)).


(** A computation that writes nothing: it leaves the output as it is. *)
Definition silent `{Collab} {A} (m : M A) : Prop :=
  ∀ st r st', m st = (r, st') -> out st' = out st.

(* ===================================================================== *)
(** * Concrete collaborators and inputs, for evaluating the model        *)
(* ===================================================================== *)

Module Scenario.

(** Constants in the style of [pkg/type]; the search ceiling is the 5 of
    the specification's example. *)
Definition consts : SimonType :=
  {| MaxNumNewNode := 5;
     NewNodeNamePrefix := "simulated-node";
     LabelNewNode := "simon/new-node";
     EnvMaxCPU := "MaxCPU";
     EnvMaxMemory := "MaxMemory";
     EnvMaxVG := "MaxVG";
     AnnoNodeLocalStorage := "simon/node-local-storage" |}.

(** The total requests of the pods bound to the named node. *)
Definition totalRequests (pods : list Pod) (nodeName : string) : ResourceList :=
  fold_left
    (fun acc pod =>
       if String.eqb (PodNodeName pod) nodeName
       then {| Cpu := Cpu acc + Cpu (PodRequests pod);
               Memory := Memory acc + Memory (PodRequests pod) |}
       else acc)
    pods {| Cpu := 0; Memory := 0 |}.

(** A node is made valid by giving it the host name; the world counts
    the identifiers handed out. A template with an empty name is
    rejected. *)
Definition makeValid (node : Node) (hostname : string) (w : nat)
  : (ExtError + Node) * nat :=
  if String.eqb (NodeName node) ""
  then (inl "invalid node"%string, w)
  else (inr {| NodeName := hostname;
               NodeLabels := NodeLabels node;
               NodeAnnotations := NodeAnnotations node;
               Allocatable := Allocatable node |}, S w).

(** Collaborators built from an environment, a placement-constraint
    check, an overhead check and an oracle. *)
Definition collab
    (env : string -> string)
    (should : Node -> Pod -> bool)
    (meet : Node -> Pod -> list DaemonSet -> ExtError + bool)
    (oracle : ClusterView unit -> list (AppView unit) -> nat ->
              (ExtError + SimulateResult) * nat)
  : Collab :=
  {| World := nat;
     Workloads := unit;
     Getenv := env;
     Stat := fun _ => None;
     UnmarshalNodeStorage := fun _ => inr {| VGs := [] |};
     GetPodsTotalRequestsAndLimitsByNodeName := totalRequests;
     MakeValidNodeByNode := makeValid;
     NodeShouldRunPod := should;
     MeetResourceRequests := meet;
     Simulate := oracle |}.

Definition noEnv : string -> string := fun _ => ""%string.

Definition setEnv (name value : string) (env : string -> string) : string -> string :=
  fun n => if String.eqb n name then value else env n.

Definition mkNode (name : string) (cpu mem : Z) : Node :=
  {| NodeName := name; NodeLabels := ∅; NodeAnnotations := ∅;
     Allocatable := {| Cpu := cpu; Memory := mem |} |}.

Definition mkPod (name node : string) (cpu mem : Z) : Pod :=
  {| PodNamespace := "default"; PodName := name; PodNodeName := node;
     PodRequests := {| Cpu := cpu; Memory := mem |} |}.

Definition oneNode (cpuAlloc cpuReq : Z) : list NodeStatus :=
  [ {| nsNode := mkNode "node-a" cpuAlloc 4000;
       nsPods := [ mkPod "pod-a" "node-a" cpuReq 1000 ] |} ].

(** Collaborators that only matter for the admission check. *)
Definition admissionCollab (env : string -> string) : Collab :=
  collab env (fun _ _ => true) (fun _ _ _ => inr true)
         (fun _ _ w => (inr {| UnscheduledPods := []; NodeStatuses := [] |}, w)).

(** A configuration that names both a kubeconfig and a custom cluster. *)
Definition bothSources : Simon :=
  {| SpecCluster := {| KubeConfig := "/root/.kube/config"; CustomCluster := "example/cluster" |};
     SpecAppList := [];
     SpecNewNode := "example/newnode" |}.

Definition someOptions : Options :=
  {| SimonConfig := "simon-config.yaml";
     DefaultSchedulerConfigFile := "";
     UseGreed := false;
     Interactive := false;
     ExtendedResources := [] |}.

(** ** Runs *)

(** A pod the oracle leaves unscheduled. *)
Definition pendingPod : UnscheduledPod :=
  {| upPod := mkPod "web-0" "" 500 1000;
     upReason := "0/1 nodes are available: 1 Insufficient cpu." |}.

(** An oracle that places every pod as soon as the snapshot has [k]
    nodes, and leaves [pendingPod] unscheduled before. *)
Definition needsNodes (k : nat)
  : ClusterView unit -> list (AppView unit) -> nat -> (ExtError + SimulateResult) * nat :=
  fun snapshot _ w =>
    let statuses := map (fun n => {| nsNode := n; nsPods := [] |}) (vNodes snapshot) in
    if (k <=? length (vNodes snapshot))%nat
    then (inr {| UnscheduledPods := []; NodeStatuses := statuses |}, w)
    else (inr {| UnscheduledPods := [pendingPod]; NodeStatuses := statuses |}, w).

(** The cluster: one node, in a backing array of capacity 1. *)
Definition cluster1 : ResourceTypes unit :=
  {| Nodes := Slice.mk 1 1 1; DaemonSets := Slice.null; Others := tt |}.

Definition nodeStore : gmap nat (list Node) :=
  {[ 1%nat := [mkNode "node-a" 2000 4000] ]}.

Definition template : option Node := Some (mkNode "template" 2000 4000).

(** The pod never fits: the search runs to the ceiling. *)
Definition neverFits : Collab :=
  collab noEnv (fun _ _ => true) (fun _ _ _ => inr true) (needsNodes 100).

(** The template has a taint that the pod does not tolerate. *)
Definition tainted : Collab :=
  collab noEnv (fun _ _ => false) (fun _ _ _ => inr true) (needsNodes 100).

(** The daemon sets alone fill a new node. *)
Definition overloaded : Collab :=
  collab noEnv (fun _ _ => true) (fun _ _ _ => inr false) (needsNodes 100).

(** Three nodes are enough: the one of the cluster and two new ones. *)
Definition fitsOnThree : Collab :=
  collab noEnv (fun _ _ => true) (fun _ _ _ => inr true) (needsNodes 3).

(** Every pod is placed at once, and the CPU ceiling 0 refuses. *)
Definition alwaysRefused : Collab :=
  collab (setEnv "MaxCPU" "0" noEnv) (fun _ _ => true) (fun _ _ _ => inr true)
    (fun snapshot _ w =>
       (inr {| UnscheduledPods := [];
               NodeStatuses := [ {| nsNode := mkNode "node-a" 2000 4000;
                                    nsPods := [ mkPod "web-0" "node-a" 500 1000 ] |} ] |}, w)).

Definition start (C : Collab) (w : @World C) : @State C :=
  @initial C w nodeStore ∅.

(** ** A cluster whose slices have room to spare *)

Definition mkDaemonSet (name : string) (cpu mem : Z) : DaemonSet :=
  {| DsNamespace := "kube-system"; DsName := name;
     DsRequests := {| Cpu := cpu; Memory := mem |} |}.

(** One node in an array of capacity 4, and one daemon set in an array of
    capacity 4: [append] writes into these arrays. *)
Definition cluster2 : ResourceTypes unit :=
  {| Nodes := Slice.mk 1 1 4; DaemonSets := Slice.mk 1 1 4; Others := tt |}.

(** An application with one daemon set, in an array of its own. *)
Definition app1 : AppResource unit :=
  {| Name := "app";
     Resource := {| Nodes := Slice.null; DaemonSets := Slice.mk 2 1 1; Others := tt |} |}.

Definition dsStore : gmap nat (list DaemonSet) :=
  {[ 1%nat := [mkDaemonSet "proxy" 100 100]; 2%nat := [mkDaemonSet "agent" 200 200] ]}.

Definition start2 (C : Collab) (w : @World C) : @State C :=
  @initial C w nodeStore dsStore.

(** Collaborators that decode two storage annotations: ["vg-40-of-100"]
    declares one volume group with 40 requested of 100; anything else is
    refused. *)
Definition decodeStorage (text : string) : ExtError + NodeStorage :=
  if String.eqb text "vg-40-of-100"
  then inr {| VGs := [ {| vgName := "pool0"; Capacity := 100; Requested := 40 |} ] |}
  else inl "unexpected end of JSON input"%string.

Definition storageCollab (env : string -> string) : Collab :=
  {| World := nat;
     Workloads := unit;
     Getenv := env;
     Stat := fun _ => None;
     UnmarshalNodeStorage := decodeStorage;
     GetPodsTotalRequestsAndLimitsByNodeName := totalRequests;
     MakeValidNodeByNode := makeValid;
     NodeShouldRunPod := fun _ _ => true;
     MeetResourceRequests := fun _ _ _ => inr true;
     Simulate := fun _ _ w => (inr {| UnscheduledPods := []; NodeStatuses := [] |}, w) |}.

Definition storageNode (name annotation : string) (cpu mem : Z) : Node :=
  {| NodeName := name; NodeLabels := ∅;
     NodeAnnotations := {[ "simon/node-local-storage"%string := annotation ]};
     Allocatable := {| Cpu := cpu; Memory := mem |} |}.

(** Two nodes, the second with local storage, and three pods. *)
Definition twoNodes : list NodeStatus :=
  [ {| nsNode := mkNode "node-a" 4000 8000;
       nsPods := [ mkPod "pod-a" "node-a" 1000 2000; mkPod "pod-b" "node-a" 500 1000 ] |};
    {| nsNode := storageNode "node-b" "vg-40-of-100" 2000 4000;
       nsPods := [ mkPod "pod-c" "node-b" 1500 1000 ] |} ].

(** The same with a third node whose annotation cannot be decoded. *)
Definition brokenNodes : list NodeStatus :=
  twoNodes ++ [ {| nsNode := storageNode "node-c" "{" 1000 1000; nsPods := [] |} ].

(** An oracle that fails as soon as the snapshot has [k] nodes, and
    leaves [pendingPod] unscheduled before. *)
Definition crashesAt (k : nat)
  : ClusterView unit -> list (AppView unit) -> nat -> (ExtError + SimulateResult) * nat :=
  fun snapshot _ w =>
    let statuses := map (fun n => {| nsNode := n; nsPods := [] |}) (vNodes snapshot) in
    if (k <=? length (vNodes snapshot))%nat
    then (inl "simulate: context deadline exceeded"%string, w)
    else (inr {| UnscheduledPods := [pendingPod]; NodeStatuses := statuses |}, w).

(** The oracle fails at count 2. *)
Definition oracleCrashes : Collab :=
  collab noEnv (fun _ _ => true) (fun _ _ _ => inr true) (crashesAt 3).

(** ** Data for the report *)

Definition reportCollab : ReportCollab :=
  {| LabelAppName := "simon/app-name";
     AnnoNodeGpuShare := "simon/node-gpu-share";
     PodLabels := fun _ => ∅;
     QuantityString := fmtd;
     BinarySIString := fmtd;
     GetPodStorage := fun _ => None;
     PodGpuMemRequest := fun _ => 0;
     GetGpuIdFromAnnotation := fun _ => ""%string;
     AllocatableGpuMem := fun _ => 0;
     AllocatableGpuMemString := fun _ => "0"%string;
     StorageDevices := fun _ => [];
     UnmarshalNodeGpuInfo := fun _ => inl "no GPU information"%string;
     SortByName := fun pods => pods |}.

(** An oracle that places every pod at once on the two nodes of
    [twoNodes], with collaborators that decode the storage annotation. *)
Definition storageCluster : Collab :=
  {| World := nat;
     Workloads := unit;
     Getenv := noEnv;
     Stat := fun _ => None;
     UnmarshalNodeStorage := decodeStorage;
     GetPodsTotalRequestsAndLimitsByNodeName := totalRequests;
     MakeValidNodeByNode := makeValid;
     NodeShouldRunPod := fun _ _ => true;
     MeetResourceRequests := fun _ _ _ => inr true;
     Simulate := fun _ _ w => (inr {| UnscheduledPods := []; NodeStatuses := twoNodes |}, w) |}.

(** ** Data for steps 1 to 3 *)

(** A loader over [neverFits]: the content of a directory is its path,
    the directory ["missing"] cannot be read, and the objects decoded
    from a content are one node named after it, or no node at all for the
    directory ["empty"]. *)
Definition decodeObjects (content : list string) (w : nat)
    (hn : gmap nat (list Node)) (hd : gmap nat (list DaemonSet))
  : (ExtError + ResourceTypes unit) * (nat * gmap nat (list Node) * gmap nat (list DaemonSet)) :=
  let nodes :=
    match content with
    | [ path ] => if String.eqb path "empty" then [] else [ mkNode path 2000 4000 ]
    | _ => []
    end in
  let '(hn', s) := Slice.alloc hn nodes in
  (inr {| Nodes := s; DaemonSets := Slice.null; Others := tt |}, (w, hn', hd)).

Definition readDirectory (path : string) (w : nat) : (ExtError + list string) * nat :=
  if String.eqb path "missing"
  then (inl "open missing: no such file or directory"%string, w)
  else (inr [ path ], w).

Definition loader : @Loader neverFits :=
  {| KubeClient := unit;
     NoWorkloads := tt : @Workloads neverFits;
     ProcessChart := fun _ path w => readDirectory path w;
     GetYamlContentFromDirectory := readDirectory;
     GetObjectFromYamlContent := decodeObjects;
     CreateKubeClient := fun _ w => (inr tt, w);
     CreateClusterResourceFromClient := fun _ => decodeObjects [ "cluster"%string ];
     CreateClusterResourceFromClusterConfig := fun path => decodeObjects [ path ];
     MatchAndSetLocalStorageAnnotationOnNode := fun nodes _ w => (nodes, w);
     Ask := fun options w => (inr options, w) |}.

(** Two applications under one name. *)
Definition twiceNamed : Applier :=
  {| cluster := {| KubeConfig := ""; CustomCluster := "example/cluster" |};
     appList := [ {| AppName := "web"; AppPath := "example/web-v1"; AppChart := false |};
                  {| AppName := "web"; AppPath := "example/web-v2"; AppChart := false |} ];
     newNode := "example/newnode";
     schedulerConfig := "";
     useGreed := false;
     interactive := false;
     extendedResources := [] |}.

(** The directory of the new node holds no node. *)
Definition noNewNode : Applier :=
  {| cluster := {| KubeConfig := ""; CustomCluster := "example/cluster" |};
     appList := [];
     newNode := "empty";
     schedulerConfig := "";
     useGreed := false;
     interactive := false;
     extendedResources := [] |}.

Definition blank : @State neverFits := @initial neverFits 0%nat ∅ ∅.

End Scenario.

(* ===================================================================== *)
(** * Properties                                                         *)
(* ===================================================================== *)

(** ** The state monad *)

Section MonadFacts.
Context `{SimonType} `{Platform} `{Collab}.

Lemma bind_inv {A B} (m : M A) (f : A -> M B) st r st' :
  (x ← m; f x) st = (r, st') ->
  (∃ e, m st = (inl e, st') ∧ r = inl e) ∨
  (∃ x s1, m st = (inr x, s1) ∧ f x s1 = (r, st')).
Proof.
  unfold mbind, M_bind, bind. destruct (m st) as [[e | x] s1]; intros Heq.
  - left. exists e. inversion Heq; subst. auto.
  - right. exists x, s1. auto.
Qed.

Lemma bind_ok {A B} (m : M A) (f : A -> M B) st x s1 :
  m st = (inr x, s1) -> (y ← m; f y) st = f x s1.
Proof. intros Hm. unfold mbind, M_bind, bind. by rewrite Hm. Qed.

Lemma bind_err {A B} (m : M A) (f : A -> M B) st e s1 :
  m st = (inl e, s1) -> (y ← m; f y) st = (inl e, s1).
Proof. intros Hm. unfold mbind, M_bind, bind. by rewrite Hm. Qed.

Lemma emit_run ev st :
  emit ev st = (inr tt, {| world := world st; nodeArrays := nodeArrays st;
                           dsArrays := dsArrays st; out := out st ++ [ev] |}).
Proof. reflexivity. Qed.

Lemma mret_run {A} (x : A) (st : State) : (mret x : M A) st = (inr x, st).
Proof. reflexivity. Qed.

End MonadFacts.

(** ** Slices: what [append] can and cannot change *)

Section SliceFacts.
Context {A : Type}.
Implicit Types (h : gmap nat (list A)) (s : Slice.t) (xs : list A).

Lemma wf_cells h s :
  Slice.wf h s ->
  Slice.len s = 0%nat ∨ ∃ a, h !! Slice.arr s = Some a ∧ (Slice.len s ≤ length a)%nat.
Proof.
  intros [Hle [Hcap | Ha]]; [left; lia | by right].
Qed.

Lemma view_empty h s : Slice.len s = 0%nat -> Slice.view h s = [].
Proof. intros Hlen. unfold Slice.view. by rewrite Hlen. Qed.

Lemma length_view h s : Slice.wf h s -> length (Slice.view h s) = Slice.len s.
Proof.
  intros Hwf. destruct (wf_cells _ _ Hwf) as [H0 | (a & Ha & Hlen)].
  - by rewrite view_empty.
  - unfold Slice.view. rewrite Ha. simpl. rewrite length_take. lia.
Qed.

(** An [append] to [s] leaves every slice that is [apart] from [s] as it
    was, and the slice stays apart from the result. *)
Lemma append_frame g h s xs h' s' s0 :
  Slice.append g h s xs = (h', s') ->
  Slice.wf h s0 -> Slice.apart s0 s ->
  Slice.view h' s0 = Slice.view h s0 ∧ Slice.wf h' s0 ∧ Slice.apart s0 s'.
Proof.
  unfold Slice.append. intros Happ Hwf Hapart.
  destruct (decide (Slice.len s + length xs ≤ Slice.cap s)%nat) as [Hfit | Hgrow];
    inversion Happ; subst; clear Happ.
  - (* written in place *)
    destruct (decide (Slice.arr s0 = Slice.arr s)) as [Heq | Hne].
    + assert (Hlen : (Slice.len s0 ≤ Slice.len s)%nat) by (destruct Hapart; [done | lia]).
      destruct (wf_cells _ _ Hwf) as [H0 | (a & Ha & Hla)].
      * (split; [| split]).
        -- by rewrite !view_empty.
        -- pose proof Hwf as [Hle _]. split; [done |].
           destruct Hwf as [_ [? | (b & Hb & _)]]; [by left | right].
           rewrite Heq, lookup_alter_eq. rewrite Heq in Hb.
           rewrite Hb. simpl. eexists; split; [done | lia].
        -- right. simpl. lia.
      * (split; [| split]).
        -- unfold Slice.view. rewrite Heq, lookup_alter_eq. rewrite Heq in Ha.
           rewrite Ha. simpl. rewrite take_app_le.
           ++ rewrite take_take. f_equal. lia.
           ++ rewrite length_take. lia.
        -- destruct Hwf as [Hle _]. split; [done | right].
           rewrite Heq, lookup_alter_eq. rewrite Heq in Ha. rewrite Ha. simpl.
           eexists; split; [done |]. rewrite !length_app, length_take. lia.
        -- right. simpl. lia.
    + (split; [| split]).
      * unfold Slice.view. by rewrite lookup_alter_ne.
      * destruct Hwf as [Hle Hc]. split; [done |].
        destruct Hc as [? | (a & Ha & Hla)]; [by left | right].
        exists a. by rewrite lookup_alter_ne.
      * by left.
  - (* a new array *)
    pose proof (is_fresh (dom h)) as Hfresh. apply not_elem_of_dom in Hfresh.
    destruct (decide (Slice.arr s0 = fresh (dom h))) as [Heq | Hne].
    + assert (H0 : Slice.len s0 = 0%nat).
      { destruct (wf_cells _ _ Hwf) as [? | (a & Ha & _)]; [done |]. congruence. }
      (split; [| split]).
      * by rewrite !view_empty.
      * destruct Hwf as [Hle Hc]. split; [done |].
        destruct Hc as [? | (a & Ha & _)]; [by left | congruence].
      * right. simpl. lia.
    + (split; [| split]).
      * unfold Slice.view. by rewrite lookup_insert_ne.
      * destruct Hwf as [Hle Hc]. split; [done |].
        destruct Hc as [? | (a & Ha & Hla)]; [by left | right].
        exists a. by rewrite lookup_insert_ne.
      * by left.
Qed.

(** The result of [append] denotes the old elements followed by the new. *)
Lemma append_view g h s xs h' s' :
  Slice.append g h s xs = (h', s') ->
  Slice.wf h s ->
  Slice.view h' s' = Slice.view h s ++ xs ∧ Slice.wf h' s'.
Proof.
  unfold Slice.append. intros Happ Hwf.
  destruct (decide (Slice.len s + length xs ≤ Slice.cap s)%nat) as [Hfit | Hgrow];
    inversion Happ; subst; clear Happ.
  - destruct Hwf as [Hle [Hcap | (a & Ha & Hla)]].
    + assert (Slice.len s = 0%nat ∧ xs = []) as [H0 ->].
      { split; [lia |]. destruct xs; [done | simpl in *; lia]. }
      split.
      * unfold Slice.view. simpl. rewrite H0. simpl. by rewrite take_0.
      * split; simpl; [lia | by left].
    + split.
      * unfold Slice.view. simpl. rewrite lookup_alter_eq, Ha. simpl.
        rewrite app_assoc, take_app_length'; [done |].
        rewrite length_app, length_take. lia.
      * split; simpl; [done | right].
        rewrite lookup_alter_eq, Ha. simpl. eexists; split; [done |].
        rewrite !length_app, length_take. lia.
  - split.
    + unfold Slice.view at 1. simpl. rewrite lookup_insert_eq. simpl.
      apply take_ge. rewrite length_app, length_view by done. lia.
    + split; simpl; [lia | right].
      rewrite lookup_insert_eq. eexists; split; [done |].
      rewrite length_app, length_view by done. lia.
Qed.

Lemma apart_refl s : Slice.apart s s.
Proof. right. lia. Qed.

End SliceFacts.

(** ** The loops of [Run], one by one *)

Section LoopFacts.
Context `{SimonType} `{Platform} `{Collab}.
Variable clusterResource : ResourceTypes Workloads.
Variable selectedResourceList : list (AppResource Workloads).
Variable newNodePtr : option Node.
Variable ext : list string.

(** Collecting the daemon sets leaves every slice apart from the
    accumulator as it was. *)
Lemma collectDaemonSets_frame apps acc h h' acc' s0 :
  collectDaemonSets apps acc h = (h', acc') ->
  Slice.wf h s0 -> Slice.apart s0 acc ->
  Slice.view h' s0 = Slice.view h s0 ∧ Slice.wf h' s0.
Proof.
  revert acc h. induction apps as [| app rest IH]; intros acc h Hc Hwf Hapart; simpl in Hc.
  - by inversion Hc; subst.
  - destruct (Slice.append growslice h acc _) as [h1 acc1] eqn:Happ.
    destruct (append_frame _ _ _ _ _ _ _ Happ Hwf Hapart) as (Hv & Hwf1 & Hap1).
    destruct (IH _ _ Hc Hwf1 Hap1) as [Hv' Hwf']. split; [congruence | done].
Qed.

(** The accumulator ends up holding the daemon sets of the cluster and
    then those of every application, in order. *)
Lemma collectDaemonSets_view apps acc h h' acc' :
  collectDaemonSets apps acc h = (h', acc') ->
  Slice.wf h acc ->
  Forall (fun app => Slice.wf h (DaemonSets (Resource app)) ∧
                     Slice.apart (DaemonSets (Resource app)) acc) apps ->
  Slice.view h' acc' =
    Slice.view h acc ++ flat_map (fun app => Slice.view h (DaemonSets (Resource app))) apps.
Proof.
  revert acc h. induction apps as [| app rest IH]; intros acc h Hc Hwf Happs; simpl in Hc.
  - inversion Hc; subst. simpl. by rewrite app_nil_r.
  - destruct (Slice.append growslice h acc _) as [h1 acc1] eqn:Happ.
    destruct (append_view _ _ _ _ _ _ Happ Hwf) as [Hv Hwf1].
    inversion Happs as [| ? ? [Hwa Hapa] Hrest]; subst.
    assert (Hrest1 : Forall (fun app0 => Slice.wf h1 (DaemonSets (Resource app0)) ∧
                       Slice.apart (DaemonSets (Resource app0)) acc1) rest
                     ∧ Forall (fun app0 => Slice.view h1 (DaemonSets (Resource app0)) =
                                          Slice.view h (DaemonSets (Resource app0))) rest).
    { clear -Hrest Happ. induction Hrest as [| a l [Hw Ha] _ IHl]; [by split |].
      destruct IHl as [IH1 IH2].
      destruct (append_frame _ _ _ _ _ _ _ Happ Hw Ha) as (Hv & Hw1 & Ha1).
      split; constructor; auto. }
    destruct Hrest1 as [Hr1 Hr2].
    rewrite (IH _ _ Hc Hwf1 Hr1), Hv. simpl. rewrite <- app_assoc. f_equal. f_equal.
    clear -Hr2. induction Hr2 as [| a l Ha _ IHl]; [done |]. simpl. by rewrite Ha, IHl.
Qed.

(** The loop over the unscheduled pods changes nothing but the output;
    its result and its events are those of the summaries. *)
Lemma rangeUnscheduledPods_run node ds result pods st :
  rangeUnscheduledPods ext node ds result pods st =
    (ctlOf (firstBlocker node ds pods),
     {| world := world st; nodeArrays := nodeArrays st; dsArrays := dsArrays st;
        out := out st ++ rangeEvents node ds result ext pods |}).
Proof.
  revert st. induction pods as [| up rest IH]; intros st; simpl.
  - rewrite app_nil_r. by destruct st.
  - unfold classify, callNodeShouldRunPod, callMeetResourceRequests, reportIn.
    unfold mbind, M_bind, bind, emit, fail, mret, M_ret, ret. simpl.
    destruct (NodeShouldRunPod node (upPod up)); simpl.
    + destruct (MeetResourceRequests node (upPod up) ds) as [e | m]; simpl.
      * by rewrite <- !app_assoc.
      * destruct m; simpl.
        -- rewrite IH. simpl. by rewrite <- !app_assoc.
        -- by rewrite <- !app_assoc.
    + by rewrite <- !app_assoc.
Qed.

End LoopFacts.

Section IterationFacts.
Context `{SimonType} `{Platform} `{Collab}.
Variable clusterResource : ResourceTypes Workloads.
Variable selectedResourceList : list (AppResource Workloads).
Variable newNodePtr : option Node.
Variable ext : list string.

Local Notation "'iteration_'" :=
  (iteration clusterResource selectedResourceList newNodePtr ext).
Local Notation "'Iter_'" :=
  (Iter clusterResource selectedResourceList newNodePtr ext).
Local Notation "'search_'" :=
  (search clusterResource selectedResourceList newNodePtr ext).

Local Arguments rangeUnscheduledPods : simpl never.
Local Arguments firstBlocker : simpl never.
Local Arguments rangeEvents : simpl never.

Lemma newFakeNodes_nil n w e w' :
  newFakeNodes None n w = (e, w') -> e = inl ErrNodeIsNil.
Proof. simpl. congruence. Qed.

(** Every pass of the loop goes one of the ways of [Iter]. *)
Lemma iteration_Iter i st r st' : iteration_ i st = (r, st') -> Iter_ i st r st'.
Proof.
  unfold iteration, callSimulate, callSatisfyResourceSetting.
  unfold mbind, M_bind, bind, emit, inWorld, onNodes, onDaemonSets, readDaemonSets,
    extern, liftResult, deref, fail, mret, M_ret, ret. simpl.
  destruct (newFakeNodes newNodePtr (Z.of_nat i) (world st)) as [[e | nodes] w1] eqn:Hn.
  { intros Heq; inversion Heq; subst. by apply Iter_nodes_error. }
  cbn.
  destruct (Slice.append growslice (nodeArrays st) (Nodes clusterResource) nodes)
    as [hn newNodes] eqn:Happ. cbn.
  destruct (Simulate _ _ w1) as [answer w2] eqn:Hsim.
  pose (c := {| ocNodes := nodes; ocWorld1 := w1; ocArrays := hn; ocNewNodes := newNodes;
                ocAnswer := answer; ocWorld := w2;
                oc_nodes := Hn; oc_append := Happ; oc_answer := Hsim |}
             : OracleCall clusterResource selectedResourceList newNodePtr i st).
  destruct answer as [e | result]; cbn.
  { intros Heq; inversion Heq; subst. rewrite <- app_assoc.
    by apply (Iter_oracle_error _ _ _ _ _ _ c). }
  destruct (UnscheduledPods result) as [| up pods] eqn:Hpods; cbn.
  - destruct (satisfyResourceSetting (NodeStatuses result)) as [e | [ok reason]] eqn:Hs; cbn.
    + intros Heq; inversion Heq; subst. rewrite <- !app_assoc.
      by apply (Iter_setting_error _ _ _ _ _ _ c result).
    + destruct ok; cbn; intros Heq; inversion Heq; subst; rewrite <- !app_assoc.
      * by apply (Iter_accepted _ _ _ _ _ _ c result reason).
      * by apply (Iter_rejected _ _ _ _ _ _ c result reason).
  - destruct (collectDaemonSets selectedResourceList _ (dsArrays st))
      as [hd allDaemonSets] eqn:Hcol. cbn.
    destruct newNodePtr as [node |] eqn:Hptr; cbn.
    2: { pose proof (newFakeNodes_nil _ _ _ _ Hn). discriminate. }
    rewrite rangeUnscheduledPods_run. cbn.
    intros Heq.
    assert (HI := Iter_unscheduled clusterResource selectedResourceList (Some node) ext
                    i st c result node hd allDaemonSets).
    cbv zeta in HI. rewrite Hpods in HI.
    specialize (HI eq_refl ltac:(done) eq_refl Hcol).
    destruct (ctlOf (firstBlocker node (Slice.view hd allDaemonSets) (up :: pods)))
      as [e | ctl] eqn:Hctl;
      inversion Heq; subst; rewrite <- !app_assoc; exact HI.
Qed.

End IterationFacts.

Section SearchFacts.
Context `{SimonType} `{Platform} `{Collab}.
Variable clusterResource : ResourceTypes Workloads.
Variable selectedResourceList : list (AppResource Workloads).
Variable newNodePtr : option Node.
Variable ext : list string.

Local Notation "'iteration_'" :=
  (iteration clusterResource selectedResourceList newNodePtr ext).
Local Notation "'search_'" :=
  (search clusterResource selectedResourceList newNodePtr ext).
Local Notation "'Steps_'" :=
  (Steps clusterResource selectedResourceList newNodePtr ext).
Local Notation "'Ends_'" :=
  (Ends clusterResource selectedResourceList newNodePtr ext).
Local Notation "'Run_'" :=
  (Run clusterResource selectedResourceList newNodePtr ext).

Lemma Steps_le i st j st' : Steps_ i st j st' -> (i ≤ j)%nat.
Proof. induction 1; lia. Qed.

Lemma Steps_snoc i st j st' result st'' :
  Steps_ i st j st' ->
  iteration_ j st' = (inr (CtlNext, result), st'') ->
  Steps_ i st (S j) st''.
Proof.
  induction 1 as [i st | i st r st1 j st' Hit Hsteps IH]; intros Hlast.
  - eapply Steps_next; [exact Hlast | constructor].
  - eapply Steps_next; [exact Hit | auto].
Qed.

(** The search runs the passes in order until one does not end in [i++],
    or the ceiling is reached. *)
Lemma search_run todo i st R st' :
  search_ todo i st = (R, st') ->
  ∃ j s, Steps_ i st j s ∧ (j ≤ i + todo)%nat ∧ Ends_ (i + todo)%nat j s R st'.
Proof.
  revert i st. induction todo as [| todo IH]; intros i st Hs.
  - exists i, st. split; [constructor | split; [lia |]].
    simpl in Hs. inversion Hs; subst.
    replace (i + 0)%nat with i by lia. by constructor.
  - simpl in Hs. unfold mbind, M_bind, bind in Hs.
    destruct (iteration_ i st) as [[e | [ctl result]] st1] eqn:Hit.
    + inversion Hs; subst. exists i, st. split; [constructor | split; [lia |]].
      apply Ends_error; [lia | done].
    + destruct ctl as [| | pod why].
      * destruct (IH _ _ Hs) as (j & s & Hsteps & Hle & Hends).
        exists j, s. replace (i + S todo)%nat with (S i + todo)%nat by lia.
        split; [| split; [lia | done]].
        eapply Steps_next; eauto.
      * inversion Hs; subst. exists i, st. split; [constructor | split; [lia |]].
        replace ({| world := _; nodeArrays := _; dsArrays := _; out := _ |})
          with (emitted st1 (successEvents ext result)).
        -- apply Ends_success; [lia | done].
        -- unfold emitted, successEvents. simpl. by rewrite <- !app_assoc.
      * inversion Hs; subst. exists i, st. split; [constructor | split; [lia |]].
        apply Ends_structural; [lia | done].
Qed.

Lemma Run_run st R st' :
  Run_ st = (R, st') ->
  ∃ j s, Steps_ 0 st j s ∧ (j ≤ MaxNumNewNode)%nat ∧ Ends_ MaxNumNewNode j s R st'.
Proof. intros HR. apply search_run in HR. by simpl in HR. Qed.

End SearchFacts.

(** ** What a run prints *)

Section TraceFacts.
Context `{SimonType} `{Platform} `{Collab}.
Variable clusterResource : ResourceTypes Workloads.
Variable selectedResourceList : list (AppResource Workloads).
Variable newNodePtr : option Node.
Variable ext : list string.

Local Notation "'iteration_'" :=
  (iteration clusterResource selectedResourceList newNodePtr ext).
Local Notation "'Steps_'" :=
  (Steps clusterResource selectedResourceList newNodePtr ext).
Local Notation "'Ends_'" :=
  (Ends clusterResource selectedResourceList newNodePtr ext).

Lemma attempts_app (l1 l2 : list Event) : attempts (l1 ++ l2) = attempts l1 ++ attempts l2.
Proof. apply omap_app. Qed.

Lemma attempts_rangeEvents node ds result pods :
  attempts (rangeEvents node ds result ext pods) = [].
Proof.
  induction pods as [| up rest IH]; [done |]. simpl.
  destruct (NodeShouldRunPod node (upPod up)); simpl; [| done].
  destruct (MeetResourceRequests node (upPod up) ds) as [e | []]; simpl; done.
Qed.

(** A pass at count [i] announces the count [i], once. *)
Lemma iteration_attempts i st r st' :
  iteration_ i st = (r, st') -> attempts (out st') = attempts (out st) ++ [i].
Proof.
  intros Hit. apply iteration_Iter in Hit.
  destruct Hit; simpl; rewrite ?attempts_app; simpl;
    rewrite ?attempts_rangeEvents; done.
Qed.

Lemma Steps_attempts i st j st' :
  Steps_ i st j st' -> attempts (out st') = attempts (out st) ++ seq i (j - i).
Proof.
  induction 1 as [i st | i st r st1 j st' Hit Hsteps IH].
  - replace (i - i)%nat with 0%nat by lia. simpl. by rewrite app_nil_r.
  - pose proof (Steps_le _ _ _ _ _ _ _ _ Hsteps) as Hle.
    rewrite IH, (iteration_attempts _ _ _ _ Hit), <- app_assoc. f_equal.
    replace (j - i)%nat with (S (j - S i)) by lia. done.
Qed.

(** The passes are functions of the state: two runs of the loop from the
    same state go through the same states. *)
Lemma Steps_det i st j s j' s' :
  Steps_ i st j s -> Steps_ i st j' s' -> (j ≤ j')%nat -> Steps_ j s j' s'.
Proof.
  induction 1 as [i st | i st r st1 j st2 Hit Hsteps IH]; intros Hb Hle; [done |].
  inversion Hb as [| ? ? r' st1' ? ? Hit' Hsteps']; subst.
  - apply Steps_le in Hsteps. lia.
  - rewrite Hit in Hit'. inversion Hit'; subst. auto.
Qed.

Lemma Steps_same i st j s s' : Steps_ i st j s -> Steps_ i st j s' -> s = s'.
Proof.
  intros Ha Hb. pose proof (Steps_det _ _ _ _ _ _ Ha Hb ltac:(lia)) as Hc.
  inversion Hc as [| ? ? ? ? ? ? _ Hs]; subst; [done |].
  apply Steps_le in Hs. lia.
Qed.

(** The number of counts a run has attempted when it ends. *)
Lemma Ends_attempts max j st R st' :
  Ends_ max j st R st' ->
  attempts (out st') = attempts (out st) ++ (if decide (j = max) then [] else [j]).
Proof.
  destruct 1 as [Hj | e st1 Hj Hit | result st1 Hj Hit | result pod why st1 Hj Hit];
    case_decide; try lia; simpl; rewrite ?attempts_app; simpl;
    rewrite ?app_nil_r; try done;
    by rewrite (iteration_attempts _ _ _ _ Hit).
Qed.

(** A run that has reached count [j] with the ceiling [max] is the run of
    the search from there. *)
Lemma Ends_search max j st R st' :
  Ends_ max j st R st' -> (j ≤ max)%nat ->
  search clusterResource selectedResourceList newNodePtr ext (max - j) j st = (R, st').
Proof.
  destruct 1 as [Hj | e st1 Hj Hit | result st1 Hj Hit | result pod why st1 Hj Hit];
    intros Hle.
  - subst. by replace (max - max)%nat with 0%nat by lia.
  - replace (max - j)%nat with (S (max - S j)) by lia. simpl.
    unfold mbind, M_bind, bind. by rewrite Hit.
  - replace (max - j)%nat with (S (max - S j)) by lia. simpl.
    unfold mbind, M_bind, bind. rewrite Hit. simpl.
    unfold emitted, successEvents. simpl. by rewrite <- !app_assoc.
  - replace (max - j)%nat with (S (max - S j)) by lia. simpl.
    unfold mbind, M_bind, bind. by rewrite Hit.
Qed.

Lemma Steps_search max i st j s R st' :
  Steps_ i st j s -> Ends_ max j s R st' -> (j ≤ max)%nat ->
  search clusterResource selectedResourceList newNodePtr ext (max - i) i st = (R, st').
Proof.
  induction 1 as [i st | i st r st1 j st2 Hit Hsteps IH]; intros Hends Hle.
  - by apply Ends_search.
  - pose proof (Steps_le _ _ _ _ _ _ _ _ Hsteps) as Hij.
    replace (max - i)%nat with (S (max - S i)) by lia. simpl.
    unfold mbind, M_bind, bind. rewrite Hit. auto.
Qed.

End TraceFacts.

Section IterationConverse.
Context `{SimonType} `{Platform} `{Collab}.
Variable clusterResource : ResourceTypes Workloads.
Variable selectedResourceList : list (AppResource Workloads).
Variable newNodePtr : option Node.
Variable ext : list string.

Local Notation "'iteration_'" :=
  (iteration clusterResource selectedResourceList newNodePtr ext).
Local Notation "'Iter_'" :=
  (Iter clusterResource selectedResourceList newNodePtr ext).

Local Arguments rangeUnscheduledPods : simpl never.
Local Arguments firstBlocker : simpl never.
Local Arguments rangeEvents : simpl never.

Lemma iteration_afterOracle i st nodes w1 hn newNodes answer w2 :
  newFakeNodes newNodePtr (Z.of_nat i) (world st) = (inr nodes, w1) ->
  Slice.append growslice (nodeArrays st) (Nodes clusterResource) nodes = (hn, newNodes) ->
  Simulate (viewOf hn (dsArrays st) (withNodes clusterResource newNodes))
           (map (appViewOf hn (dsArrays st)) selectedResourceList) w1 = (answer, w2) ->
  iteration_ i st =
    afterOracle clusterResource selectedResourceList newNodePtr ext i st hn w2
      [ Printf (MsgAddNodes i);
        CallSimulate (viewOf hn (dsArrays st) (withNodes clusterResource newNodes))
                     (map (appViewOf hn (dsArrays st)) selectedResourceList) ]
      answer.
Proof.
  intros Hn Happ Hsim. unfold afterOracle.
  unfold iteration, callSimulate, callSatisfyResourceSetting.
  unfold mbind, M_bind, bind, emit, inWorld, onNodes, onDaemonSets, readDaemonSets,
    extern, liftResult, deref, fail, mret, M_ret, ret. cbn.
  rewrite Hn. cbn. rewrite Happ. cbn.
  unfold withNodes in Hsim. rewrite Hsim. cbn.
  destruct answer as [e | result]; cbn.
  { by rewrite <- !app_assoc. }
  destruct (UnscheduledPods result) as [| up pods] eqn:Hpods; cbn.
  - destruct (satisfyResourceSetting (NodeStatuses result)) as [e | [[] reason]]; cbn;
      by rewrite <- !app_assoc.
  - destruct (collectDaemonSets _ _ _) as [hd allDaemonSets]. cbn.
    destruct newNodePtr as [node |]; cbn.
    + rewrite rangeUnscheduledPods_run. cbn. rewrite <- !app_assoc. cbn.
      by destruct (ctlOf _).
    + by rewrite <- !app_assoc.
Qed.

(** The pass that makes the oracle call [c]. *)
Lemma iteration_oracle i st (c : OracleCall clusterResource selectedResourceList newNodePtr i st) :
  iteration_ i st = afterOracle clusterResource selectedResourceList newNodePtr ext i st (ocArrays c) (ocWorld c) (oracleEvents c) (ocAnswer c).
Proof.
  destruct c as [nodes w1 hn newNodes answer w2 snapshot apps Hn Happ Hsim].
  exact (iteration_afterOracle _ _ _ _ _ _ _ _ Hn Happ Hsim).
Qed.

End IterationConverse.

(** ** The admission ceilings *)

Section Ceilings.
Context `{SimonType} `{Collab}.

Lemma Atoi_empty : Go.Atoi "" = inl ""%string.
Proof. reflexivity. Qed.

Lemma readSetting_effective env s :
  configures (Getenv env) s -> ∃ ceiling, readSetting env = inr ceiling ∧ effective s ceiling.
Proof.
  unfold readSetting. destruct s as [| v]; simpl; intros Hc.
  - rewrite Hc. simpl. by exists 100.
  - destruct (String.eqb_spec (Getenv env) "") as [Hempty | Hset].
    + rewrite Hempty in Hc. discriminate.
    + rewrite Hc. eexists; split; [done |].
      destruct (100 <? v) eqn:Hhi; [| destruct (v <? 0) eqn:Hlo]; simpl; split; intros;
        try done; lia.
Qed.

End Ceilings.

(** C5. Each of the three admission ceilings (CPU, memory, storage) is
    100 when its variable is not configured, 100 when it is configured to
    an integer below 0 or above 100, and the configured integer when that
    lies in [0,100]; each is determined by its own setting alone, and
    these are the ceilings the admission check compares against. *)
Theorem C5_effective_ceilings `{SimonType} `{Collab} (sc sm sv : Setting) :
  configures (Getenv EnvMaxCPU) sc ->
  configures (Getenv EnvMaxMemory) sm ->
  configures (Getenv EnvMaxVG) sv ->
  ∃ maxcpu maxmem maxvg,
    readSettings = inr (maxcpu, maxmem, maxvg) ∧
    effective sc maxcpu ∧ effective sm maxmem ∧ effective sv maxvg ∧
    ∀ (P : Platform) statuses,
      satisfyResourceSetting statuses =
        (totals ← aggregate (allPodsOf statuses) statuses zeroTotals;
         mret (checkOccupancy maxcpu maxmem maxvg totals)).
Proof.
  intros Hc Hm Hv.
  destruct (readSetting_effective _ _ Hc) as (maxcpu & Rc & Ec).
  destruct (readSetting_effective _ _ Hm) as (maxmem & Rm & Em).
  destruct (readSetting_effective _ _ Hv) as (maxvg & Rv & Ev).
  exists maxcpu, maxmem, maxvg.
  assert (HR : readSettings = inr (maxcpu, maxmem, maxvg)).
  { unfold readSettings. rewrite Rc, Rm, Rv. reflexivity. }
  repeat (split; [done |]).
  intros P statuses. unfold satisfyResourceSetting. rewrite HR. reflexivity.
Qed.

(** CPU configured to 80, memory left alone, storage configured to 150. *)
Lemma C5_effective_ceilings_witness :
  ∃ maxcpu maxmem maxvg,
    @readSettings Scenario.consts
       (Scenario.admissionCollab
          (Scenario.setEnv "MaxVG" "150" (Scenario.setEnv "MaxCPU" "80" Scenario.noEnv)))
      = inr (maxcpu, maxmem, maxvg) ∧
    maxcpu = 80 ∧ maxmem = 100 ∧ maxvg = 100.
Proof.
  destruct (@C5_effective_ceilings Scenario.consts
              (Scenario.admissionCollab
                 (Scenario.setEnv "MaxVG" "150" (Scenario.setEnv "MaxCPU" "80" Scenario.noEnv)))
              (Configured 80) Unconfigured (Configured 150)
              eq_refl eq_refl eq_refl)
    as (maxcpu & maxmem & maxvg & HR & Ec & Em & Ev & _).
  exists maxcpu, maxmem, maxvg. simpl in Ec, Em, Ev.
  split; [exact HR |]. split; [apply Ec; lia |]. split; [exact Em | apply Ev; lia].
Defined.

(** ** Validation of the configuration *)

Lemma isEmpty_true (s : string) : isEmpty s = true <-> s = ""%string.
Proof.
  unfold isEmpty. destruct s; simpl; split; intros; done.
Qed.

Lemma isEmpty_false (s : string) : isEmpty s = false <-> s <> ""%string.
Proof.
  unfold isEmpty. destruct s; simpl; split; intros; done.
Qed.

(** C10. Validation accepts a cluster description only when exactly one
    of the two cluster sources (kubeConfig, customCluster) is given: when
    both are set or both are empty [validate] returns the error, and
    [NewApplier] prints it and exits with status 1 instead of returning
    an applier, so no run starts. *)
Theorem C10_exactly_one_cluster_source `{Collab}
    (readConfig : string -> ExtError + Simon) (opts : Options) (simonCR : Simon) :
  readConfig (SimonConfig opts) = inr simonCR ->
  let kube := KubeConfig (SpecCluster simonCR) in
  let custom := CustomCluster (SpecCluster simonCR) in
  ((kube = ""%string ∧ custom = ""%string) ∨ (kube <> ""%string ∧ custom <> ""%string) ->
     validate (applierOf opts simonCR) = Some ErrOnlyOneCluster ∧
     NewApplier readConfig opts = Exit 1 ErrOnlyOneCluster) ∧
  (∀ applier, NewApplier readConfig opts = Applied applier ->
     validate applier = None ∧
     ((kube = ""%string ∧ custom <> ""%string) ∨ (kube <> ""%string ∧ custom = ""%string))).
Proof.
  intros Hread kube custom.
  assert (Hbad : (kube = ""%string ∧ custom = ""%string) ∨ (kube <> ""%string ∧ custom <> ""%string) ->
                 validate (applierOf opts simonCR) = Some ErrOnlyOneCluster).
  { intros Hc. unfold validate. simpl. fold kube custom.
    destruct Hc as [[Hk Hc] | [Hk Hc]].
    - apply isEmpty_true in Hk, Hc. by rewrite Hk, Hc.
    - apply isEmpty_false in Hk, Hc. by rewrite Hk, Hc. }
  split.
  - intros Hc. split; [by apply Hbad |].
    unfold NewApplier. rewrite Hread. by rewrite (Hbad Hc).
  - intros applier. unfold NewApplier. rewrite Hread.
    destruct (validate (applierOf opts simonCR)) as [err |] eqn:Hval; [done |].
    intros Heq. inversion Heq; subst. split; [done |].
    destruct (isEmpty kube) eqn:Hk, (isEmpty custom) eqn:Hc.
    + exfalso. enough (@None error = Some ErrOnlyOneCluster) by done.
      apply Hbad. left. split; by apply isEmpty_true.
    + left. split; [by apply isEmpty_true | by apply isEmpty_false].
    + right. split; [by apply isEmpty_false | by apply isEmpty_true].
    + exfalso. enough (@None error = Some ErrOnlyOneCluster) by done.
      apply Hbad. right. split; by apply isEmpty_false.
Qed.

(** Both sources given: the process exits with status 1. *)
Lemma C10_exactly_one_cluster_source_witness :
  @NewApplier (Scenario.admissionCollab Scenario.noEnv)
     (fun _ => inr Scenario.bothSources) Scenario.someOptions
  = Exit 1 ErrOnlyOneCluster.
Proof.
  refine (proj2 (proj1 (@C10_exactly_one_cluster_source
                          (Scenario.admissionCollab Scenario.noEnv)
                          (fun _ => inr Scenario.bothSources) Scenario.someOptions
                          Scenario.bothSources eq_refl) _)).
  right. simpl. split; discriminate.
Defined.

(** ** Events of a run *)

Section EventFacts.
Context `{SimonType} `{Platform} `{Collab}.
Variable clusterResource : ResourceTypes Workloads.
Variable selectedResourceList : list (AppResource Workloads).
Variable newNodePtr : option Node.
Variable ext : list string.

Local Notation "'iteration_'" :=
  (iteration clusterResource selectedResourceList newNodePtr ext).
Local Notation "'Steps_'" :=
  (Steps clusterResource selectedResourceList newNodePtr ext).
Local Notation "'Ends_'" :=
  (Ends clusterResource selectedResourceList newNodePtr ext).
Local Notation "'Run_'" :=
  (Run clusterResource selectedResourceList newNodePtr ext).

(** A property of the events that every pass and the end of the run
    respect holds of all the events a run adds. *)
Lemma Run_events (Q : Event -> Prop) st R st' :
  (∀ i s r s', iteration_ i s = (r, s') ->
     ∃ events, out s' = out s ++ events ∧ Forall Q events) ->
  Q (Printf (MsgStillFailed MaxNumNewNode)) ->
  (∀ result, Forall Q (successEvents ext result)) ->
  Run_ st = (R, st') ->
  ∃ events, out st' = out st ++ events ∧ Forall Q events.
Proof.
  intros Hiter Hfail Hsucc HR.
  destruct (Run_run _ _ _ _ _ _ _ HR) as (j & s & Hsteps & _ & Hends).
  assert (Hs : ∃ events, out s = out st ++ events ∧ Forall Q events).
  { clear Hends HR. induction Hsteps as [i st | i st r st1 j st2 Hit Hsteps IH].
    - exists []. by rewrite app_nil_r.
    - destruct (Hiter _ _ _ _ Hit) as (e1 & He1 & HQ1).
      destruct IH as (e2 & He2 & HQ2).
      exists (e1 ++ e2). rewrite He2, He1, app_assoc. split; [done |].
      by apply Forall_app. }
  destruct Hs as (e0 & He0 & HQ0).
  destruct Hends as [Hj | e st1 Hj Hit | result st1 Hj Hit | result pod why st1 Hj Hit].
  - exists (e0 ++ [Printf (MsgStillFailed MaxNumNewNode)]). simpl.
    rewrite He0, app_assoc. split; [done |]. apply Forall_app. split; [done |].
    by constructor.
  - destruct (Hiter _ _ _ _ Hit) as (e1 & He1 & HQ1).
    exists (e0 ++ e1). rewrite He1, He0, app_assoc. split; [done |]. by apply Forall_app.
  - destruct (Hiter _ _ _ _ Hit) as (e1 & He1 & HQ1).
    exists (e0 ++ e1 ++ successEvents ext result). simpl.
    rewrite He1, He0, !app_assoc. split; [done |].
    rewrite <- app_assoc. apply Forall_app. split; [done |]. apply Forall_app. by split.
  - destruct (Hiter _ _ _ _ Hit) as (e1 & He1 & HQ1).
    exists (e0 ++ e1). rewrite He1, He0, app_assoc. split; [done |]. by apply Forall_app.
Qed.

Lemma rangeEvents_admission node ds result pods :
  Forall admissionOnFullPlacement (rangeEvents node ds result ext pods).
Proof.
  induction pods as [| up rest IH]; [constructor |]. simpl.
  repeat (constructor; [done |]).
  destruct (NodeShouldRunPod node (upPod up)); simpl.
  - constructor; [done |].
    destruct (MeetResourceRequests node (upPod up) ds) as [e | []]; simpl;
      [constructor | done | repeat (constructor; [done |]); constructor].
  - repeat (constructor; [done |]). constructor.
Qed.

Lemma iteration_admission i s r s' :
  iteration_ i s = (r, s') ->
  ∃ events, out s' = out s ++ events ∧ Forall admissionOnFullPlacement events.
Proof.
  intros Hit. apply iteration_Iter in Hit.
  assert (Hfull : ∀ (c : OracleCall clusterResource selectedResourceList newNodePtr i s) result,
            ocAnswer c = inr result -> UnscheduledPods result = [] ->
            fullyPlaced (NodeStatuses result)).
  { intros c result Hans Hpods.
    exists (ocSnapshot c), (ocApps c). eexists _, (ocWorld c), result.
    split; [| done]. rewrite <- Hans. apply oc_answer. }
  destruct Hit; eexists; (split; [reflexivity |]); simpl;
    repeat (constructor; [by (simpl; eauto) |]); try constructor.
  apply rangeEvents_admission.
Qed.

End EventFacts.

(** ** The admission check *)

(** The occupancy is computed in binary64, and the product of the rounded
    quotient can fall below the integer that the exact ratio reaches: 29
    of 100 gives 28. With a CPU ceiling of 28 the exact occupancy (29)
    exceeds the ceiling, and the check accepts. *)
Lemma C3_counterexample :
  floorPercent 29 100 = 29 ∧
  @occupancyRate amd64 29 100 = 28 ∧
  @occupancyRate arm64 29 100 = 28 ∧
  @satisfyResourceSetting Scenario.consts amd64
     (Scenario.admissionCollab (Scenario.setEnv "MaxCPU" "28" Scenario.noEnv))
     (Scenario.oneNode 100 29)
  = inr (true, NoReason).
Proof. repeat split; vm_compute; reflexivity. Qed.

(** C3 (amended). The admission check is called only with the node
    statuses of an oracle answer that leaves no pod unscheduled. It
    computes each occupancy as [int(float64(requested) /
    float64(allocatable) * 100)] in binary64 arithmetic and rejects on the
    first of CPU, memory and storage, in this order (storage only when its
    capacity is not zero), whose occupancy strictly exceeds its ceiling,
    reporting that occupancy and ceiling. For 900m requested of 1000m
    allocatable the occupancy is 90: a CPU ceiling of 80 rejects with 90
    reported, a ceiling of 95 accepts. *)
Theorem C3_admission_check `{SimonType} `{Platform} `{Collab} :
  (∀ clusterResource selectedResourceList newNodePtr ext st R st',
     Run clusterResource selectedResourceList newNodePtr ext st = (R, st') ->
     ∃ events, out st' = out st ++ events ∧ Forall admissionOnFullPlacement events) ∧
  (∀ maxcpu maxmem maxvg t,
     let cpu := occupancyRate (usedCpu t) (allocCpu t) in
     let mem := occupancyRate (usedMem t) (allocMem t) in
     let vg := occupancyRate (vgRequested t) (vgCapacity t) in
     let verdict := checkOccupancy maxcpu maxmem maxvg t in
     (maxcpu < cpu -> verdict = (false, BeyondSetting KindCpu cpu maxcpu)) ∧
     (cpu <= maxcpu -> maxmem < mem ->
        verdict = (false, BeyondSetting KindMemory mem maxmem)) ∧
     (cpu <= maxcpu -> mem <= maxmem -> vgCapacity t <> 0 -> maxvg < vg ->
        verdict = (false, BeyondSetting KindVG vg maxvg)) ∧
     (cpu <= maxcpu -> mem <= maxmem -> vgCapacity t = 0 ∨ vg <= maxvg ->
        verdict = (true, NoReason))) ∧
  occupancyRate 900 1000 = 90 ∧
  @satisfyResourceSetting Scenario.consts _
     (Scenario.admissionCollab (Scenario.setEnv "MaxCPU" "80" Scenario.noEnv))
     (Scenario.oneNode 1000 900)
  = inr (false, BeyondSetting KindCpu 90 80) ∧
  @satisfyResourceSetting Scenario.consts _
     (Scenario.admissionCollab (Scenario.setEnv "MaxCPU" "95" Scenario.noEnv))
     (Scenario.oneNode 1000 900)
  = inr (true, NoReason).
Proof.
  split; [| split; [| split; [| split]]].
  - intros clusterResource selectedResourceList newNodePtr ext st R st' HR.
    apply (Run_events clusterResource selectedResourceList newNodePtr ext
             admissionOnFullPlacement st R st'); [| done | | done].
    + apply iteration_admission.
    + intros result. unfold successEvents. repeat (constructor; [done |]). constructor.
  - intros maxcpu maxmem maxvg t cpu mem vg verdict.
    subst verdict. unfold checkOccupancy. fold cpu mem vg.
    destruct (Z.ltb_spec maxcpu cpu), (Z.ltb_spec maxmem mem),
      (Z.eqb_spec (vgCapacity t) 0), (Z.ltb_spec maxvg vg); simpl;
      repeat split; intros; try done; try lia.
    all: match goal with Hd : _ ∨ _ |- _ => destruct Hd; [done | lia] end.
  - reflexivity.
  - reflexivity.
  - reflexivity.
Qed.

(** C4. Only storage is guarded by a test of the capacity against zero
    (line 658): with zero capacity the storage kind never rejects. CPU and
    memory are divided without a guard (lines 649-650): a zero allocatable
    total makes the quotient NaN or an infinity, and [int] of it is left to
    the implementation. At one node with no allocatable CPU and a pod
    requesting 1m, the check rejects where the conversion saturates
    (arm64), with the largest [int] as the occupancy, and accepts where it
    yields the smallest [int] (amd64); no fault is raised on either. *)
Theorem C4_zero_allocatable :
  (∀ (P : Platform) maxcpu maxmem maxvg t kind rate setting,
     vgCapacity t = 0 ->
     checkOccupancy maxcpu maxmem maxvg t = (false, BeyondSetting kind rate setting) ->
     kind <> KindVG) ∧
  @satisfyResourceSetting Scenario.consts arm64
     (Scenario.admissionCollab Scenario.noEnv) (Scenario.oneNode 0 1)
  = inr (false, BeyondSetting KindCpu Go.MaxInt64 100) ∧
  @satisfyResourceSetting Scenario.consts amd64
     (Scenario.admissionCollab Scenario.noEnv) (Scenario.oneNode 0 1)
  = inr (true, NoReason).
Proof.
  split; [| split; vm_compute; reflexivity].
  intros P maxcpu maxmem maxvg t kind rate setting Hcap. unfold checkOccupancy.
  rewrite Hcap. simpl.
  destruct (maxcpu <? _); [intros Heq; inversion Heq; done |].
  destruct (maxmem <? _); intros Heq; inversion Heq; done.
Qed.

(** With the smallest [int] for every unrepresentable value, a resource
    kind without allocatable capacity cannot exceed a ceiling. *)
Lemma occupancyRate_zero_amd64 used : @occupancyRate amd64 used 0 = Go.MinInt64.
Proof.
  unfold occupancyRate, Go.float64. simpl binary_normalize at 2.
  destruct (binary_normalize Go.prec Go.emax used 0 false) as [s | s | | s m e] eqn:Hf;
    reflexivity.
Qed.

(** ** Decimal text *)

Lemma digit_val_digit (k : nat) : (k < 10)%nat -> Go.digit_val (Go.digit k) = Some (Z.of_nat k).
Proof.
  intros Hk. do 10 (destruct k as [| k]; [reflexivity |]). lia.
Qed.

Lemma itoa_aux_S (fuel n : nat) (acc : string) :
  Go.itoa_aux (S fuel) n acc =
    if (n <? 10)%nat then String (Go.digit (n mod 10)) acc
    else Go.itoa_aux fuel (n / 10) (String (Go.digit (n mod 10)) acc).
Proof. reflexivity. Qed.

Lemma parse_digits_String (c : ascii) (rest : string) (acc d : Z) :
  Go.digit_val c = Some d ->
  Go.parse_digits (String c rest) acc = Go.parse_digits rest (10 * acc + d).
Proof. intros Hd. cbn [Go.parse_digits]. by rewrite Hd. Qed.

(** Reading the digits that [itoa_aux] has written gives the number back. *)
Lemma parse_itoa_aux (fuel n : nat) (acc : string) :
  (n < fuel)%nat ->
  Go.parse_digits (Go.itoa_aux fuel n acc) 0 = Go.parse_digits acc (Z.of_nat n).
Proof.
  revert n acc. induction fuel as [| fuel IH]; intros n acc Hn; [lia |].
  rewrite itoa_aux_S.
  assert (Hmod : (n mod 10 < 10)%nat) by (apply Nat.mod_upper_bound; lia).
  destruct (Nat.ltb_spec n 10) as [Hlt | Hge].
  - rewrite (parse_digits_String _ _ _ _ (digit_val_digit _ Hmod)).
    rewrite Nat.mod_small by done. f_equal.
  - assert (Hdiv : (n / 10 < n)%nat) by (apply Nat.div_lt; lia).
    rewrite IH by lia.
    rewrite (parse_digits_String _ _ _ _ (digit_val_digit _ Hmod)).
    f_equal. pose proof (Nat.div_mod_eq n 10). lia.
Qed.

Lemma parse_fmt02d (n : nat) : Go.parse_digits (Go.fmt02d n) 0 = Some (Z.of_nat n).
Proof.
  unfold Go.fmt02d, Go.itoa. destruct (n <? 10)%nat.
  - rewrite (parse_digits_String "0" _ 0 0 eq_refl). rewrite parse_itoa_aux by lia. done.
  - rewrite parse_itoa_aux by lia. done.
Qed.

Lemma fmt02d_inj (i j : nat) : Go.fmt02d i = Go.fmt02d j -> i = j.
Proof.
  intros Heq. pose proof (parse_fmt02d i) as Hi. rewrite Heq, parse_fmt02d in Hi.
  inversion Hi. lia.
Qed.

Lemma fmt02d_two_digits (i : nat) : (i < 100)%nat -> String.length (Go.fmt02d i) = 2%nat.
Proof.
  intros Hi. unfold Go.fmt02d, Go.itoa. rewrite itoa_aux_S.
  destruct (Nat.ltb_spec i 10) as [Hlt | Hge]; [reflexivity |].
  destruct i as [| i']; [lia |]. rewrite itoa_aux_S.
  destruct (Nat.ltb_spec (S i' / 10) 10) as [| Hbig]; [reflexivity |].
  exfalso. assert (S i' / 10 < 10)%nat by (apply Nat.Div0.div_lt_upper_bound; lia). lia.
Qed.

Lemma append_inj_l (p a b : string) : p +:+ a = p +:+ b -> a = b.
Proof.
  induction p as [| c p IH]; [done |]. intros Heq. apply IH.
  change (String c (p +:+ a) = String c (p +:+ b)) in Heq. by inversion Heq.
Qed.

(** ** The candidate nodes *)

Section FakeNodes.
Context `{SimonType} `{Collab}.

Lemma makeFakeNodes_S node todo i nodes w :
  makeFakeNodes node (S todo) i nodes w =
    match MakeValidNodeByNode node (hostnameOf i) w with
    | (inl err, w') => (inl (ErrCollab err), w')
    | (inr validNode, w') =>
        makeFakeNodes node todo (S i)
          (nodes ++ [DeepCopy (SetMetaDataLabel validNode LabelNewNode "")]) w'
    end.
Proof. reflexivity. Qed.

Lemma makeFakeNodes_ok node todo i acc w nodes w' :
  makeFakeNodes node todo i acc w = (inr nodes, w') ->
  ∃ new, nodes = acc ++ new ∧ length new = todo ∧ Forall isNewNode new ∧
         (validatorNames -> map NodeName new = map hostnameOf (seq i todo)).
Proof.
  revert i acc w. induction todo as [| todo IH]; intros i acc w Hrun.
  - simpl in Hrun. inversion Hrun; subst. exists []. rewrite app_nil_r.
    repeat split; done.
  - rewrite makeFakeNodes_S in Hrun.
    destruct (MakeValidNodeByNode node (hostnameOf i) w) as [[err | v] w1] eqn:Hv; [done |].
    destruct (IH _ _ _ Hrun) as (new & Hnodes & Hlen & Hmark & Hnames).
    exists (DeepCopy (SetMetaDataLabel v LabelNewNode "") :: new).
    split; [by rewrite Hnodes, <- app_assoc |].
    split; [simpl; lia |]. split.
    + constructor; [| done]. unfold isNewNode, DeepCopy. simpl. apply lookup_insert_eq.
    + intros Hval. simpl. rewrite (Hnames Hval). f_equal. exact (Hval _ _ _ _ _ Hv).
Qed.

Lemma makeFakeNodes_err node todo i acc w e w' :
  makeFakeNodes node todo i acc w = (inl e, w') ->
  ∃ k w0 w1 e', (i ≤ k < i + todo)%nat ∧
    MakeValidNodeByNode node (hostnameOf k) w0 = (inl e', w1) ∧ e = ErrCollab e'.
Proof.
  revert i acc w. induction todo as [| todo IH]; intros i acc w Hrun; [done |].
  rewrite makeFakeNodes_S in Hrun.
  destruct (MakeValidNodeByNode node (hostnameOf i) w) as [[err | v] w1] eqn:Hv.
  - inversion Hrun; subst. exists i, w, w', err. split; [lia | done].
  - destruct (IH _ _ _ Hrun) as (k & w0 & w2 & e' & Hk & Hcall & He).
    exists k, w0, w2, e'. split; [lia | done].
Qed.

Lemma makeFakeNodes_total node todo i acc w :
  (∀ k w0, (i ≤ k < i + todo)%nat ->
           ∃ v w1, MakeValidNodeByNode node (hostnameOf k) w0 = (inr v, w1)) ->
  ∃ nodes w', makeFakeNodes node todo i acc w = (inr nodes, w').
Proof.
  revert i acc w. induction todo as [| todo IH]; intros i acc w Hvalid.
  - by exists acc, w.
  - rewrite makeFakeNodes_S.
    destruct (Hvalid i w ltac:(lia)) as (v & w1 & ->).
    apply IH. intros k w0 Hk. apply Hvalid. lia.
Qed.

Lemma makeFakeNodes_labels node todo i acc1 acc2 w1 w2 nodes1 nodes2 w1' w2' :
  validatorLabels ->
  makeFakeNodes node todo i acc1 w1 = (inr nodes1, w1') ->
  makeFakeNodes node todo i acc2 w2 = (inr nodes2, w2') ->
  map NodeLabels acc1 = map NodeLabels acc2 ->
  map NodeLabels nodes1 = map NodeLabels nodes2.
Proof.
  intros Hlab. revert i acc1 acc2 w1 w2.
  induction todo as [| todo IH]; intros i acc1 acc2 w1 w2 H1 H2 Hacc.
  - simpl in H1, H2. inversion H1; inversion H2; subst. done.
  - rewrite makeFakeNodes_S in H1, H2.
    destruct (MakeValidNodeByNode node (hostnameOf i) w1) as [[? | v1] u1] eqn:Hv1; [done |].
    destruct (MakeValidNodeByNode node (hostnameOf i) w2) as [[? | v2] u2] eqn:Hv2; [done |].
    apply (IH _ _ _ _ _ H1 H2).
    rewrite !map_app, Hacc. simpl. unfold DeepCopy. simpl.
    by rewrite (Hlab _ _ _ _ _ _ _ _ Hv1 Hv2).
Qed.

Lemma hostnameOf_inj i j : hostnameOf i = hostnameOf j -> i = j.
Proof.
  unfold hostnameOf. intros Heq.
  apply append_inj_l in Heq. apply (append_inj_l "-") in Heq. by apply fmt02d_inj.
Qed.

Lemma NoDup_hostnames i n : NoDup (map hostnameOf (seq i n)).
Proof.
  apply NoDup_fmap_2; [| apply NoDup_seq].
  intros a b. apply hostnameOf_inj.
Qed.

End FakeNodes.

(** The expander also fails when the template is there: whenever
    [MakeValidNodeByNode] rejects the node (here a template without a
    name, count 1). And the index has three digits from 100 on. *)
Lemma C6_counterexample :
  @newFakeNodes Scenario.consts (Scenario.admissionCollab Scenario.noEnv)
     (Some (Scenario.mkNode "" 2000 4000)) 1 0%nat
  = (inl (ErrCollab "invalid node"), 0%nat) ∧
  @hostnameOf Scenario.consts 100 = "simulated-node-100"%string.
Proof. split; vm_compute; reflexivity. Qed.

(** C6 (amended). The expander fails with "node is nil" when the template
    is absent, and otherwise fails exactly when [MakeValidNodeByNode]
    fails for one of the host names, with that error. For count 0 and a
    template it returns the empty sequence. When it succeeds for count n
    it returns n nodes, in order, named prefix, "-" and the index 0..n-1
    printed with [%02d] (two digits below 100), pairwise distinct, each
    with the marker label; and two calls with the same template and count
    that succeed give the same names and the same labels. The name and
    label parts need the validator to name the node as told and to label
    it independently of the world. *)
Theorem C6_candidate_nodes `{SimonType} `{Collab} :
  validatorNames -> validatorLabels ->
  (∀ n w, newFakeNodes None n w = (inl ErrNodeIsNil, w)) ∧
  (∀ node w, newFakeNodes (Some node) 0 w = (inr [], w)) ∧
  (∀ node n w e w',
     newFakeNodes (Some node) (Z.of_nat n) w = (inl e, w') ->
     ∃ k w0 w1 e', (k < n)%nat ∧
       MakeValidNodeByNode node (hostnameOf k) w0 = (inl e', w1) ∧ e = ErrCollab e') ∧
  (∀ node n w,
     (∀ k w0, (k < n)%nat -> ∃ v w1, MakeValidNodeByNode node (hostnameOf k) w0 = (inr v, w1)) ->
     ∃ nodes w', newFakeNodes (Some node) (Z.of_nat n) w = (inr nodes, w')) ∧
  (∀ node n w nodes w',
     newFakeNodes (Some node) (Z.of_nat n) w = (inr nodes, w') ->
     length nodes = n ∧
     map NodeName nodes = map hostnameOf (seq 0 n) ∧
     NoDup (map NodeName nodes) ∧
     Forall isNewNode nodes) ∧
  (∀ i, (i < 100)%nat -> String.length (Go.fmt02d i) = 2%nat) ∧
  (∀ template n w1 w2 nodes1 nodes2 w1' w2',
     newFakeNodes template n w1 = (inr nodes1, w1') ->
     newFakeNodes template n w2 = (inr nodes2, w2') ->
     map NodeName nodes1 = map NodeName nodes2 ∧
     map NodeLabels nodes1 = map NodeLabels nodes2).
Proof.
  intros Hnames Hlabels.
  split; [done |]. split; [done |]. split; [| split; [| split; [| split]]].
  - intros node n w e w'. unfold newFakeNodes. rewrite Nat2Z.id. intros Hrun.
    destruct (makeFakeNodes_err _ _ _ _ _ _ _ Hrun) as (k & w0 & w1 & e' & Hk & Hcall & He).
    exists k, w0, w1, e'. split; [lia | done].
  - intros node n w Hvalid. unfold newFakeNodes. rewrite Nat2Z.id.
    apply makeFakeNodes_total. intros k w0 Hk. apply Hvalid. lia.
  - intros node n w nodes w'. unfold newFakeNodes. rewrite Nat2Z.id. intros Hrun.
    destruct (makeFakeNodes_ok _ _ _ _ _ _ _ Hrun) as (new & -> & Hlen & Hmark & Hn).
    simpl. specialize (Hn Hnames). repeat split; try done.
    rewrite Hn. apply NoDup_hostnames.
  - apply fmt02d_two_digits.
  - intros template n w1 w2 nodes1 nodes2 w1' w2' H1 H2.
    destruct template as [node |]; [| done]. unfold newFakeNodes in H1, H2.
    split.
    + destruct (makeFakeNodes_ok _ _ _ _ _ _ _ H1) as (new1 & -> & _ & _ & Hn1).
      destruct (makeFakeNodes_ok _ _ _ _ _ _ _ H2) as (new2 & -> & _ & _ & Hn2).
      simpl. by rewrite (Hn1 Hnames), (Hn2 Hnames).
    + by apply (makeFakeNodes_labels _ _ _ _ _ _ _ _ _ _ _ Hlabels H1 H2).
Qed.

Lemma scenario_validatorNames :
  @validatorNames (Scenario.admissionCollab Scenario.noEnv).
Proof.
  intros node hostname w v w'. simpl. unfold Scenario.makeValid.
  destruct (String.eqb (NodeName node) ""); intros Heq; inversion Heq; reflexivity.
Defined.

Lemma scenario_validatorLabels :
  @validatorLabels (Scenario.admissionCollab Scenario.noEnv).
Proof.
  intros node hostname w1 w2 v1 v2 w1' w2'. simpl. unfold Scenario.makeValid.
  destruct (String.eqb (NodeName node) ""); intros Heq1 Heq2;
    inversion Heq1; inversion Heq2; reflexivity.
Defined.

(** Three candidates from a named template. *)
Lemma C6_candidate_nodes_witness :
  @validatorNames (Scenario.admissionCollab Scenario.noEnv) ∧
  @validatorLabels (Scenario.admissionCollab Scenario.noEnv) ∧
  ∃ nodes,
    @newFakeNodes Scenario.consts (Scenario.admissionCollab Scenario.noEnv)
       (Some (Scenario.mkNode "template" 2000 4000)) (Z.of_nat 3) 0%nat
    = (inr nodes, 3%nat) ∧
    length nodes = 3%nat ∧
    map NodeName nodes = map (@hostnameOf Scenario.consts) (seq 0 3).
Proof.
  split; [exact scenario_validatorNames |].
  split; [exact scenario_validatorLabels |].
  eexists. split; [vm_compute; reflexivity |].
  destruct (proj1 (proj2 (proj2 (proj2 (proj2
             (@C6_candidate_nodes Scenario.consts (Scenario.admissionCollab Scenario.noEnv)
                scenario_validatorNames scenario_validatorLabels)))))
             (Scenario.mkNode "template" 2000 4000) 3%nat 0%nat _ 3%nat eq_refl)
    as (Hlen & Hnames & _).
  split; [exact Hlen | exact Hnames].
Defined.

(** ** The classifier *)

Section ClassifierFacts.
Context `{Collab}.

Lemma firstBlocker_none node ds pods :
  Forall (fun up => classify node ds (upPod up) = inr CapacityLimited) pods ->
  firstBlocker node ds pods = inr None.
Proof.
  induction 1 as [| up rest Hup _ IH]; [done |]. simpl. by rewrite Hup.
Qed.

Lemma firstBlocker_none_inv node ds pods :
  firstBlocker node ds pods = inr None ->
  Forall (fun up => classify node ds (upPod up) = inr CapacityLimited) pods.
Proof.
  induction pods as [| up rest IH]; [constructor |]. simpl.
  destruct (classify node ds (upPod up)) as [e | [| |]] eqn:Hc; simpl; try done.
  intros Hrest. constructor; auto.
Qed.

Lemma firstBlocker_some node ds pods up why :
  firstBlocker node ds pods = inr (Some (up, why)) ->
  up ∈ pods ∧ ∃ c, classify node ds (upPod up) = inr c ∧ structural c = Some why.
Proof.
  induction pods as [| up0 rest IH]; [done |]. simpl.
  destruct (classify node ds (upPod up0)) as [e | c] eqn:Hc; [done |].
  destruct (structural c) as [why0 |] eqn:Hs.
  - intros Heq. inversion Heq; subst. split; [by left | eauto].
  - intros Hrest. destruct (IH Hrest) as [Hin Hcl]. split; [by right | done].
Qed.

(** When every pod gets a verdict and one of them is not capacity-limited,
    the loop stops at a blocker. *)
Lemma firstBlocker_exists node ds pods :
  Forall (fun up => ∃ c, classify node ds (upPod up) = inr c) pods ->
  Exists (fun up => classify node ds (upPod up) = inr Unfixable ∨
                    classify node ds (upPod up) = inr OverheadBlocked) pods ->
  ∃ up why, firstBlocker node ds pods = inr (Some (up, why)).
Proof.
  induction 1 as [| up0 rest [c Hc] _ IH]; intros Hex; [by inversion Hex |].
  simpl. rewrite Hc. destruct c; simpl; eauto.
  apply IH. inversion Hex as [? ? [Hu | Ho] | ]; subst; [congruence | congruence | done].
Qed.

(** The placement constraints are looked at first: a pod that fails them
    is unfixable whatever the overhead check would say, and a pod is
    overhead-blocked only if it passes them. *)
Lemma classify_precedence node ds pod :
  (NodeShouldRunPod node pod = false -> classify node ds pod = inr Unfixable) ∧
  (classify node ds pod = inr OverheadBlocked ->
     NodeShouldRunPod node pod = true ∧ MeetResourceRequests node pod ds = inr false) ∧
  (classify node ds pod = inr CapacityLimited ->
     NodeShouldRunPod node pod = true ∧ MeetResourceRequests node pod ds = inr true).
Proof.
  unfold classify. destruct (NodeShouldRunPod node pod); simpl.
  - destruct (MeetResourceRequests node pod ds) as [e | []]; simpl; repeat split; done.
  - repeat split; done.
Qed.

End ClassifierFacts.

(** ** What a pass does, from what it finds *)

Section PassFacts.
Context `{SimonType} `{Platform} `{Collab}.
Variable clusterResource : ResourceTypes Workloads.
Variable selectedResourceList : list (AppResource Workloads).
Variable newNodePtr : option Node.
Variable ext : list string.

Local Notation "'iteration_'" :=
  (iteration clusterResource selectedResourceList newNodePtr ext).
Local Notation "'OracleCall_'" :=
  (OracleCall clusterResource selectedResourceList newNodePtr).
Local Notation "'capacityLimited_'" :=
  (capacityLimited clusterResource selectedResourceList newNodePtr).
Local Notation "'structurallyBlocked_'" :=
  (structurallyBlocked clusterResource selectedResourceList newNodePtr).
Local Notation "'classified_'" :=
  (classified clusterResource selectedResourceList newNodePtr).

Local Arguments firstBlocker : simpl never.
Local Arguments rangeEvents : simpl never.

Lemma pass_rejected i s (c : OracleCall_ i s) result :
  ocAnswer c = inr result -> admissionRejected result ->
  ∃ s1, iteration_ i s = (inr (CtlNext, result), s1).
Proof.
  intros Hans [Hpods [reason Hs]]. rewrite (iteration_oracle _ _ _ _ _ _ c).
  unfold afterOracle. rewrite Hans, Hpods, Hs. eauto.
Qed.

Lemma pass_passed i s (c : OracleCall_ i s) result :
  ocAnswer c = inr result -> admissionPassed result ->
  ∃ s1, iteration_ i s = (inr (CtlBreak, result), s1).
Proof.
  intros Hans [Hpods [reason Hs]]. rewrite (iteration_oracle _ _ _ _ _ _ c).
  unfold afterOracle. rewrite Hans, Hpods, Hs. eauto.
Qed.

Lemma afterOracle_unscheduled np i s hn w2 events result node :
  UnscheduledPods result <> [] -> np = Some node ->
  ∃ s1, afterOracle clusterResource selectedResourceList np ext i s hn w2 events (inr result) =
    (match ctlOf (firstBlocker node
                    (allDaemonSetsAt clusterResource selectedResourceList s)
                    (UnscheduledPods result)) with
     | inl e => inl e
     | inr ctl => inr (ctl, result)
     end, s1).
Proof.
  intros Hpods ->. unfold afterOracle, allDaemonSetsAt.
  destruct (UnscheduledPods result) as [| up pods]; [done |].
  destruct (collectDaemonSets _ _ _) as [hd allDaemonSets]. eauto.
Qed.

(** With unplaced pods, the pass ends as the first blocker says. *)
Lemma pass_unscheduled i s (c : OracleCall_ i s) result node :
  ocAnswer c = inr result -> UnscheduledPods result <> [] -> newNodePtr = Some node ->
  ∃ s1, iteration_ i s =
    (match ctlOf (firstBlocker node
                    (allDaemonSetsAt clusterResource selectedResourceList s)
                    (UnscheduledPods result)) with
     | inl e => inl e
     | inr ctl => inr (ctl, result)
     end, s1).
Proof.
  intros Hans Hpods Hptr. rewrite (iteration_oracle _ _ _ _ _ _ c), Hans.
  by apply afterOracle_unscheduled.
Qed.

Lemma pass_capacity i s (c : OracleCall_ i s) result :
  ocAnswer c = inr result -> UnscheduledPods result <> [] ->
  Forall (capacityLimited_ s) (UnscheduledPods result) ->
  ∃ s1, iteration_ i s = (inr (CtlNext, result), s1).
Proof.
  intros Hans Hpods Hall.
  assert (Hptr : ∃ node, newNodePtr = Some node).
  { destruct (UnscheduledPods result) as [| up pods]; [done |].
    inversion Hall as [| ? ? Hup _]; subst.
    unfold capacityLimited, verdictAt in Hup. destruct newNodePtr; [eauto | done]. }
  destruct Hptr as [node Hptr].
  destruct (pass_unscheduled i s c result node Hans Hpods Hptr) as [s1 Hit].
  exists s1. rewrite Hit, firstBlocker_none; [done |].
  eapply Forall_impl; [exact Hall |]. intros up Hup.
  unfold capacityLimited, verdictAt in Hup. by rewrite Hptr in Hup.
Qed.

Lemma pass_blocked i s (c : OracleCall_ i s) result :
  ocAnswer c = inr result -> UnscheduledPods result <> [] ->
  Forall (classified_ s) (UnscheduledPods result) ->
  Exists (structurallyBlocked_ s) (UnscheduledPods result) ->
  ∃ up why s1, iteration_ i s = (inr (CtlReturnNil up why, result), s1).
Proof.
  intros Hans Hpods Hall Hex.
  assert (Hptr : ∃ node, newNodePtr = Some node).
  { destruct (UnscheduledPods result) as [| up pods]; [done |].
    inversion Hall as [| ? ? [cl Hcl] _]; subst.
    unfold verdictAt in Hcl. destruct newNodePtr; [eauto | done]. }
  destruct Hptr as [node Hptr].
  destruct (pass_unscheduled i s c result node Hans Hpods Hptr) as [s1 Hit].
  destruct (firstBlocker_exists node
              (allDaemonSetsAt clusterResource selectedResourceList s)
              (UnscheduledPods result)) as (up & why & Hfb).
  - eapply Forall_impl; [exact Hall |]. intros up [cl Hup].
    unfold verdictAt in Hup. rewrite Hptr in Hup. eauto.
  - eapply Exists_impl; [exact Hex |]. intros up Hup.
    unfold structurallyBlocked, verdictAt in Hup. by rewrite Hptr in Hup.
  - exists up, why, s1. by rewrite Hit, Hfb.
Qed.

End PassFacts.

Section PassInversion.
Context `{SimonType} `{Platform} `{Collab}.
Variable clusterResource : ResourceTypes Workloads.
Variable selectedResourceList : list (AppResource Workloads).
Variable newNodePtr : option Node.
Variable ext : list string.

Local Notation "'iteration_'" :=
  (iteration clusterResource selectedResourceList newNodePtr ext).
Local Notation "'OracleCall_'" :=
  (OracleCall clusterResource selectedResourceList newNodePtr).
Local Notation "'capacityLimited_'" :=
  (capacityLimited clusterResource selectedResourceList newNodePtr).
Local Notation "'structurallyBlocked_'" :=
  (structurallyBlocked clusterResource selectedResourceList newNodePtr).

Local Arguments firstBlocker : simpl never.
Local Arguments rangeEvents : simpl never.

(** What a pass that returned a result has found. *)
Lemma pass_inv i s ctl result s1 :
  iteration_ i s = (inr (ctl, result), s1) ->
  ∃ c : OracleCall_ i s, ocAnswer c = inr result ∧
    match ctl with
    | CtlNext =>
        admissionRejected result ∨
        (UnscheduledPods result <> [] ∧ Forall (capacityLimited_ s) (UnscheduledPods result))
    | CtlBreak => admissionPassed result
    | CtlReturnNil up why =>
        UnscheduledPods result <> [] ∧ up ∈ UnscheduledPods result ∧
        ∃ cl, verdictAt clusterResource selectedResourceList newNodePtr s up = inr cl ∧
              structural cl = Some why
    end.
Proof.
  intros Hit. apply iteration_Iter in Hit.
  remember (inr (ctl, result)) as r eqn:Hr.
  destruct Hit as [ | | | c res reason Hans Hpods Hs | c res reason Hans Hpods Hs
                   | c res node hd allDaemonSets ds pods Hans Hpods Hptr Hcol ];
    try discriminate.
  - inversion Hr; subst. exists c. split; [done |]. left. split; eauto.
  - inversion Hr; subst. exists c. split; [done |]. split; eauto.
  - assert (Hds : allDaemonSetsAt clusterResource selectedResourceList s = ds).
    { unfold allDaemonSetsAt. by rewrite Hcol. }
    assert (Hv : ∀ up, verdictAt clusterResource selectedResourceList newNodePtr s up
                       = classify node ds (upPod up)).
    { intros up. unfold verdictAt. by rewrite Hptr, Hds. }
    clear Hptr Hds Hcol.
    destruct (firstBlocker node ds pods) as [e | [[up why] |]] eqn:Hfb;
      simpl in Hr; inversion Hr; subst.
    + exists c. split; [done |]. split; [done |].
      destruct (firstBlocker_some _ _ _ _ _ Hfb) as [Hin (cl & Hcl & Hwhy)].
      split; [done |]. exists cl. by rewrite Hv.
    + exists c. split; [done |]. right. split; [done |].
      apply firstBlocker_none_inv in Hfb.
      eapply Forall_impl; [exact Hfb |]. intros up Hup.
      unfold capacityLimited. by rewrite Hv.
Qed.

End PassInversion.

(** ** The order of the counts *)

Section Order.
Context `{SimonType} `{Platform} `{Collab}.
Variable clusterResource : ResourceTypes Workloads.
Variable selectedResourceList : list (AppResource Workloads).
Variable newNodePtr : option Node.
Variable ext : list string.

Local Notation "'iteration_'" :=
  (iteration clusterResource selectedResourceList newNodePtr ext).
Local Notation "'Steps_'" :=
  (Steps clusterResource selectedResourceList newNodePtr ext).
Local Notation "'Ends_'" :=
  (Ends clusterResource selectedResourceList newNodePtr ext).

Lemma Ends_blocks_next max j s R st' r s1 :
  Ends_ max j s R st' -> iteration_ j s = (inr (CtlNext, r), s1) -> j = max.
Proof.
  destruct 1 as [Hj | e st1 Hj Hit | result st1 Hj Hit | result pod why st1 Hj Hit];
    intros Hnext; [done | | |]; rewrite Hit in Hnext; discriminate.
Qed.

(** A pass that ends in [i++] below the ceiling is not the last one. *)
Lemma run_passes_next max st j s R st' i si r s1 :
  Steps_ 0 st j s -> Ends_ max j s R st' ->
  Steps_ 0 st i si -> iteration_ i si = (inr (CtlNext, r), s1) -> (i < max)%nat ->
  (i < j)%nat.
Proof.
  intros Hj Hends Hi Hnext Hlt.
  destruct (Nat.lt_ge_cases i j) as [| Hle]; [done | exfalso].
  pose proof (Steps_det _ _ _ _ _ _ _ _ _ _ Hj Hi Hle) as Hji.
  inversion Hji as [| ? ? r' s' ? ? Hit Hrest]; subst.
  - pose proof (Ends_blocks_next _ _ _ _ _ _ _ Hends Hnext). lia.
  - pose proof (Ends_blocks_next _ _ _ _ _ _ _ Hends Hit).
    apply Steps_le in Hrest. lia.
Qed.

(** The counts a run has attempted when it ends: 0, 1, ... up to the one
    it ends at, or all below the ceiling. *)
Lemma run_attempts max st j s R st' :
  Steps_ 0 st j s -> Ends_ max j s R st' ->
  attempts (out st') =
    attempts (out st) ++ seq 0 (if decide (j = max) then j else S j).
Proof.
  intros Hsteps Hends.
  rewrite (Ends_attempts _ _ _ _ _ _ _ _ _ Hends), (Steps_attempts _ _ _ _ _ _ _ _ Hsteps).
  rewrite <- app_assoc. f_equal. rewrite Nat.sub_0_r.
  case_decide; [by rewrite app_nil_r | by rewrite seq_S].
Qed.

End Order.

(** C2. The run attempts the counts 0, 1, 2, ... in this order and none
    at or above the ceiling. When the pass at count i fails
    non-structurally (every pod placed and admission refused, or every
    unplaced pod capacity-limited), count i+1 is attempted if it is below
    the ceiling, and otherwise the run ends as [Exhausted]. The run ends
    in [Success] at count i exactly when i is the first count whose pass
    places every pod and passes admission, all passes before it having
    ended in a next count. *)
Theorem C2_counts_in_order `{SimonType} `{Platform} `{Collab}
    clusterResource selectedResourceList newNodePtr ext st R st' :
  Run clusterResource selectedResourceList newNodePtr ext st = (R, st') ->
  ∃ k,
    (k ≤ MaxNumNewNode)%nat ∧
    attempts (out st') = attempts (out st) ++ seq 0 k ∧
    (∀ i s (c : OracleCall clusterResource selectedResourceList newNodePtr i s) result,
       Steps clusterResource selectedResourceList newNodePtr ext 0 st i s ->
       (i < MaxNumNewNode)%nat ->
       ocAnswer c = inr result ->
       admissionRejected result ∨
       (UnscheduledPods result <> [] ∧
        Forall (capacityLimited clusterResource selectedResourceList newNodePtr s)
               (UnscheduledPods result)) ->
       ((S i < MaxNumNewNode)%nat -> (S i < k)%nat) ∧
       (S i = MaxNumNewNode -> R = inr Exhausted)) ∧
    (∀ i result,
       R = inr (Success i result) <->
       ∃ s (c : OracleCall clusterResource selectedResourceList newNodePtr i s),
         Steps clusterResource selectedResourceList newNodePtr ext 0 st i s ∧
         (i < MaxNumNewNode)%nat ∧ ocAnswer c = inr result ∧ admissionPassed result).
Proof.
  intros HR.
  destruct (Run_run _ _ _ _ _ _ _ HR) as (j & sj & Hsteps & Hle & Hends).
  exists (if decide (j = MaxNumNewNode) then j else S j).
  split; [case_decide; lia |].
  split; [by apply (run_attempts _ _ _ _ _ _ _ _ _ _ Hsteps Hends) |].
  split.
  - intros i s c result Hi Hlt Hans Hfail.
    assert (Hnext : ∃ s1, iteration clusterResource selectedResourceList newNodePtr ext i s
                          = (inr (CtlNext, result), s1)).
    { destruct Hfail as [Hrej | [Hpods Hcap]].
      - by apply (pass_rejected _ _ _ _ _ _ c).
      - by apply (pass_capacity _ _ _ _ _ _ c). }
    destruct Hnext as [s1 Hnext].
    pose proof (run_passes_next _ _ _ _ _ _ _ _ _ _ _ _ _ _ Hsteps Hends Hi Hnext Hlt) as Hij.
    split.
    + intros HS. case_decide; lia.
    + intros HS. assert (j = MaxNumNewNode) as -> by lia.
      destruct Hends; [done | lia | lia | lia].
  - intros i result. split.
    + intros ->.
      inversion Hends as [| | res st1 Hj Hit |]; subst.
      destruct (pass_inv _ _ _ _ _ _ _ _ _ Hit) as (c & Hans & Hpass).
      exists sj, c. done.
    + intros (s & c & Hi & Hlt & Hans & Hpass).
      destruct (pass_passed _ _ _ ext _ _ c _ Hans Hpass) as [s1 Hit].
      pose proof (Ends_success clusterResource selectedResourceList newNodePtr ext
                    MaxNumNewNode i s result s1 Hlt Hit) as Hends'.
      pose proof (Steps_search _ _ _ _ _ _ _ _ _ _ _ Hi Hends' ltac:(lia)) as Hrun.
      rewrite Nat.sub_0_r in Hrun. unfold Run in HR. rewrite HR in Hrun.
      by inversion Hrun.
Qed.

(** With the ceiling 5 and a pod that never fits, the counts 0 to 4 are
    attempted and no other. *)
Lemma C2_counts_in_order_witness :
  ∃ k, (k ≤ 5)%nat ∧
    attempts (out (@Run Scenario.consts amd64 Scenario.neverFits Scenario.cluster1 []
                     Scenario.template [] (Scenario.start Scenario.neverFits 0%nat)).2)
    = seq 0 k.
Proof.
  destruct (@C2_counts_in_order Scenario.consts amd64 Scenario.neverFits
              Scenario.cluster1 [] Scenario.template []
              (Scenario.start Scenario.neverFits 0%nat) _ _ (surjective_pairing _))
    as (k & Hk & Hattempts & _).
  exists k. split; [exact Hk | exact Hattempts].
Defined.

(** ** The order of the two checks *)

Section CheckOrder.
Context `{SimonType} `{Platform} `{Collab}.
Variable clusterResource : ResourceTypes Workloads.
Variable selectedResourceList : list (AppResource Workloads).
Variable newNodePtr : option Node.
Variable ext : list string.

Lemma overheadAfterPlacement_none (events : list Event) :
  Forall (fun ev => isOverheadCall ev = false) events -> overheadAfterPlacement events.
Proof.
  intros Hall k node pod ds Hk.
  rewrite Forall_lookup in Hall. specialize (Hall _ _ Hk). done.
Qed.

Lemma overheadAfterPlacement_app (pre events : list Event) :
  Forall (fun ev => isOverheadCall ev = false) pre ->
  overheadAfterPlacement events ->
  overheadAfterPlacement (pre ++ events).
Proof.
  intros Hpre Hev k node pod ds Hk.
  destruct (Nat.lt_ge_cases k (length pre)) as [Hlt | Hge].
  - rewrite lookup_app_l in Hk by done.
    rewrite Forall_lookup in Hpre. specialize (Hpre _ _ Hk). done.
  - rewrite lookup_app_r in Hk by done.
    destruct (Hev _ _ _ _ Hk) as (k' & Hk' & Hshould & Hpass).
    exists (length pre + k')%nat. split; [lia |]. split; [| done].
    rewrite lookup_app_r by lia. by replace (length pre + k' - length pre)%nat with k' by lia.
Qed.

Lemma abortEvents_no_overhead up why result :
  Forall (fun ev => isOverheadCall ev = false) (abortEvents up why result ext).
Proof. unfold abortEvents. repeat (constructor; [done |]). constructor. Qed.

Lemma rangeEvents_ordered node ds result pods :
  overheadAfterPlacement (rangeEvents node ds result ext pods).
Proof.
  induction pods as [| up rest IH].
  - intros k ? ? ? Hk. done.
  - simpl. destruct (NodeShouldRunPod node (upPod up)) eqn:Hshould; simpl.
    + assert (Htail : overheadAfterPlacement
                (match MeetResourceRequests node (upPod up) ds with
                 | inl _ => []
                 | inr m => if negb m then abortEvents up DaemonSetsTooLarge result ext
                            else rangeEvents node ds result ext rest
                 end)).
      { destruct (MeetResourceRequests node (upPod up) ds) as [e | []]; simpl.
        - by apply overheadAfterPlacement_none.
        - done.
        - apply overheadAfterPlacement_none, abortEvents_no_overhead. }
      intros k node' pod' ds' Hk.
      destruct k as [| [| [| k3]]]; simpl in Hk; try done.
      * inversion Hk; subst. exists 1%nat. done.
      * destruct (Htail _ _ _ _ Hk) as (k' & -> & Hcall & Hpass).
        exists (3 + k')%nat. done.
    + apply overheadAfterPlacement_none.
      constructor; [done |]. constructor; [done |]. apply abortEvents_no_overhead.
Qed.

(** In every pass the overhead check of a pod is reached only through
    its placement-constraint check. *)
Lemma iteration_ordered i s r s1 :
  iteration clusterResource selectedResourceList newNodePtr ext i s = (r, s1) ->
  ∃ events, out s1 = out s ++ events ∧ overheadAfterPlacement events.
Proof.
  intros Hit. apply iteration_Iter in Hit.
  destruct Hit; eexists; (split; [reflexivity |]);
    try (apply overheadAfterPlacement_none; simpl;
         repeat (constructor; [done |]); constructor).
  apply (overheadAfterPlacement_app
           [Printf (MsgAddNodes i); CallSimulate (ocSnapshot c) (ocApps c);
            Printf (MsgUnscheduled (length pods))]).
  - repeat (constructor; [done |]). constructor.
  - apply rangeEvents_ordered.
Qed.

End CheckOrder.

(** ** The structural abort *)

Lemma OracleCall_answer_unique `{SimonType} `{Platform} `{Collab}
    clusterResource selectedResourceList newNodePtr i s
    (c c' : OracleCall clusterResource selectedResourceList newNodePtr i s) :
  ocAnswer c = ocAnswer c'.
Proof.
  destruct c as [nodes w1 hn newNodes answer w2 snapshot apps Hn Happ Hsim].
  destruct c' as [nodes' w1' hn' newNodes' answer' w2' snapshot' apps' Hn' Happ' Hsim'].
  simpl. subst snapshot apps snapshot' apps'.
  rewrite Hn in Hn'. inversion Hn'; subst.
  rewrite Happ in Happ'. inversion Happ'; subst.
  rewrite Hsim in Hsim'. by inversion Hsim'.
Qed.


(** The call of the oracle that a pass makes once the candidate nodes are
    there. *)
Lemma oracleCall_of `{SimonType} `{Platform} `{Collab}
    clusterResource selectedResourceList newNodePtr i s nodes w1 :
  newFakeNodes newNodePtr (Z.of_nat i) (world s) = (inr nodes, w1) ->
  OracleCall clusterResource selectedResourceList newNodePtr i s.
Proof.
  intros Hn.
  refine {| ocNodes := nodes; ocWorld1 := w1;
            ocArrays := (Slice.append growslice (nodeArrays s)
                           (Nodes clusterResource) nodes).1;
            ocNewNodes := (Slice.append growslice (nodeArrays s)
                             (Nodes clusterResource) nodes).2;
            ocAnswer := (Simulate _ _ w1).1;
            ocWorld := (Simulate _ _ w1).2;
            oc_nodes := Hn;
            oc_append := surjective_pairing _;
            oc_answer := surjective_pairing _ |}.
Defined.


(** ** Reports *)

Section Reports.
Context `{SimonType} `{Platform} `{Collab}.
Variable clusterResource : ResourceTypes Workloads.
Variable selectedResourceList : list (AppResource Workloads).
Variable newNodePtr : option Node.
Variable ext : list string.

Local Notation "'iteration_'" :=
  (iteration clusterResource selectedResourceList newNodePtr ext).
Local Notation "'Steps_'" :=
  (Steps clusterResource selectedResourceList newNodePtr ext).

Lemma rangeEvents_no_report node ds result pods :
  firstBlocker node ds pods = inr None ->
  Forall (fun ev => isReport ev = false) (rangeEvents node ds result ext pods).
Proof.
  induction pods as [| up rest IH]; [constructor |]. simpl. unfold classify.
  destruct (NodeShouldRunPod node (upPod up)); simpl; [| done].
  destruct (MeetResourceRequests node (upPod up) ds) as [e | []]; simpl; try done.
  intros Hrest. repeat (constructor; [done |]). auto.
Qed.

Lemma rangeEvents_abort node ds result pods up why :
  firstBlocker node ds pods = inr (Some (up, why)) ->
  ∃ pre, rangeEvents node ds result ext pods = pre ++ abortEvents up why result ext.
Proof.
  induction pods as [| up0 rest IH]; [done |]. simpl. unfold classify.
  destruct (NodeShouldRunPod node (upPod up0)); simpl.
  - destruct (MeetResourceRequests node (upPod up0) ds) as [e | []]; simpl; try done.
    + intros Hrest. destruct (IH Hrest) as [pre ->].
      by exists (Debugf up0 :: CallNodeShouldRunPod node (upPod up0) ::
                 CallMeetResourceRequests node (upPod up0) ds :: pre).
    + intros Heq. inversion Heq; subst.
      by exists [Debugf up; CallNodeShouldRunPod node (upPod up);
                 CallMeetResourceRequests node (upPod up) ds].
  - intros Heq. inversion Heq; subst.
    by exists [Debugf up; CallNodeShouldRunPod node (upPod up)].
Qed.

(** A pass that ends in a next count prints no report; a pass that ends
    the run on a blocker ends with the message and the report. *)
Lemma iteration_reports i s ctl result s1 :
  iteration_ i s = (inr (ctl, result), s1) ->
  ∃ events, out s1 = out s ++ events ∧
    match ctl with
    | CtlNext | CtlBreak => Forall (fun ev => isReport ev = false) events
    | CtlReturnNil up why => ∃ pre, events = pre ++ abortEvents up why result ext
    end.
Proof.
  intros Hit. apply iteration_Iter in Hit.
  remember (inr (ctl, result)) as r eqn:Hr.
  destruct Hit as [ | | | c res reason Hans Hpods Hs | c res reason Hans Hpods Hs
                   | c res node hd allDaemonSets ds pods Hans Hpods Hptr Hcol ];
    try discriminate.
  - inversion Hr; subst. eexists. split; [reflexivity |].
    simpl. repeat (constructor; [done |]). constructor.
  - inversion Hr; subst. eexists. split; [reflexivity |].
    simpl. repeat (constructor; [done |]). constructor.
  - eexists. split; [reflexivity |].
    destruct (firstBlocker node ds pods) as [e | [[up why] |]] eqn:Hfb;
      simpl in Hr; inversion Hr; subst.
    + destruct (rangeEvents_abort _ _ result _ _ _ Hfb) as [pre Hpre].
      exists (oracleEvents c ++ Printf (MsgUnscheduled (length (UnscheduledPods result))) :: pre).
      fold pods. rewrite Hpre, <- app_assoc. done.
    + simpl. repeat (constructor; [done |]). by apply rangeEvents_no_report.
Qed.

Lemma Steps_no_report i st j s :
  Steps_ i st j s ->
  ∃ events, out s = out st ++ events ∧ Forall (fun ev => isReport ev = false) events.
Proof.
  induction 1 as [i st | i st r st1 j st2 Hit Hsteps IH].
  - exists []. by rewrite app_nil_r.
  - destruct (iteration_reports _ _ _ _ _ Hit) as (e1 & He1 & Hn1).
    destruct IH as (e2 & He2 & Hn2).
    exists (e1 ++ e2). rewrite He2, He1, app_assoc. split; [done |]. by apply Forall_app.
Qed.

End Reports.




(** ** Cancellation *)

(** A cancellation pending at the boundary before count 1 ends the loop of
    the specification as [Cancelled] after one attempt; the run of the
    source has nothing that observes it, attempts every count below the
    ceiling and ends as [Exhausted]. *)
Lemma C9_counterexample :
  let st := Scenario.start Scenario.neverFits 0%nat in
  let spec := @RunCancellable Scenario.consts amd64 Scenario.neverFits Scenario.cluster1 []
                Scenario.template [] (fun i => (i =? 1)%nat) st in
  let run := @Run Scenario.consts amd64 Scenario.neverFits Scenario.cluster1 []
               Scenario.template [] st in
  spec.1 = inr Cancelled ∧ attempts (out spec.2) = [0%nat] ∧
  run.1 = inr Exhausted ∧ attempts (out run.2) = [0; 1; 2; 3; 4]%nat.
Proof. repeat split; vm_compute; reflexivity. Qed.

Lemma searchCancellable_never `{SimonType} `{Platform} `{Collab}
    clusterResource selectedResourceList newNodePtr ext todo i st :
  searchCancellable clusterResource selectedResourceList newNodePtr ext
    (fun _ => false) todo i st
  = finished (search clusterResource selectedResourceList newNodePtr ext todo i st).
Proof.
  revert i st. induction todo as [| todo IH]; intros i st; [reflexivity |].
  simpl. unfold mbind, M_bind, bind.
  destruct (iteration _ _ _ _ i st) as [[e | [ctl result]] s1]; [reflexivity |].
  destruct ctl; [apply IH | reflexivity | reflexivity].
Qed.

(** C9 (amended). The search loop has no cancellation: it looks for
    nothing at the boundaries between passes and has no [Cancelled] state.
    It is the cancellable loop of the specification in which no
    cancellation is ever pending, and it ends only in [Success],
    [StructurallyFailed], [Exhausted], or with a fatal error. *)
Theorem C9_no_cancellation `{SimonType} `{Platform} `{Collab}
    clusterResource selectedResourceList newNodePtr ext st :
  RunCancellable clusterResource selectedResourceList newNodePtr ext (fun _ => false) st
  = finished (Run clusterResource selectedResourceList newNodePtr ext st) ∧
  (RunCancellable clusterResource selectedResourceList newNodePtr ext (fun _ => false) st).1
  <> inr Cancelled.
Proof.
  unfold RunCancellable, Run. rewrite searchCancellable_never. split; [done |].
  unfold finished. simpl. by destruct (search _ _ _ _ _ _ _).1.
Qed.

(** ** The original snapshot is left as it was *)

Section FrameFacts.
Context `{SimonType} `{Platform} `{Collab}.
Variable clusterResource : ResourceTypes Workloads.
Variable selectedResourceList : list (AppResource Workloads).
Variable newNodePtr : option Node.
Variable ext : list string.

Local Notation "'iteration_'" :=
  (iteration clusterResource selectedResourceList newNodePtr ext).
Local Notation "'Steps_'" :=
  (Steps clusterResource selectedResourceList newNodePtr ext).
Local Notation "'Ends_'" :=
  (Ends clusterResource selectedResourceList newNodePtr ext).
Local Notation "'Framed_'" := (Framed clusterResource).

Lemma Framed_refl st : Framed_ st st.
Proof. split; intros s0 Hwf _; done. Qed.

Lemma Framed_trans a b c : Framed_ a b -> Framed_ b c -> Framed_ a c.
Proof.
  intros [Hn1 Hd1] [Hn2 Hd2]. split; intros s0 Hwf Hap.
  - destruct (Hn1 _ Hwf Hap) as [Hv1 Hw1]. destruct (Hn2 _ Hw1 Hap) as [Hv2 Hw2].
    split; [congruence | done].
  - destruct (Hd1 _ Hwf Hap) as [Hv1 Hw1]. destruct (Hd2 _ Hw1 Hap) as [Hv2 Hw2].
    split; [congruence | done].
Qed.

Lemma Framed_same a b :
  nodeArrays b = nodeArrays a -> dsArrays b = dsArrays a -> Framed_ a b.
Proof. intros Hn Hd. split; intros s0 Hwf _; rewrite ?Hn, ?Hd; done. Qed.

Lemma Framed_nodes a b i
    (c : OracleCall clusterResource selectedResourceList newNodePtr i a) :
  nodeArrays b = ocArrays c -> dsArrays b = dsArrays a -> Framed_ a b.
Proof.
  intros Hn Hd. split; intros s0 Hwf Hap; rewrite ?Hn, ?Hd; [| done].
  destruct (append_frame _ _ _ _ _ _ _ (oc_append _ _ _ _ _ c) Hwf Hap) as (Hv & Hw & _).
  done.
Qed.

(** A pass writes only behind the elements of the cluster's slices. *)
Lemma iteration_frame i s r s1 : iteration_ i s = (r, s1) -> Framed_ s s1.
Proof.
  intros Hit. apply iteration_Iter in Hit.
  destruct Hit as [ | c | c | c | c | c res node hd allDaemonSets ds pods Hans Hpods Hptr Hcol ];
    try (by apply Framed_same); try (by apply (Framed_nodes _ _ _ c)).
  split; intros s0 Hwf Hap; simpl.
  - destruct (append_frame _ _ _ _ _ _ _ (oc_append _ _ _ _ _ c) Hwf Hap) as (Hv & Hw & _).
    done.
  - apply (collectDaemonSets_frame _ _ _ _ _ _ Hcol Hwf Hap).
Qed.

Lemma Steps_frame i st j s : Steps_ i st j s -> Framed_ st s.
Proof.
  induction 1 as [i st | i st r st1 j st2 Hit Hsteps IH]; [apply Framed_refl |].
  eapply Framed_trans; [exact (iteration_frame _ _ _ _ Hit) | exact IH].
Qed.

Lemma Ends_frame max j s R st' : Ends_ max j s R st' -> Framed_ s st'.
Proof.
  destruct 1 as [Hj | e st1 Hj Hit | result st1 Hj Hit | result pod why st1 Hj Hit].
  - by apply Framed_same.
  - exact (iteration_frame _ _ _ _ Hit).
  - eapply Framed_trans; [exact (iteration_frame _ _ _ _ Hit) | by apply Framed_same].
  - exact (iteration_frame _ _ _ _ Hit).
Qed.

(** What the cluster and the applications denote is the same in two
    states that are framed. *)
Lemma Framed_views st0 st :
  wellFormedInputs clusterResource selectedResourceList st0 -> Framed_ st0 st ->
  viewOf (nodeArrays st) (dsArrays st) clusterResource
    = viewOf (nodeArrays st0) (dsArrays st0) clusterResource ∧
  map (appViewOf (nodeArrays st) (dsArrays st)) selectedResourceList
    = map (appViewOf (nodeArrays st0) (dsArrays st0)) selectedResourceList ∧
  wellFormedInputs clusterResource selectedResourceList st.
Proof.
  intros (Hwn & Hwd & Happs) [Hn Hd].
  destruct (Hn _ Hwn (apart_refl _)) as [Hvn Hwn'].
  destruct (Hd _ Hwd (apart_refl _)) as [Hvd Hwd'].
  split; [unfold viewOf; by rewrite Hvn, Hvd |].
  assert (Hall : Forall (fun app =>
            appViewOf (nodeArrays st) (dsArrays st) app
              = appViewOf (nodeArrays st0) (dsArrays st0) app ∧
            (Slice.wf (nodeArrays st) (Nodes (Resource app)) ∧
             Slice.apart (Nodes (Resource app)) (Nodes clusterResource) ∧
             Slice.wf (dsArrays st) (DaemonSets (Resource app)) ∧
             Slice.apart (DaemonSets (Resource app)) (DaemonSets clusterResource)))
          selectedResourceList).
  { eapply Forall_impl; [exact Happs |]. intros app (Hw1 & Ha1 & Hw2 & Ha2).
    destruct (Hn _ Hw1 Ha1) as [Hv1 Hw1']. destruct (Hd _ Hw2 Ha2) as [Hv2 Hw2'].
    split; [| done]. unfold appViewOf, viewOf. by rewrite Hv1, Hv2. }
  split.
  - clear -Hall. induction Hall as [| app rest [Hv _] _ IH]; [done |].
    simpl. by rewrite Hv, IH.
  - split; [done |]. split; [done |].
    eapply Forall_impl; [exact Hall |]. intros app [_ Hw]. exact Hw.
Qed.

(** The snapshot of a pass: the nodes of the cluster followed by the
    candidates, the daemon sets and workloads of the cluster, and the
    applications. *)
Lemma OracleCall_snapshot i s
    (c : OracleCall clusterResource selectedResourceList newNodePtr i s) :
  wellFormedInputs clusterResource selectedResourceList s ->
  vNodes (ocSnapshot c) = Slice.view (nodeArrays s) (Nodes clusterResource) ++ ocNodes c ∧
  vDaemonSets (ocSnapshot c) = Slice.view (dsArrays s) (DaemonSets clusterResource) ∧
  vWorkloads (ocSnapshot c) = Others clusterResource ∧
  ocApps c = map (appViewOf (nodeArrays s) (dsArrays s)) selectedResourceList ∧
  length (ocNodes c) = i ∧
  Forall isNewNode (ocNodes c).
Proof.
  intros (Hwn & Hwd & Happs).
  pose proof (oc_append _ _ _ _ _ c) as Happ.
  pose proof (oc_nodes _ _ _ _ _ c) as Hnodes.
  destruct (append_view _ _ _ _ _ _ Happ Hwn) as [Hv _].
  split; [exact Hv |]. split; [done |]. split; [done |]. split.
  - unfold ocApps. apply map_ext_Forall.
    eapply Forall_impl; [exact Happs |]. intros app (Hw1 & Ha1 & _).
    destruct (append_frame _ _ _ _ _ _ _ Happ Hw1 Ha1) as (Hv1 & _).
    unfold appViewOf, viewOf. by rewrite Hv1.
  - destruct newNodePtr as [node |]; [| done].
    unfold newFakeNodes in Hnodes. rewrite Nat2Z.id in Hnodes.
    destruct (makeFakeNodes_ok _ _ _ _ _ _ _ Hnodes) as (new & Hnew & Hlen & Hmark & _).
    simpl in Hnew. rewrite Hnew. done.
Qed.

End FrameFacts.


Lemma scenario_wellFormed :
  @wellFormedInputs Scenario.neverFits Scenario.cluster2 [Scenario.app1]
    (Scenario.start2 Scenario.neverFits 0%nat).
Proof.
  split; [| split].
  - split; [simpl; lia | right]. eexists. split; [reflexivity | simpl; lia].
  - split; [simpl; lia | right]. eexists. split; [reflexivity | simpl; lia].
  - constructor; [| constructor]. split; [| split; [| split]].
    + split; [simpl; lia | by left].
    + right. simpl. lia.
    + split; [simpl; lia | right]. eexists. split; [reflexivity | simpl; lia].
    + left. simpl. lia.
Defined.


(* ===================================================================== *)
(** * Further properties of the package                                  *)
(* ===================================================================== *)

(** ** [validate] *)

Section ValidateFacts.
Context `{SimonType} `{Platform} `{Collab}.

Lemma firstMissing_app pre post :
  firstMissing (pre ++ post) =
  match firstMissing pre with Some e => Some e | None => firstMissing post end.
Proof.
  induction pre as [|[what path] pre IH]; cbn; [by destruct (firstMissing post)|].
  destruct (Stat path); [done|]. exact IH.
Qed.

Lemma firstMissing_none paths :
  firstMissing paths = None <-> Forall (fun p => Stat p.2 = None) paths.
Proof.
  induction paths as [|[what path] paths IH]; cbn.
  - split; [constructor | done].
  - destruct (Stat path) eqn:Hs.
    + split; [done|]. intros Hf. inversion Hf as [|? ? Hp _]; subst. cbn in Hp. congruence.
    + rewrite IH. split.
      * intros Hf. by constructor.
      * intros Hf. by inversion Hf.
Qed.

Lemma firstMissing_some paths e :
  firstMissing paths = Some e <->
  ∃ pre what path cause post,
    paths = pre ++ (what, path) :: post ∧
    Forall (fun p => Stat p.2 = None) pre ∧
    Stat path = Some cause ∧ e = ErrInvalidPath what cause.
Proof.
  induction paths as [|[what path] paths IH]; cbn.
  - split; [done|]. intros (pre & ? & ? & ? & ? & Hp & _). by destruct pre.
  - destruct (Stat path) eqn:Hs.
    + split.
      * intros [= <-]. by exists [], what, path, e0, paths.
      * intros (pre & what' & path' & cause & post & Hp & Hpre & Hc & ->).
        destruct pre as [|q pre]; cbn in Hp.
        -- injection Hp as Hw Hq Hr. subst. congruence.
        -- injection Hp as Hq Hr. subst. inversion Hpre as [|? ? Hq _]; subst.
           cbn in Hq. congruence.
    + rewrite IH. split.
      * intros (pre & what' & path' & cause & post & -> & Hpre & Hc & ->).
        exists ((what, path) :: pre), what', path', cause, post.
        split; [done|]. split; [by constructor|done].
      * intros (pre & what' & path' & cause & post & Hp & Hpre & Hc & ->).
        destruct pre as [|q pre]; cbn in Hp.
        -- injection Hp as Hw Hq Hr. subst. congruence.
        -- injection Hp as Hq Hr. subst. inversion Hpre; subst.
           by exists pre, what', path', cause, post.
Qed.

Lemma validateApps_firstMissing apps :
  validateApps apps =
  firstMissing (map (fun app => (AppName app +:+ " app", AppPath app)) apps).
Proof.
  induction apps as [|app apps IH]; cbn; [done|].
  unfold statPath. destruct (Stat (AppPath app)); [done|]. exact IH.
Qed.

Lemma oneClusterSource_test c :
  oneClusterSource c <->
  (isEmpty (KubeConfig c) && isEmpty (CustomCluster c)
   || negb (isEmpty (KubeConfig c)) && negb (isEmpty (CustomCluster c))) = false.
Proof.
  unfold oneClusterSource.
  destruct (isEmpty (KubeConfig c)) eqn:Hk, (isEmpty (CustomCluster c)) eqn:Hc; cbn;
    repeat match goal with
    | Hx : isEmpty _ = true |- _ => apply isEmpty_true in Hx
    | Hx : isEmpty _ = false |- _ => apply isEmpty_false in Hx
    end; split; try done; try tauto; intros _; tauto.
Qed.

Lemma filter_set what path rest :
  path <> ""%string ->
  filter (fun p : string * string => p.2 <> ""%string) ((what, path) :: rest) =
  (what, path) :: filter (fun p : string * string => p.2 <> ""%string) rest.
Proof. intros Hp. by rewrite filter_cons_True. Qed.

Lemma filter_unset what rest :
  filter (fun p : string * string => p.2 <> ""%string) ((what, ""%string) :: rest) =
  filter (fun p : string * string => p.2 <> ""%string) rest.
Proof. rewrite filter_cons_False; [done|]. cbn. tauto. Qed.

Lemma statIfSet_cons what path rest :
  firstMissing (filter (fun p : string * string => p.2 <> ""%string) ((what, path) :: rest)) =
  match statIfSet what path with
  | Some e => Some e
  | None => firstMissing (filter (fun p : string * string => p.2 <> ""%string) rest)
  end.
Proof.
  unfold statIfSet. destruct (isEmpty path) eqn:He.
  - apply isEmpty_true in He. subst. by rewrite filter_unset.
  - apply isEmpty_false in He. rewrite filter_set by done.
    change (negb false) with true. cbv iota.
    unfold statPath. cbn [firstMissing]. by destruct (Stat path).
Qed.

(** With one cluster source, [validate] returns what the first refused
    path of [checkedPaths] gives. *)
Lemma validate_firstMissing applier :
  oneClusterSource (cluster applier) ->
  validate applier = firstMissing (checkedPaths applier).
Proof.
  intros Hone. apply oneClusterSource_test in Hone.
  unfold validate, checkedPaths. rewrite Hone.
  rewrite firstMissing_app, !statIfSet_cons.
  destruct (statIfSet "kubeConfig" _); [done|].
  destruct (statIfSet "customConfig" _); [done|].
  destruct (statIfSet "scheduler config" _); [done|].
  destruct (statIfSet "newNode" _); [done|].
  cbn. apply validateApps_firstMissing.
Qed.

Lemma validate_not_one applier :
  ¬ oneClusterSource (cluster applier) -> validate applier = Some ErrOnlyOneCluster.
Proof.
  intros Hone. unfold validate.
  destruct (_ || _) eqn:Ht; [done|]. by apply oneClusterSource_test in Ht.
Qed.

Lemma oneClusterSource_dec c : oneClusterSource c ∨ ¬ oneClusterSource c.
Proof.
  rewrite oneClusterSource_test. destruct (_ || _); [right|left]; done.
Qed.

(** X1. [validate] accepts an applier exactly when one cluster source is
    given and [os.Stat] accepts every path it checks: each of the four
    configuration paths that is not empty, and the path of every
    application, empty or not. *)
Theorem validate_accepts applier :
  validate applier = None <->
  oneClusterSource (cluster applier) ∧
  Forall (fun p => Stat p.2 = None) (checkedPaths applier).
Proof.
  destruct (oneClusterSource_dec (cluster applier)) as [Hone|Hone].
  - rewrite validate_firstMissing, firstMissing_none by done. tauto.
  - rewrite validate_not_one by done. split; [done | tauto].
Qed.

(** X2. [validate] returns an invalid-path error exactly when one cluster
    source is given and the error names the first checked path, in the
    order kubeConfig, customConfig, scheduler config, newNode, then the
    applications, that [os.Stat] refuses, with the cause [os.Stat] gave. *)
Theorem validate_first_refused applier what cause :
  validate applier = Some (ErrInvalidPath what cause) <->
  oneClusterSource (cluster applier) ∧
  ∃ pre path post,
    checkedPaths applier = pre ++ (what, path) :: post ∧
    Forall (fun p => Stat p.2 = None) pre ∧
    Stat path = Some cause.
Proof.
  destruct (oneClusterSource_dec (cluster applier)) as [Hone|Hone].
  - rewrite validate_firstMissing, firstMissing_some by done. split.
    + intros (pre & what' & path & cause' & post & Hp & Hpre & Hc & [= -> ->]).
      split; [done|]. by exists pre, path, post.
    + intros (_ & pre & path & post & Hp & Hpre & Hc).
      by exists pre, what, path, cause, post.
  - rewrite validate_not_one by done. split; [done | tauto].
Qed.

End ValidateFacts.

(** ** [satisfyResourceSetting] *)

Section AdmissionFacts.
Context `{SimonType} `{Platform} `{Collab}.

Lemma readSetting_range env v : readSetting env = inr v -> 0 <= v <= 100.
Proof.
  unfold readSetting. destruct (String.eqb _ _); [intros [= <-]; lia|].
  destruct (Go.Atoi _) as [text|n]; [done|].
  destruct (_ || _) eqn:Ht; intros [= <-]; [lia|].
  apply orb_false_iff in Ht as [Ha Hb]. lia.
Qed.

Lemma readSetting_wellFormed env :
  wellFormed env <-> ∃ v, readSetting env = inr v.
Proof.
  unfold wellFormed, readSetting. destruct (String.eqb _ _) eqn:He.
  - apply String.eqb_eq in He. split; [by eexists | by left].
  - apply String.eqb_neq in He. destruct (Go.Atoi _) as [text|n].
    + split; [intros [?|[? ?]]; done | intros [? ?]; done].
    + split; [by eexists | right; by eexists].
Qed.

Lemma readSetting_malformed env text :
  malformed env text <-> readSetting env = inl (ErrConvertEnv env text).
Proof.
  unfold malformed, readSetting. destruct (String.eqb _ _) eqn:He.
  - apply String.eqb_eq in He. split; [intros [? _]; done | done].
  - apply String.eqb_neq in He. destruct (Go.Atoi _) as [text'|n].
    + split; [intros [_ [= ->]]; done | intros [= ->]; done].
    + split; [intros [_ ?]; done | done].
Qed.

Lemma readSetting_error env e :
  readSetting env = inl e -> ∃ text, e = ErrConvertEnv env text.
Proof.
  unfold readSetting. destruct (String.eqb _ _); [done|].
  destruct (Go.Atoi _) as [text|n]; [|done]. intros [= <-]. by eexists.
Qed.

Lemma readSettings_range maxcpu maxmem maxvg :
  readSettings = inr (maxcpu, maxmem, maxvg) ->
  0 <= maxcpu <= 100 ∧ 0 <= maxmem <= 100 ∧ 0 <= maxvg <= 100.
Proof.
  unfold readSettings.
  destruct (readSetting EnvMaxCPU) as [e|c] eqn:Hc; [done|].
  destruct (readSetting EnvMaxMemory) as [e|m] eqn:Hm; [done|].
  destruct (readSetting EnvMaxVG) as [e|v] eqn:Hv; [done|].
  intros [= <- <- <-]. split; [|split]; by eapply readSetting_range.
Qed.

Lemma readSettings_error env text :
  readSettings = inl (ErrConvertEnv env text) <-> firstMalformed env text.
Proof.
  unfold readSettings, firstMalformed.
  rewrite !readSetting_malformed.
  destruct (readSetting EnvMaxCPU) as [e|c] eqn:Hc.
  { cbn. split.
    - intros [= ->]. destruct (readSetting_error _ _ Hc) as [t [= -> ->]]. by left.
    - intros [[-> Ha]|[(_ & Ha & _)|(_ & Ha & _)]].
      + congruence.
      + apply readSetting_wellFormed in Ha as [? ?]. congruence.
      + apply readSetting_wellFormed in Ha as [? ?]. congruence. }
  assert (wellFormed EnvMaxCPU) as Wc by (apply readSetting_wellFormed; by eexists).
  cbn. destruct (readSetting EnvMaxMemory) as [e|m] eqn:Hm.
  { cbn. split.
    - intros [= ->]. destruct (readSetting_error _ _ Hm) as [t [= -> ->]].
      right; left. done.
    - intros [[-> Ha]|[(-> & _ & Ha)|(_ & _ & Ha & _)]].
      + congruence.
      + congruence.
      + apply readSetting_wellFormed in Ha as [? ?]. congruence. }
  assert (wellFormed EnvMaxMemory) as Wm by (apply readSetting_wellFormed; by eexists).
  cbn. destruct (readSetting EnvMaxVG) as [e|v] eqn:Hv.
  { cbn. split.
    - intros [= ->]. destruct (readSetting_error _ _ Hv) as [t [= -> ->]].
      right; right. done.
    - intros [[-> Ha]|[(-> & _ & Ha)|(-> & _ & _ & Ha)]]; congruence. }
  cbn. split; [done|].
  intros [[-> Ha]|[(-> & _ & Ha)|(-> & _ & _ & Ha)]]; congruence.
Qed.

Lemma addNodeStatus_error allPods t status e :
  addNodeStatus allPods t status = inl e <->
  badStorage status ∧ e = ErrUnmarshalNode (NodeName (nsNode status)).
Proof.
  unfold addNodeStatus, badStorage.
  destruct (NodeAnnotations _ !! _) as [str|].
  - destruct (UnmarshalNodeStorage str) as [cause|storage] eqn:Hu.
    + split; [intros [= <-]; eauto | intros [_ ->]; done].
    + split; [done|]. intros [(str' & cause & [= <-] & Hc) _]. congruence.
  - split; [done|]. intros [(str' & cause & Hs & _) _]. done.
Qed.

Lemma aggregate_error allPods statuses t e :
  aggregate allPods statuses t = inl e <->
  ∃ pre status post,
    statuses = pre ++ status :: post ∧
    Forall (fun s => ¬ badStorage s) pre ∧
    badStorage status ∧ e = ErrUnmarshalNode (NodeName (nsNode status)).
Proof.
  revert t. induction statuses as [|status rest IH]; intros t; cbn.
  - split; [done|]. intros (pre & ? & ? & Hp & _). by destruct pre.
  - destruct (addNodeStatus allPods t status) as [e'|t'] eqn:Ha; cbn.
    + apply addNodeStatus_error in Ha as [Hbad ->]. split.
      * intros [= <-]. by exists [], status, rest.
      * intros (pre & status' & post & Hp & Hpre & Hb & ->).
        destruct pre as [|q pre]; cbn in Hp.
        -- by injection Hp as <- _.
        -- injection Hp as Hq _. subst. by inversion Hpre.
    + rewrite IH.
      assert (¬ badStorage status) as Hgood.
      { intros Hbad.
        assert (addNodeStatus allPods t status =
                inl (ErrUnmarshalNode (NodeName (nsNode status)))) as Hx
          by by apply addNodeStatus_error.
        congruence. }
      split.
      * intros (pre & status' & post & -> & Hpre & Hb & ->).
        exists (status :: pre), status', post. split; [done|].
        split; [by constructor|done].
      * intros (pre & status' & post & Hp & Hpre & Hb & ->).
        destruct pre as [|q pre]; cbn in Hp.
        -- injection Hp as Hq _. by subst.
        -- injection Hp as Hq Hr. subst. inversion Hpre; subst.
           by exists pre, status', post.
Qed.

Lemma wrap64_wrap64_add a b : Go.wrap64 (Go.wrap64 a + b) = Go.wrap64 (a + b).
Proof.
  unfold Go.wrap64. f_equal.
  replace ((a + 2 ^ 63) mod 2 ^ 64 - 2 ^ 63 + b + 2 ^ 63)
    with ((a + 2 ^ 63) mod 2 ^ 64 + b) by lia.
  rewrite Zplus_mod_idemp_l. f_equal. lia.
Qed.

Lemma wrap64_idem a : Go.wrap64 (Go.wrap64 a) = Go.wrap64 a.
Proof.
  rewrite <- (Z.add_0_r (Go.wrap64 a)), wrap64_wrap64_add. by rewrite !Z.add_0_r.
Qed.

Lemma fold_addVG vgs t :
  Go.wrap64 (vgRequested t) = vgRequested t ->
  Go.wrap64 (vgCapacity t) = vgCapacity t ->
  let t' := fold_left addVG vgs t in
  allocCpu t' = allocCpu t ∧ allocMem t' = allocMem t ∧
  usedCpu t' = usedCpu t ∧ usedMem t' = usedMem t ∧
  vgRequested t' = Go.wrap64 (vgRequested t + sumZ (map Requested vgs)) ∧
  vgCapacity t' = Go.wrap64 (vgCapacity t + sumZ (map Capacity vgs)).
Proof.
  revert t. induction vgs as [|vg vgs IH]; intros t Hr Hc; cbn.
  - rewrite !Z.add_0_r, Hr, Hc. repeat split; done.
  - destruct (IH (addVG t vg)) as (Ha & Hb & Hd & He & Hf & Hg);
      [apply wrap64_idem | apply wrap64_idem |].
    cbn in *. rewrite Ha, Hb, Hd, He, Hf, Hg, !wrap64_wrap64_add, !Z.add_assoc.
    repeat split; done.
Qed.

Lemma sumZ_app l k : sumZ (l ++ k) = sumZ l + sumZ k.
Proof. unfold sumZ. induction l as [|x l IH]; cbn; lia. Qed.

Lemma aggregate_sums allPods statuses t t' :
  Go.wrap64 (vgRequested t) = vgRequested t ->
  Go.wrap64 (vgCapacity t) = vgCapacity t ->
  aggregate allPods statuses t = inr t' ->
  allocCpu t' = allocCpu t + sumZ (map (fun s => Cpu (Allocatable (nsNode s))) statuses) ∧
  allocMem t' = allocMem t + sumZ (map (fun s => Memory (Allocatable (nsNode s))) statuses) ∧
  usedCpu t' = usedCpu t +
    sumZ (map (fun s => Cpu (GetPodsTotalRequestsAndLimitsByNodeName
                               allPods (NodeName (nsNode s)))) statuses) ∧
  usedMem t' = usedMem t +
    sumZ (map (fun s => Memory (GetPodsTotalRequestsAndLimitsByNodeName
                                  allPods (NodeName (nsNode s)))) statuses) ∧
  vgRequested t' =
    Go.wrap64 (vgRequested t + sumZ (map Requested (flat_map volumeGroupsOf statuses))) ∧
  vgCapacity t' =
    Go.wrap64 (vgCapacity t + sumZ (map Capacity (flat_map volumeGroupsOf statuses))).
Proof.
  revert t. induction statuses as [|status rest IH]; intros t Hr Hc; cbn.
  - intros [= <-]. rewrite !Z.add_0_r, Hr, Hc. repeat split; done.
  - destruct (addNodeStatus allPods t status) as [e|t1] eqn:Ha; [done|]. cbn.
    intros Hrest.
    assert (allocCpu t1 = allocCpu t + Cpu (Allocatable (nsNode status)) ∧
            allocMem t1 = allocMem t + Memory (Allocatable (nsNode status)) ∧
            usedCpu t1 = usedCpu t +
              Cpu (GetPodsTotalRequestsAndLimitsByNodeName allPods (NodeName (nsNode status))) ∧
            usedMem t1 = usedMem t +
              Memory (GetPodsTotalRequestsAndLimitsByNodeName allPods (NodeName (nsNode status))) ∧
            vgRequested t1 =
              Go.wrap64 (vgRequested t + sumZ (map Requested (volumeGroupsOf status))) ∧
            vgCapacity t1 =
              Go.wrap64 (vgCapacity t + sumZ (map Capacity (volumeGroupsOf status))))
      as (Ea & Eb & Ec & Ed & Ee & Ef).
    { unfold addNodeStatus in Ha. unfold volumeGroupsOf.
      destruct (NodeAnnotations _ !! _) as [str|].
      - destruct (UnmarshalNodeStorage str) as [cause|storage]; [done|].
        injection Ha as <-.
        match goal with
        | |- context [fold_left addVG ?vgs ?t0] =>
            destruct (fold_addVG vgs t0 Hr Hc) as (Ia & Ib & Ic & Id & Ie & If)
        end.
        cbn in *. rewrite Ia, Ib, Ic, Id, Ie, If. repeat split; done.
      - injection Ha as <-. cbn. rewrite !Z.add_0_r, Hr, Hc. repeat split; done. }
    destruct (IH t1) as (Ia & Ib & Ic & Id & Ie & If); [| | done |].
    { rewrite Ee. apply wrap64_idem. }
    { rewrite Ef. apply wrap64_idem. }
    rewrite Ia, Ib, Ic, Id, Ie, If, Ea, Eb, Ec, Ed, Ee, Ef.
    rewrite !map_app, !sumZ_app, !wrap64_wrap64_add, !Z.add_assoc.
    repeat split; done.
Qed.

Lemma checkOccupancy_shape maxcpu maxmem maxvg t ok reason :
  checkOccupancy maxcpu maxmem maxvg t = (ok, reason) ->
  (ok = true ∧ reason = NoReason) ∨
  (ok = false ∧ ∃ kind rate setting,
     reason = BeyondSetting kind rate setting ∧
     (setting = maxcpu ∨ setting = maxmem ∨ setting = maxvg) ∧ setting < rate).
Proof.
  unfold checkOccupancy.
  destruct (maxcpu <? _) eqn:Hc.
  { intros [= <- <-]. right. split; [done|]. do 3 eexists. split; [done|].
    split; [by left | lia]. }
  destruct (maxmem <? _) eqn:Hm.
  { intros [= <- <-]. right. split; [done|]. do 3 eexists. split; [done|].
    split; [right; by left | lia]. }
  destruct (negb _); [| intros [= <- <-]; by left].
  destruct (maxvg <? _) eqn:Hv; [| intros [= <- <-]; by left].
  intros [= <- <-]. right. split; [done|]. do 3 eexists. split; [done|].
  split; [right; by right | lia].
Qed.

(** X3. Whenever the admission check returns a verdict, it either accepts
    with an empty reason, or rejects naming an occupancy rate that
    strictly exceeds its ceiling, and that ceiling lies between 0 and 100:
    whatever the environment holds, no ceiling outside this range is ever
    applied. *)
Theorem satisfyResourceSetting_verdict nodeStatuses ok reason :
  satisfyResourceSetting nodeStatuses = inr (ok, reason) ->
  (ok = true ∧ reason = NoReason) ∨
  (ok = false ∧ ∃ kind rate setting,
     reason = BeyondSetting kind rate setting ∧
     0 <= setting <= 100 ∧ setting < rate).
Proof.
  unfold satisfyResourceSetting.
  destruct readSettings as [e|[[maxcpu maxmem] maxvg]] eqn:Hs; [done|]. cbn.
  destruct (aggregate _ _ _) as [e|totals]; [done|]. cbn.
  intros [= Hv]. apply readSettings_range in Hs as (Hc & Hm & Hg).
  apply checkOccupancy_shape in Hv
    as [?|(-> & kind & rate & setting & -> & Hset & Hlt)]; [by left|].
  right. split; [done|]. exists kind, rate, setting. split; [done|].
  split; [|done]. destruct Hset as [-> | [-> | ->]]; done.
Qed.

(** X4. The admission check fails with a conversion error exactly when
    one of the three ceiling variables is malformed; the error names the
    first malformed one in the order CPU, memory, storage, with the text
    [strconv.Atoi] gave, whatever the node statuses are: the ceilings are
    read before any node is looked at. *)
Theorem satisfyResourceSetting_malformed nodeStatuses env text :
  satisfyResourceSetting nodeStatuses = inl (ErrConvertEnv env text) <->
  firstMalformed env text.
Proof.
  rewrite <- readSettings_error. unfold satisfyResourceSetting.
  destruct readSettings as [e|[[maxcpu maxmem] maxvg]]; cbn;
    [split; intros [= ->]; done|].
  destruct (aggregate _ _ _) as [e|totals] eqn:Ha; cbn; [|done].
  apply aggregate_error in Ha as (pre & status & post & _ & _ & _ & ->). done.
Qed.

(** X5. When the totals of the admission check are computed, allocatable
    and requested CPU and memory are the sums over all node statuses, and
    the storage totals are the sums, wrapped to 64 bits, over all volume
    groups that the storage annotations of the nodes declare. *)
Theorem aggregate_totals nodeStatuses totals :
  aggregate (allPodsOf nodeStatuses) nodeStatuses zeroTotals = inr totals ->
  allocCpu totals = sumZ (map (fun s => Cpu (Allocatable (nsNode s))) nodeStatuses) ∧
  allocMem totals = sumZ (map (fun s => Memory (Allocatable (nsNode s))) nodeStatuses) ∧
  usedCpu totals =
    sumZ (map (fun s => Cpu (GetPodsTotalRequestsAndLimitsByNodeName
                               (allPodsOf nodeStatuses) (NodeName (nsNode s))))
              nodeStatuses) ∧
  usedMem totals =
    sumZ (map (fun s => Memory (GetPodsTotalRequestsAndLimitsByNodeName
                                  (allPodsOf nodeStatuses) (NodeName (nsNode s))))
              nodeStatuses) ∧
  vgRequested totals =
    Go.wrap64 (sumZ (map Requested (flat_map volumeGroupsOf nodeStatuses))) ∧
  vgCapacity totals =
    Go.wrap64 (sumZ (map Capacity (flat_map volumeGroupsOf nodeStatuses))).
Proof.
  intros Ha. by apply aggregate_sums in Ha.
Qed.

(** X6. The admission check fails with an unmarshal error exactly when
    all three ceilings can be read and some node carries a storage
    annotation that cannot be decoded; the error names the first such
    node in the order of the node statuses. *)
Theorem satisfyResourceSetting_bad_storage nodeStatuses name :
  satisfyResourceSetting nodeStatuses = inl (ErrUnmarshalNode name) <->
  (∃ settings, readSettings = inr settings) ∧
  ∃ pre status post,
    nodeStatuses = pre ++ status :: post ∧
    Forall (fun s => ¬ badStorage s) pre ∧
    badStorage status ∧ name = NodeName (nsNode status).
Proof.
  unfold satisfyResourceSetting.
  destruct readSettings as [e|[[maxcpu maxmem] maxvg]] eqn:Hs.
  { cbn. split; [|intros [[? ?] _]; done].
    intros [= ->]. unfold readSettings in Hs.
    destruct (readSetting EnvMaxCPU) as [e|c] eqn:Hc;
      [destruct (readSetting_error _ _ Hc) as [? ?]; cbn in Hs; congruence|].
    destruct (readSetting EnvMaxMemory) as [e|m] eqn:Hm;
      [destruct (readSetting_error _ _ Hm) as [? ?]; cbn in Hs; congruence|].
    destruct (readSetting EnvMaxVG) as [e|v] eqn:Hv;
      [destruct (readSetting_error _ _ Hv) as [? ?]; cbn in Hs; congruence|].
    done. }
  cbn. destruct (aggregate _ _ _) as [e|totals] eqn:Ha; cbn.
  - split.
    + intros [= ->]. split; [by eexists|].
      apply aggregate_error in Ha as (pre & status & post & Hp & Hpre & Hb & [= ->]).
      by exists pre, status, post.
    + intros (_ & pre & status & post & Hp & Hpre & Hb & ->).
      f_equal. symmetry.
      assert (aggregate (allPodsOf nodeStatuses) nodeStatuses zeroTotals =
              inl (ErrUnmarshalNode (NodeName (nsNode status)))) as Hx.
      { apply aggregate_error. by exists pre, status, post. }
      congruence.
  - split; [done|]. intros (_ & pre & status & post & Hp & Hpre & Hb & ->).
    assert (aggregate (allPodsOf nodeStatuses) nodeStatuses zeroTotals =
            inl (ErrUnmarshalNode (NodeName (nsNode status)))) as Hx.
    { apply aggregate_error. by exists pre, status, post. }
    congruence.
Qed.

(** X7. Raising ceilings never turns an accepted cluster into a rejected
    one: totals that pass the three comparisons pass them for any
    ceilings that are at least as high. *)
Theorem checkOccupancy_monotone maxcpu maxmem maxvg maxcpu' maxmem' maxvg' t :
  maxcpu <= maxcpu' -> maxmem <= maxmem' -> maxvg <= maxvg' ->
  checkOccupancy maxcpu maxmem maxvg t = (true, NoReason) ->
  checkOccupancy maxcpu' maxmem' maxvg' t = (true, NoReason).
Proof.
  intros Hc Hm Hv. unfold checkOccupancy.
  destruct (maxcpu <? _) eqn:Ec; [done|].
  destruct (maxmem <? _) eqn:Em; [done|].
  assert ((maxcpu' <? occupancyRate (usedCpu t) (allocCpu t)) = false) as -> by lia.
  assert ((maxmem' <? occupancyRate (usedMem t) (allocMem t)) = false) as -> by lia.
  destruct (negb _); [|done].
  destruct (maxvg <? _) eqn:Ev; [done|].
  assert ((maxvg' <? occupancyRate (vgRequested t) (vgCapacity t)) = false) as -> by lia.
  done.
Qed.

End AdmissionFacts.

Lemma satisfyResourceSetting_verdict_witness :
  (false = true ∧ BeyondSetting KindCpu 90 80 = NoReason) ∨
  (false = false ∧ ∃ kind rate setting,
     BeyondSetting KindCpu 90 80 = BeyondSetting kind rate setting ∧
     0 <= setting <= 100 ∧ setting < rate).
Proof.
  apply (@satisfyResourceSetting_verdict Scenario.consts amd64
           (Scenario.admissionCollab (Scenario.setEnv "MaxCPU" "80" Scenario.noEnv))
           (Scenario.oneNode 1000 900) false (BeyondSetting KindCpu 90 80)).
  vm_compute. reflexivity.
Defined.

Lemma aggregate_totals_witness :
  @aggregate Scenario.consts (Scenario.storageCollab Scenario.noEnv)
    (allPodsOf Scenario.twoNodes) Scenario.twoNodes zeroTotals
  = inr {| allocCpu := 6000; allocMem := 12000; usedCpu := 3000; usedMem := 4000;
           vgRequested := 40; vgCapacity := 100 |} ∧
  allocCpu {| allocCpu := 6000; allocMem := 12000; usedCpu := 3000; usedMem := 4000;
              vgRequested := 40; vgCapacity := 100 |}
  = sumZ (map (fun s => Cpu (Allocatable (nsNode s))) Scenario.twoNodes).
Proof.
  split; [vm_compute; reflexivity|].
  apply (@aggregate_totals Scenario.consts (Scenario.storageCollab Scenario.noEnv)
           Scenario.twoNodes
           {| allocCpu := 6000; allocMem := 12000; usedCpu := 3000; usedMem := 4000;
              vgRequested := 40; vgCapacity := 100 |}).
  vm_compute. reflexivity.
Defined.

Lemma checkOccupancy_monotone_witness :
  @checkOccupancy amd64 95 100 100
    {| allocCpu := 1000; allocMem := 4000; usedCpu := 900; usedMem := 1000;
       vgRequested := 0; vgCapacity := 0 |} = (true, NoReason).
Proof.
  apply (@checkOccupancy_monotone amd64 90 30 0 95 100 100); [lia | lia | lia |].
  vm_compute. reflexivity.
Defined.

(** ** Runs of the search that end with an error *)

Section ErrorRuns.
Context `{SimonType} `{Platform} `{Collab}.
Variable clusterResource : ResourceTypes Workloads.
Variable selectedResourceList : list (AppResource Workloads).
Variable newNodePtr : option Node.
Variable ext : list string.

Local Notation "'iteration_'" :=
  (iteration clusterResource selectedResourceList newNodePtr ext).
Local Notation "'Steps_'" :=
  (Steps clusterResource selectedResourceList newNodePtr ext).
Local Notation "'Ends_'" :=
  (Ends clusterResource selectedResourceList newNodePtr ext).
Local Notation "'Run_'" :=
  (Run clusterResource selectedResourceList newNodePtr ext).
Local Notation "'passError_'" :=
  (passError clusterResource selectedResourceList newNodePtr).

Local Arguments firstBlocker : simpl never.
Local Arguments rangeEvents : simpl never.
Local Arguments rangeUnscheduledPods : simpl never.

Lemma iteration_nodes_error i s e w :
  newFakeNodes newNodePtr (Z.of_nat i) (world s) = (inl e, w) ->
  iteration_ i s =
    (inl e, {| world := w; nodeArrays := nodeArrays s; dsArrays := dsArrays s;
               out := out s ++ [Printf (MsgAddNodes i)] |}).
Proof.
  intros Hn. unfold iteration.
  unfold mbind, M_bind, bind, emit, inWorld. cbn. rewrite Hn. done.
Qed.

(** A pass ends with an error exactly in the four cases of [passError]. *)
Lemma iteration_error i s e :
  (∃ s1, iteration_ i s = (inl e, s1)) <-> passError_ i s e.
Proof.
  split.
  - intros [s1 Hit]. apply iteration_Iter in Hit.
    remember (inl e) as r eqn:Hr.
    destruct Hit as [ e0 w Hn | c e0 Hans | c res e0 Hans Hpods Hs | | |
                      c res node hd allDaemonSets ds pods Hans Hpods Hptr Hcol ];
      try discriminate.
    + injection Hr as <-. left. by exists w.
    + injection Hr as <-. right. exists c. by rewrite Hans.
    + injection Hr as <-. right. exists c. by rewrite Hans, Hpods.
    + right. exists c. rewrite Hans. fold pods.
      destruct pods as [|up rest] eqn:Hp; [done|].
      exists node. split; [done|]. unfold allDaemonSetsAt. rewrite Hcol. fold ds.
      destruct (firstBlocker node ds (up :: rest)) as [e0|[[? ?]|]]; cbn in Hr;
        congruence.
  - intros [[w Hn]|[c Hc]].
    + eexists. by apply iteration_nodes_error.
    + rewrite (iteration_oracle _ _ _ ext _ _ c). unfold afterOracle.
      destruct (ocAnswer c) as [cause|result]; [subst; by eexists|].
      destruct (UnscheduledPods result) as [|up rest] eqn:Hp.
      * rewrite Hc. by eexists.
      * destruct Hc as (node & -> & Hfb). unfold allDaemonSetsAt in Hfb.
        destruct (collectDaemonSets _ _ _) as [hd allDaemonSets].
        rewrite Hfb. cbn. by eexists.
Qed.

(** X8. The search returns an error exactly when some count below the
    ceiling is reached, all passes before it having ended in a next
    count, and the pass at this count fails: the candidate nodes cannot
    be made, the oracle fails, the admission check fails on a full
    placement, or the overhead check fails on a pod before any pod
    blocks. The error is the one of that step, unchanged. *)
Theorem Run_error_cases st e :
  (∃ st', Run clusterResource selectedResourceList newNodePtr ext st = (inl e, st')) <->
  ∃ i s, Steps clusterResource selectedResourceList newNodePtr ext 0 st i s ∧
         (i < MaxNumNewNode)%nat ∧
         passError clusterResource selectedResourceList newNodePtr i s e.
Proof.
  split.
  - intros [st' HR].
    destruct (Run_run _ _ _ _ _ _ _ HR) as (j & s & Hsteps & Hle & Hends).
    exists j, s. split; [done|].
    inversion Hends as [| e0 st1 Hj Hit | |]; subst.
    split; [done|]. apply iteration_error. by exists st'.
  - intros (i & s & Hsteps & Hlt & Hpass).
    apply iteration_error in Hpass as [s1 Hit]. exists s1.
    pose proof (Ends_error clusterResource selectedResourceList newNodePtr ext
                  MaxNumNewNode i s e s1 Hlt Hit) as Hends.
    pose proof (Steps_search _ _ _ _ _ _ _ _ _ _ _ Hsteps Hends ltac:(lia)) as Hrun.
    by rewrite Nat.sub_0_r in Hrun.
Qed.

End ErrorRuns.

(** ** What a run prints and calls *)

Section QuietRuns.
Context `{SimonType} `{Platform} `{Collab}.
Variable clusterResource : ResourceTypes Workloads.
Variable selectedResourceList : list (AppResource Workloads).
Variable newNodePtr : option Node.
Variable ext : list string.

Local Notation "'iteration_'" :=
  (iteration clusterResource selectedResourceList newNodePtr ext).
Local Notation "'Steps_'" :=
  (Steps clusterResource selectedResourceList newNodePtr ext).
Local Notation "'Ends_'" :=
  (Ends clusterResource selectedResourceList newNodePtr ext).
Local Notation "'Run_'" :=
  (Run clusterResource selectedResourceList newNodePtr ext).

Local Arguments firstBlocker : simpl never.
Local Arguments rangeEvents : simpl never.

Lemma rangeEvents_quiet node ds result pods :
  (∀ up why, firstBlocker node ds pods <> inr (Some (up, why))) ->
  Forall (fun ev => isVerdict ev = false) (rangeEvents node ds result ext pods).
Proof.
  induction pods as [| up rest IH]; [constructor |].
  unfold firstBlocker, rangeEvents; fold firstBlocker; fold rangeEvents.
  unfold classify.
  destruct (NodeShouldRunPod node (upPod up)); cbn.
  - destruct (MeetResourceRequests node (upPod up) ds) as [e | []]; cbn.
    + intros _. repeat (constructor; [done |]). constructor.
    + intros Hfb. repeat (constructor; [done |]). by apply IH.
    + intros Hfb. by destruct (Hfb up DaemonSetsTooLarge).
  - intros Hfb. by destruct (Hfb up NotFitAffinityOrTaints).
Qed.

(** A pass that does not end the run on a blocking pod tells no verdict. *)
Lemma iteration_quiet i s r s1 :
  iteration_ i s = (r, s1) ->
  (∀ up why result, r <> inr (CtlReturnNil up why, result)) ->
  ∃ events, out s1 = out s ++ events ∧ Forall (fun ev => isVerdict ev = false) events.
Proof.
  intros Hit Hr. apply iteration_Iter in Hit.
  destruct Hit as [ | | | | | c res node hd allDaemonSets ds pods Hans Hpods Hptr Hcol ];
    eexists; (split; [reflexivity |]); cbn;
    repeat (constructor; [done |]); try constructor.
  apply rangeEvents_quiet. intros up why Hfb. rewrite Hfb in Hr. cbn in Hr.
  by destruct (Hr up why res).
Qed.

Lemma Steps_quiet i st j s :
  Steps_ i st j s ->
  ∃ events, out s = out st ++ events ∧ Forall (fun ev => isVerdict ev = false) events.
Proof.
  induction 1 as [i st | i st r st1 j st2 Hit Hsteps IH].
  - exists []. by rewrite app_nil_r.
  - destruct (iteration_quiet _ _ _ _ Hit) as (e1 & He1 & Hn1); [done|].
    destruct IH as (e2 & He2 & Hn2).
    exists (e1 ++ e2). rewrite He2, He1, app_assoc. split; [done |]. by apply Forall_app.
Qed.

(** X9. A run of the search that returns an error tells the user no
    verdict: among the events it adds there is no report, no success
    message and no failure message of the ceiling. *)
Theorem Run_error_quiet st e st' :
  Run_ st = (inl e, st') ->
  ∃ events, out st' = out st ++ events ∧ Forall (fun ev => isVerdict ev = false) events.
Proof.
  intros HR.
  destruct (Run_run _ _ _ _ _ _ _ HR) as (j & s & Hsteps & Hle & Hends).
  destruct (Steps_quiet _ _ _ _ Hsteps) as (e0 & He0 & Hq0).
  inversion Hends as [| e1 st1 Hj Hit | |]; subst.
  destruct (iteration_quiet _ _ _ _ Hit) as (e1 & He1 & Hq1); [done|].
  exists (e0 ++ e1). rewrite He1, He0, app_assoc. split; [done|]. by apply Forall_app.
Qed.

(** X10. With a nil template node and a positive ceiling, the search
    announces count 0 and returns the error of [newFakeNodes]; it calls
    neither the oracle nor any check, whatever the cluster is. *)
Theorem Run_nil_template st :
  newNodePtr = None -> (0 < MaxNumNewNode)%nat ->
  Run_ st = (inl ErrNodeIsNil, emitted st [Printf (MsgAddNodes 0)]).
Proof.
  intros Hnil Hmax. unfold Run.
  destruct MaxNumNewNode as [|max]; [lia|].
  unfold search; fold search. unfold mbind at 1, M_bind at 1, bind at 1.
  rewrite (iteration_nodes_error _ _ _ _ 0 st ErrNodeIsNil (world st)).
  - unfold emitted. by destruct st.
  - by rewrite Hnil.
Qed.

End QuietRuns.

(** A run whose oracle fails at count 2: nothing but the announcements
    of the counts and the calls. *)
Lemma Run_error_quiet_witness :
  let run := @Run Scenario.consts amd64 Scenario.oracleCrashes Scenario.cluster1 []
               Scenario.template [] (Scenario.start Scenario.oracleCrashes 0%nat) in
  ∃ events, out run.2 = [] ++ events ∧ Forall (fun ev => isVerdict ev = false) events.
Proof.
  intros run.
  apply (@Run_error_quiet Scenario.consts amd64 Scenario.oracleCrashes Scenario.cluster1 []
           Scenario.template [] (Scenario.start Scenario.oracleCrashes 0%nat)
           (ErrCollab "simulate: context deadline exceeded") run.2).
  vm_compute. reflexivity.
Defined.

Lemma Run_nil_template_witness :
  @Run Scenario.consts amd64 Scenario.neverFits Scenario.cluster1 [] None []
       (Scenario.start Scenario.neverFits 0%nat)
  = (inl ErrNodeIsNil,
     emitted (Scenario.start Scenario.neverFits 0%nat) [Printf (MsgAddNodes 0)]).
Proof.
  apply (@Run_nil_template Scenario.consts amd64 Scenario.neverFits Scenario.cluster1 []
           None [] (Scenario.start Scenario.neverFits 0%nat)).
  - reflexivity.
  - cbn. lia.
Defined.

(** ** The daemon sets of the overhead check *)

Section OverheadInput.
Context `{SimonType} `{Platform} `{Collab}.
Variable clusterResource : ResourceTypes Workloads.
Variable selectedResourceList : list (AppResource Workloads).
Variable newNodePtr : option Node.
Variable ext : list string.

Local Notation "'iteration_'" :=
  (iteration clusterResource selectedResourceList newNodePtr ext).
Local Notation "'Steps_'" :=
  (Steps clusterResource selectedResourceList newNodePtr ext).
Local Notation "'Ends_'" :=
  (Ends clusterResource selectedResourceList newNodePtr ext).
Local Notation "'Run_'" :=
  (Run clusterResource selectedResourceList newNodePtr ext).
Local Notation "'wellFormed_'" :=
  (wellFormedInputs clusterResource selectedResourceList).

Local Arguments firstBlocker : simpl never.
Local Arguments rangeEvents : simpl never.

Local Notation "'declared'" :=
  (declaredDaemonSets clusterResource selectedResourceList).

Lemma allDaemonSetsAt_declared s :
  wellFormed_ s ->
  allDaemonSetsAt clusterResource selectedResourceList s = declared s.
Proof.
  intros (_ & Hwd & Happs). unfold allDaemonSetsAt, declaredDaemonSets.
  destruct (collectDaemonSets _ _ _) as [hd allDaemonSets] eqn:Hcol.
  rewrite (collectDaemonSets_view _ _ _ _ _ Hcol Hwd).
  - cbn. f_equal. clear. induction selectedResourceList as [|app rest IH]; [done|].
    cbn. by rewrite IH.
  - eapply Forall_impl; [exact Happs|]. intros app (_ & _ & Hw & Ha). done.
Qed.

Lemma rangeEvents_overhead node ds result pods :
  Forall (overheadGiven (Some node) ds) (rangeEvents node ds result ext pods).
Proof.
  induction pods as [| up rest IH]; [constructor |].
  unfold rangeEvents; fold rangeEvents.
  repeat (constructor; [done |]).
  destruct (NodeShouldRunPod node (upPod up)); cbn.
  - constructor; [done |].
    destruct (MeetResourceRequests node (upPod up) ds) as [e | []]; cbn;
      [constructor | done | repeat (constructor; [done |]); constructor].
  - repeat (constructor; [done |]). constructor.
Qed.

Lemma iteration_overhead i s r s1 :
  iteration_ i s = (r, s1) ->
  ∃ events, out s1 = out s ++ events ∧
    Forall (overheadGiven newNodePtr
              (allDaemonSetsAt clusterResource selectedResourceList s)) events.
Proof.
  intros Hit. apply iteration_Iter in Hit.
  destruct Hit as [ | | | | | c res node hd allDaemonSets ds pods Hans Hpods Hptr Hcol ];
    eexists; (split; [reflexivity |]); cbn;
    repeat (constructor; [done |]); try constructor.
  unfold allDaemonSetsAt. rewrite Hcol, Hptr. apply rangeEvents_overhead.
Qed.

Lemma declared_framed st s :
  wellFormed_ st -> Framed clusterResource st s -> wellFormed_ s ∧ declared s = declared st.
Proof.
  intros Hwf Hfr. destruct (Framed_views _ _ _ _ Hwf Hfr) as (Hv & Ha & Hwf').
  split; [done|]. unfold declaredDaemonSets. by rewrite Hv, Ha.
Qed.

Lemma Steps_overhead i st j s :
  Steps_ i st j s -> wellFormed_ st ->
  ∃ events, out s = out st ++ events ∧
    Forall (overheadGiven newNodePtr (declared st)) events.
Proof.
  induction 1 as [i st | i st r st1 j st2 Hit Hsteps IH]; intros Hwf.
  - exists []. by rewrite app_nil_r.
  - destruct (iteration_overhead _ _ _ _ Hit) as (e1 & He1 & Hq1).
    rewrite allDaemonSetsAt_declared in Hq1 by done.
    destruct (declared_framed _ _ Hwf (iteration_frame _ _ _ _ _ _ _ _ Hit)) as [Hwf1 Hd1].
    destruct (IH Hwf1) as (e2 & He2 & Hq2). rewrite Hd1 in Hq2.
    exists (e1 ++ e2). rewrite He2, He1, app_assoc. split; [done |]. by apply Forall_app.
Qed.

(** X11. In a run of the search from well-formed inputs, every call of
    the overhead check is made for the template node and is given the
    same daemon sets: those of the original cluster followed by those of
    every selected application, in the order of the applications. The
    appends of earlier passes leave nothing behind. *)
Theorem overhead_daemon_sets st R st' :
  wellFormedInputs clusterResource selectedResourceList st ->
  Run_ st = (R, st') ->
  let original := viewOf (nodeArrays st) (dsArrays st) clusterResource in
  let apps := map (appViewOf (nodeArrays st) (dsArrays st)) selectedResourceList in
  ∃ events, out st' = out st ++ events ∧
    Forall (overheadGiven newNodePtr
              (vDaemonSets original ++
               flat_map (fun app => vDaemonSets (avResource app)) apps)) events.
Proof.
  intros Hwf HR original apps.
  destruct (Run_run _ _ _ _ _ _ _ HR) as (j & s & Hsteps & Hle & Hends).
  destruct (Steps_overhead _ _ _ _ Hsteps Hwf) as (e0 & He0 & Hq0).
  destruct (declared_framed _ _ Hwf (Steps_frame _ _ _ _ _ _ _ _ Hsteps)) as [Hwfs Hds].
  assert (∀ r s1, iteration_ j s = (r, s1) ->
            ∃ events, out s1 = out s ++ events ∧
              Forall (overheadGiven newNodePtr (declared st)) events) as Hpass.
  { intros r s1 Hit. destruct (iteration_overhead _ _ _ _ Hit) as (e1 & He1 & Hq1).
    rewrite allDaemonSetsAt_declared, Hds in Hq1 by done. by exists e1. }
  destruct Hends as [Hj | e st1 Hj Hit | result st1 Hj Hit | result pod why st1 Hj Hit].
  - exists (e0 ++ [Printf (MsgStillFailed MaxNumNewNode)]). cbn.
    rewrite He0, app_assoc. split; [done |]. apply Forall_app. split; [done |].
    by constructor.
  - destruct (Hpass _ _ Hit) as (e1 & He1 & Hq1).
    exists (e0 ++ e1). rewrite He1, He0, app_assoc. split; [done |]. by apply Forall_app.
  - destruct (Hpass _ _ Hit) as (e1 & He1 & Hq1).
    exists (e0 ++ e1 ++ successEvents ext result). cbn.
    rewrite He1, He0, !app_assoc. split; [done |].
    rewrite <- app_assoc. apply Forall_app. split; [done |]. apply Forall_app.
    split; [done|]. repeat (constructor; [done |]). constructor.
  - destruct (Hpass _ _ Hit) as (e1 & He1 & Hq1).
    exists (e0 ++ e1). rewrite He1, He0, app_assoc. split; [done |]. by apply Forall_app.
Qed.

End OverheadInput.

(** The cluster with one daemon set and an application with another: in
    all five passes the overhead check is given these two. *)
Lemma overhead_daemon_sets_witness :
  let st := Scenario.start2 Scenario.neverFits 0%nat in
  let run := @Run Scenario.consts amd64 Scenario.neverFits Scenario.cluster2 [Scenario.app1]
               Scenario.template [] st in
  ∃ events, out run.2 = [] ++ events ∧
    Forall (@overheadGiven Scenario.neverFits Scenario.template
              [Scenario.mkDaemonSet "proxy" 100 100; Scenario.mkDaemonSet "agent" 200 200])
           events.
Proof.
  intros st run.
  exact (@overhead_daemon_sets Scenario.consts amd64 Scenario.neverFits Scenario.cluster2
           [Scenario.app1] Scenario.template [] st run.1 run.2
           scenario_wellFormed (surjective_pairing _)).
Defined.

(** ** How often the oracle and the admission check are called *)

Section CallCounts.
Context `{SimonType} `{Platform} `{Collab}.
Variable clusterResource : ResourceTypes Workloads.
Variable selectedResourceList : list (AppResource Workloads).
Variable newNodePtr : option Node.
Variable ext : list string.

Local Notation "'iteration_'" :=
  (iteration clusterResource selectedResourceList newNodePtr ext).
Local Notation "'Steps_'" :=
  (Steps clusterResource selectedResourceList newNodePtr ext).
Local Notation "'Ends_'" :=
  (Ends clusterResource selectedResourceList newNodePtr ext).
Local Notation "'Run_'" :=
  (Run clusterResource selectedResourceList newNodePtr ext).

Local Arguments firstBlocker : simpl never.
Local Arguments rangeEvents : simpl never.

Lemma oracleCalls_app (l1 l2 : list Event) :
  oracleCalls (l1 ++ l2) = (oracleCalls l1 + oracleCalls l2)%nat.
Proof. unfold oracleCalls. by rewrite filter_app, length_app. Qed.

Lemma admissionCalls_app (l1 l2 : list Event) :
  admissionCalls (l1 ++ l2) = (admissionCalls l1 + admissionCalls l2)%nat.
Proof. unfold admissionCalls. by rewrite filter_app, length_app. Qed.

Lemma oracleCalls_cons ev (l : list Event) :
  oracleCalls (ev :: l) = ((if isOracleCall ev then 1 else 0) + oracleCalls l)%nat.
Proof.
  unfold oracleCalls. rewrite filter_cons.
  destruct (isOracleCall ev); case_decide; done.
Qed.

Lemma admissionCalls_cons ev (l : list Event) :
  admissionCalls (ev :: l) = ((if isAdmissionCall ev then 1 else 0) + admissionCalls l)%nat.
Proof.
  unfold admissionCalls. rewrite filter_cons.
  destruct (isAdmissionCall ev); case_decide; done.
Qed.

Lemma rangeEvents_calls node ds result pods :
  oracleCalls (rangeEvents node ds result ext pods) = 0%nat ∧
  admissionCalls (rangeEvents node ds result ext pods) = 0%nat.
Proof.
  induction pods as [| up rest IH]; [done |].
  unfold rangeEvents; fold rangeEvents.
  rewrite !oracleCalls_cons, !admissionCalls_cons.
  destruct (NodeShouldRunPod node (upPod up)); cbn [negb];
    [| unfold abortEvents; rewrite !oracleCalls_cons, !admissionCalls_cons; done].
  rewrite !oracleCalls_cons, !admissionCalls_cons.
  destruct (MeetResourceRequests node (upPod up) ds) as [e | []]; cbn [negb];
    [done | done |].
  unfold abortEvents; rewrite !oracleCalls_cons, !admissionCalls_cons; done.
Qed.

(** The calls of one pass: the oracle once, unless the candidate nodes
    cannot be made; the admission check at most once, and only after the
    oracle. *)
Lemma iteration_calls i s r s1 :
  iteration_ i s = (r, s1) ->
  ∃ events, out s1 = out s ++ events ∧
    attempts events = [i] ∧
    (oracleCalls events ≤ 1)%nat ∧
    (admissionCalls events ≤ oracleCalls events)%nat ∧
    ((∀ e, r <> inl e) -> oracleCalls events = 1%nat).
Proof.
  intros Hit. apply iteration_Iter in Hit.
  destruct Hit as [ | | | | | c res node hd allDaemonSets ds pods Hans Hpods Hptr Hcol ];
    eexists; (split; [reflexivity |]); unfold oracleEvents;
    rewrite ?attempts_app, ?oracleCalls_app, ?admissionCalls_app,
      ?oracleCalls_cons, ?admissionCalls_cons;
    try destruct (rangeEvents_calls node ds res pods) as [Ho Ha];
    rewrite ?Ho, ?Ha; cbn;
    try change (omap _ (rangeEvents node ds res ext pods))
      with (attempts (rangeEvents node ds res ext pods));
    rewrite ?attempts_rangeEvents;
    (split; [done|]); (split; [lia|]); (split; [lia|]);
    first [done | intros Hr; exfalso; eapply Hr; reflexivity].
Qed.

Lemma Steps_calls i st j s :
  Steps_ i st j s ->
  ∃ events, out s = out st ++ events ∧
    length (attempts events) = (j - i)%nat ∧
    oracleCalls events = (j - i)%nat ∧
    (admissionCalls events ≤ oracleCalls events)%nat.
Proof.
  induction 1 as [i st | i st r st1 j st2 Hit Hsteps IH].
  - exists []. rewrite app_nil_r, Nat.sub_diag. done.
  - pose proof (Steps_le _ _ _ _ _ _ _ _ Hsteps) as Hle.
    destruct (iteration_calls _ _ _ _ Hit) as (e1 & He1 & Ha1 & Ho1 & Hs1 & Hok1).
    destruct IH as (e2 & He2 & Ha2 & Ho2 & Hs2).
    exists (e1 ++ e2). rewrite He2, He1, app_assoc. split; [done |].
    rewrite attempts_app, length_app, oracleCalls_app, admissionCalls_app, Ha1, Ha2, Ho2.
    rewrite Hok1 in * by done. cbn. lia.
Qed.


End CallCounts.


(** ** [report] *)

Section ReportFacts.
Context `{SimonType} `{Platform} `{Collab} `{ReportCollab}.

Lemma containLocalStorage_In ext :
  containLocalStorage ext = true <-> In "open-local"%string ext.
Proof.
  induction ext as [|res rest IH]; cbn; [split; [done | tauto]|].
  destruct (String.eqb res "open-local") eqn:He.
  - apply String.eqb_eq in He. split; [by left | done].
  - apply String.eqb_neq in He. rewrite IH. split; [by right|].
    intros [?|?]; [done | done].
Qed.

Lemma containGpu_In ext : containGpu ext = true <-> In "gpu"%string ext.
Proof.
  induction ext as [|res rest IH]; cbn; [split; [done | tauto]|].
  destruct (String.eqb res "gpu") eqn:He.
  - apply String.eqb_eq in He. split; [by left | done].
  - apply String.eqb_neq in He. rewrite IH. split; [by right|].
    intros [?|?]; [done | done].
Qed.

Lemma podRow_length ext node pod :
  length (podRow ext node pod) = length (podHeader ext).
Proof.
  unfold podRow, podHeader. rewrite !length_app.
  destruct (containLocalStorage ext), (containGpu ext); done.
Qed.

Lemma nodeRow_length ext allPods status :
  length (nodeRow ext allPods status) = length (nodeTableHeader ext).
Proof.
  unfold nodeRow, nodeTableHeader. rewrite !length_app.
  destruct (containGpu ext); done.
Qed.

Lemma podRows_rectangular ext statuses :
  Forall (fun row => length row = length (podHeader ext)) (podRows ext statuses).
Proof.
  unfold podRows. apply Forall_flat_map, Forall_forall. intros status _.
  apply Forall_flat_map, Forall_forall. intros pod _.
  destruct (negb _); [constructor|].
  constructor; [apply podRow_length | constructor].
Qed.

Lemma nodeRows_rectangular ext statuses :
  Forall (fun row => length row = length (nodeTableHeader ext)) (nodeRows ext statuses).
Proof.
  unfold nodeRows. apply Forall_map, Forall_forall. intros status _.
  apply nodeRow_length.
Qed.

Lemma storageRows_rectangular statuses acc rows :
  Forall (fun row => length row = length storageHeader) acc ->
  storageRows statuses acc = inr rows ->
  Forall (fun row => length row = length storageHeader) rows.
Proof.
  revert acc. induction statuses as [|status rest IH]; intros acc Hacc; cbn.
  - by intros [= <-].
  - destruct (NodeAnnotations _ !! _) as [str|]; [|by apply IH].
    destruct (UnmarshalNodeStorage str) as [err|storage]; [done|].
    apply IH. rewrite !Forall_app. split; [done|].
    split; apply Forall_map, Forall_forall; done.
Qed.

Lemma gpuDeviceRows_rectangular node info :
  Forall (fun row => length row = length gpuNodeHeader) (gpuDeviceRows node info).
Proof.
  unfold gpuDeviceRows. apply Forall_flat_map, Forall_forall. intros idx _.
  destruct (DevsBrief info !! idx) as [d|]; [|constructor].
  destruct (_ <=? _); [constructor|]. by constructor.
Qed.

Lemma gpuNodeRows_rectangular allPods statuses :
  Forall (fun row => length row = length gpuNodeHeader) (gpuNodeRows allPods statuses).2 ∧
  Forall (fun o => isRender o = false) (gpuNodeRows allPods statuses).1.
Proof.
  induction statuses as [|status rest [IHr IHl]]; cbn; [by split|].
  destruct (gpuNodeRows allPods rest) as [logged rows]. cbn in *.
  destruct (NodeAnnotations _ !! _) as [str|]; [|done].
  destruct (UnmarshalNodeGpuInfo str) as [err|info]; cbn.
  - split; [done|]. by constructor.
  - split; [|done]. constructor; [done|]. apply Forall_app.
    split; [apply gpuDeviceRows_rectangular | done].
Qed.

(** X13. Every table that [report] hands to the table writer is
    rectangular: each row has as many cells as the header, whether or not
    the storage and GPU columns are switched on. *)
Theorem report_tables_rectangular nodeStatuses extendedResources :
  Forall rectangular (report nodeStatuses extendedResources).1.
Proof.
  assert (Hgpu : Forall rectangular
            (if containGpu extendedResources then
               let '(logged, rows) := gpuNodeRows (allPodsOf nodeStatuses) nodeStatuses in
               [ Println "GPU Node Resource" ] ++ logged ++
               [ Render gpuNodeHeader rows [0%nat];
                 Println (String (ascii_of_nat 10) "Pod -> Node Map");
                 Render podGpuHeader
                        (map podGpuRow (SortByName (allPodsOf nodeStatuses))) [] ]
             else [])).
  { destruct (containGpu extendedResources); [|constructor].
    destruct (gpuNodeRows_rectangular (allPodsOf nodeStatuses) nodeStatuses) as [Hr Hl].
    destruct (gpuNodeRows _ _) as [logged rows]. cbn in *.
    constructor; [done|]. apply Forall_app. split.
    - eapply Forall_impl; [exact Hl|]. intros o Ho. by destruct o.
    - constructor; [done|]. constructor; [done|]. constructor; [|constructor].
      cbn. apply Forall_map, Forall_forall. done. }
  pose proof (podRows_rectangular extendedResources nodeStatuses) as Hpods.
  pose proof (nodeRows_rectangular extendedResources nodeStatuses) as Hnodes.
  unfold report. cbv zeta.
  destruct extendedResources as [|res rest] eqn:Hext.
  { cbn. repeat (constructor; [done|]). constructor. }
  rewrite <- Hext in *. clear Hext.
  destruct (containLocalStorage extendedResources).
  - destruct (storageRows nodeStatuses []) as [fatal|rows] eqn:Hs; cbn [fst].
    + repeat (constructor; [done|]). constructor.
    + pose proof (storageRows_rectangular _ _ _ (Forall_nil_2 _) Hs) as Hrows.
      rewrite !Forall_app, !Forall_cons. cbn [rectangular].
      repeat split; first [done | exact Hgpu | constructor].
  - cbn [fst]. rewrite !Forall_app, !Forall_cons. cbn [rectangular].
      repeat split; first [done | exact Hgpu | constructor].
Qed.

End ReportFacts.

(** ** When [report] ends the process *)

Section ReportExit.
Context `{SimonType} `{Platform} `{Collab} `{ReportCollab}.

Lemma badStorage_dec status : badStorage status ∨ ¬ badStorage status.
Proof.
  unfold badStorage.
  destruct (NodeAnnotations (nsNode status) !! AnnoNodeLocalStorage) as [str|] eqn:Hs.
  - destruct (UnmarshalNodeStorage str) as [cause|storage] eqn:Hu.
    + left. by exists str, cause.
    + right. intros (str' & cause & [= <-] & Hc). congruence.
  - right. intros (str' & cause & Hx & _). done.
Qed.

Lemma storageRows_fatal statuses acc fatal :
  storageRows statuses acc = inl fatal <->
  ∃ pre status post nodeStorageStr,
    statuses = pre ++ status :: post ∧
    Forall (fun s => ¬ badStorage s) pre ∧
    NodeAnnotations (nsNode status) !! AnnoNodeLocalStorage = Some nodeStorageStr ∧
    UnmarshalNodeStorage nodeStorageStr = inl (fatalCause fatal) ∧
    fatalNode fatal = NodeName (nsNode status).
Proof.
  revert acc. induction statuses as [|status rest IH]; intros acc; cbn.
  - split; [done|]. intros (pre & ? & ? & ? & Hp & _). by destruct pre.
  - destruct (badStorage_dec status) as [Hbad|Hgood].
    + destruct Hbad as (str & cause & Hs & Hu). rewrite Hs, Hu. split.
      * intros [= <-]. exists [], status, rest, str. done.
      * intros (pre & status' & post & str' & Hp & Hpre & Hs' & Hu' & Hn).
        destruct pre as [|q pre]; cbn in Hp.
        -- injection Hp as <- _. destruct fatal as [n c]. cbn in *.
           congruence.
        -- injection Hp as Hq _. subst q. inversion Hpre as [|? ? Hq _]; subst.
           exfalso. apply Hq. by exists str, cause.
    + assert (storageRows (status :: rest) acc = inl fatal <->
              ∃ acc', storageRows rest acc' = inl fatal) as Hstep.
      { cbn. destruct (NodeAnnotations _ !! _) as [str|] eqn:Hs.
        - destruct (UnmarshalNodeStorage str) as [cause|storage] eqn:Hu.
          + exfalso. apply Hgood. by exists str, cause.
          + split; [by eexists|]. intros [acc' Hx].
            apply IH in Hx. by apply IH.
        - split; [by eexists|]. intros [acc' Hx]. apply IH in Hx. by apply IH. }
      cbn in Hstep. rewrite Hstep. split.
      * intros [acc' Hx]. apply IH in Hx
          as (pre & status' & post & str & -> & Hpre & Hs & Hu & Hn).
        exists (status :: pre), status', post, str. split; [done|].
        split; [by constructor|done].
      * intros (pre & status' & post & str & Hp & Hpre & Hs & Hu & Hn).
        destruct pre as [|q pre]; cbn in Hp.
        -- injection Hp as <- _. exfalso. apply Hgood. by exists str, (fatalCause fatal).
        -- injection Hp as Hq Hr. subst. inversion Hpre; subst.
           exists acc. apply IH. by exists pre, status', post, str.
Qed.

(** X14. [report] ends the process with [log.Fatalf] exactly when the
    local-storage section is switched on and some node carries a storage
    annotation that cannot be decoded; the message names the first such
    node in the order of the node statuses, with the cause the decoder
    gave. In every other case [report] returns. *)
Theorem report_fatal nodeStatuses extendedResources fatal :
  (report nodeStatuses extendedResources).2 = Some fatal <->
  In "open-local"%string extendedResources ∧
  ∃ pre status post nodeStorageStr,
    nodeStatuses = pre ++ status :: post ∧
    Forall (fun s => ¬ badStorage s) pre ∧
    NodeAnnotations (nsNode status) !! AnnoNodeLocalStorage = Some nodeStorageStr ∧
    UnmarshalNodeStorage nodeStorageStr = inl (fatalCause fatal) ∧
    fatalNode fatal = NodeName (nsNode status).
Proof.
  rewrite <- containLocalStorage_In, <- (storageRows_fatal nodeStatuses []).
  unfold report. cbv zeta.
  destruct extendedResources as [|res rest] eqn:Hext.
  { cbn. split; [done | intros [? _]; done]. }
  rewrite <- Hext. clear Hext.
  destruct (containLocalStorage extendedResources).
  - destruct (storageRows nodeStatuses []) as [f|rows]; cbn [snd].
    + split; [intros [= ->]; done | intros [_ [= ->]]; done].
    + split; [done | intros [_ ?]; done].
  - cbn [snd]. split; [done | intros [? _]; done].
Qed.

Lemma aggregate_good allPods statuses t t' :
  aggregate allPods statuses t = inr t' -> Forall (fun s => ¬ badStorage s) statuses.
Proof.
  revert t. induction statuses as [|status rest IH]; intros t; cbn; [constructor|].
  destruct (addNodeStatus allPods t status) as [e|t1] eqn:Ha; [done|]. cbn.
  intros Hrest. constructor; [|by eapply IH].
  intros Hbad.
  assert (addNodeStatus allPods t status =
          inl (ErrUnmarshalNode (NodeName (nsNode status)))) as Hx
    by by apply addNodeStatus_error.
  congruence.
Qed.

Lemma report_returns_good nodeStatuses extendedResources :
  Forall (fun s => ¬ badStorage s) nodeStatuses ->
  (report nodeStatuses extendedResources).2 = None.
Proof.
  intros Hgood.
  destruct (report nodeStatuses extendedResources).2 as [fatal|] eqn:Hr; [|done].
  apply report_fatal in Hr as (_ & pre & status & post & str & -> & _ & Hs & Hu & _).
  apply Forall_app in Hgood as [_ Hgood]. inversion Hgood as [|? ? Hbad _]; subst.
  exfalso. apply Hbad. by exists str, (fatalCause fatal).
Qed.

(** X15. Node statuses that the admission check has judged are safe to
    report: when [satisfyResourceSetting] returns a verdict, accepting or
    not, [report] on the same statuses returns, whatever the extended
    resources are. *)
Theorem report_after_admission nodeStatuses extendedResources verdict :
  satisfyResourceSetting nodeStatuses = inr verdict ->
  (report nodeStatuses extendedResources).2 = None.
Proof.
  unfold satisfyResourceSetting.
  destruct readSettings as [e|[[maxcpu maxmem] maxvg]]; [done|]. cbn.
  destruct (aggregate _ _ _) as [e|totals] eqn:Ha; [done|]. intros _.
  apply report_returns_good. by eapply aggregate_good.
Qed.

(** X16. The report of a successful search always returns: when the
    search ends in [Success], [report] on the node statuses of its result
    does not end the process. *)
Theorem success_report_returns
    clusterResource selectedResourceList newNodePtr ext st i result st' :
  Run clusterResource selectedResourceList newNodePtr ext st
    = (inr (Success i result), st') ->
  (report (NodeStatuses result) ext).2 = None.
Proof.
  intros HR.
  destruct (Run_run _ _ _ _ _ _ _ HR) as (j & s & Hsteps & Hle & Hends).
  inversion Hends as [| | res st1 Hj Hit |]; subst.
  destruct (pass_inv _ _ _ _ _ _ _ _ _ Hit) as (c & Hans & _ & reason & Hok).
  by eapply report_after_admission.
Qed.

End ReportExit.

Lemma report_after_admission_witness :
  (@report Scenario.consts amd64 (Scenario.storageCollab Scenario.noEnv)
     Scenario.reportCollab Scenario.twoNodes ["open-local"%string]).2 = None.
Proof.
  apply (@report_after_admission Scenario.consts amd64
           (Scenario.storageCollab Scenario.noEnv) Scenario.reportCollab
           Scenario.twoNodes ["open-local"%string] (true, NoReason)).
  vm_compute. reflexivity.
Defined.

Lemma success_report_returns_witness :
  ∃ i result,
    (@Run Scenario.consts amd64 Scenario.storageCluster Scenario.cluster1 []
       Scenario.template ["open-local"%string]
       (Scenario.start Scenario.storageCluster 0%nat)).1 = inr (Success i result) ∧
    (@report Scenario.consts amd64 Scenario.storageCluster Scenario.reportCollab
       (NodeStatuses result) ["open-local"%string]).2 = None.
Proof.
  eexists _, _. split; [vm_compute; reflexivity|].
  eapply (@success_report_returns Scenario.consts amd64 Scenario.storageCluster
            Scenario.reportCollab Scenario.cluster1 [] Scenario.template
            ["open-local"%string] (Scenario.start Scenario.storageCluster 0%nat)).
  vm_compute. reflexivity.
Defined.

(** ** What [report] shows *)

Section ReportContents.
Context `{SimonType} `{Platform} `{Collab} `{ReportCollab}.

Lemma tableCount_app (l1 l2 : list Output) :
  tableCount (l1 ++ l2) = (tableCount l1 + tableCount l2)%nat.
Proof. unfold tableCount. by rewrite filter_app, length_app. Qed.

Lemma tableCount_cons o (l : list Output) :
  tableCount (o :: l) = ((if isRender o then 1 else 0) + tableCount l)%nat.
Proof.
  unfold tableCount. rewrite filter_cons. destruct (isRender o); case_decide; done.
Qed.

Lemma tableCount_logged (l : list Output) :
  Forall (fun o => isRender o = false) l -> tableCount l = 0%nat.
Proof.
  induction 1 as [|o l Ho _ IH]; [done|]. by rewrite tableCount_cons, Ho, IH.
Qed.

(** X17. When [report] returns it has rendered the pod table and the
    node table, one more table when "open-local" is among the extended
    resources, and two more when "gpu" is: nothing else switches a table
    on. The heading of the extended resources is printed exactly when the
    list of extended resources is not empty, so a list that names neither
    "open-local" nor "gpu" prints the heading and no table under it. *)
Theorem report_sections nodeStatuses extendedResources :
  (report nodeStatuses extendedResources).2 = None ->
  tableCount (report nodeStatuses extendedResources).1 =
    (2 + (if containLocalStorage extendedResources then 1 else 0)
       + (if containGpu extendedResources then 2 else 0))%nat ∧
  (In (Println "Extended Resource Info") (report nodeStatuses extendedResources).1
     <-> extendedResources <> []) ∧
  (containLocalStorage extendedResources = true <-> In "open-local"%string extendedResources) ∧
  (containGpu extendedResources = true <-> In "gpu"%string extendedResources).
Proof.
  intros Hret.
  split; [| split; [| split; [apply containLocalStorage_In | apply containGpu_In]]].
  - assert (Hgpu : tableCount
              (if containGpu extendedResources then
                 let '(logged, rows) := gpuNodeRows (allPodsOf nodeStatuses) nodeStatuses in
                 [ Println "GPU Node Resource" ] ++ logged ++
                 [ Render gpuNodeHeader rows [0%nat];
                   Println (String (ascii_of_nat 10) "Pod -> Node Map");
                   Render podGpuHeader
                          (map podGpuRow (SortByName (allPodsOf nodeStatuses))) [] ]
               else []) = (if containGpu extendedResources then 2 else 0)%nat).
    { destruct (containGpu extendedResources); [|done].
      destruct (gpuNodeRows_rectangular (allPodsOf nodeStatuses) nodeStatuses) as [_ Hl].
      destruct (gpuNodeRows _ _) as [logged rows]. cbn in Hl.
      rewrite !tableCount_app, !tableCount_cons, (tableCount_logged _ Hl). done. }
    unfold report in *. cbv zeta in *.
    destruct extendedResources as [|res rest] eqn:Hext; [done|].
    rewrite <- Hext in *. clear Hext.
    destruct (containLocalStorage extendedResources).
    + destruct (storageRows nodeStatuses []) as [fatal|rows]; [done|]. cbn [fst].
      rewrite !tableCount_app, !tableCount_cons, Hgpu. cbn. lia.
    + cbn [fst]. rewrite !tableCount_app, !tableCount_cons, Hgpu. cbn. lia.
  - assert (Hgpu : ¬ In (Println "Extended Resource Info")
              (if containGpu extendedResources then
                 let '(logged, rows) := gpuNodeRows (allPodsOf nodeStatuses) nodeStatuses in
                 [ Println "GPU Node Resource" ] ++ logged ++
                 [ Render gpuNodeHeader rows [0%nat];
                   Println (String (ascii_of_nat 10) "Pod -> Node Map");
                   Render podGpuHeader
                          (map podGpuRow (SortByName (allPodsOf nodeStatuses))) [] ]
               else [])).
    { destruct (containGpu extendedResources); [|by intros []].
      assert (∀ statuses, Forall (fun o => ∃ n c, o = Errorf n c)
                (gpuNodeRows (allPodsOf nodeStatuses) statuses).1) as Hl.
      { induction statuses as [|status rest IH]; cbn; [constructor|].
        destruct (gpuNodeRows (allPodsOf nodeStatuses) rest) as [logged rows]. cbn in *.
        destruct (NodeAnnotations _ !! _) as [str|]; [|done].
        destruct (UnmarshalNodeGpuInfo str) as [err|info]; cbn; [|done].
        constructor; [by eexists _, _|done]. }
      specialize (Hl nodeStatuses).
      destruct (gpuNodeRows _ _) as [logged rows]. cbn in Hl.
      rewrite !in_app_iff. intros [Hin|[Hin|Hin]].
      - destruct Hin as [?|[]]. done.
      - rewrite Forall_forall in Hl. apply list_elem_of_In in Hin.
        destruct (Hl _ Hin) as (n & c & ?). done.
      - destruct Hin as [?|[?|[?|[]]]]; done. }
    unfold report in *. cbv zeta in *.
    destruct extendedResources as [|res rest] eqn:Hext.
    { cbn. split; [|done]. intros Hin.
      repeat (destruct Hin as [?|Hin]; [done|]). done. }
    rewrite <- Hext in *.
    split; [intros _; by rewrite Hext|]. intros _.
    destruct (containLocalStorage extendedResources).
    + destruct (storageRows nodeStatuses []) as [fatal|rows]; [done|]. cbn [fst].
      rewrite !in_app_iff. right; right; left. by left.
    + cbn [fst]. rewrite !in_app_iff. right; right; left. by left.
Qed.

Lemma boundPods_rows ext status :
  length (flat_map
            (fun pod =>
               if negb (String.eqb (PodNodeName pod) (NodeName (nsNode status))) then []
               else [ podRow ext (nsNode status) pod ])
            (nsPods status)) = length (boundPods status).
Proof.
  unfold boundPods. induction (nsPods status) as [|pod rest IH]; [done|].
  cbn [flat_map]. rewrite length_app, IH, filter_cons.
  destruct (String.eqb _ _) eqn:He.
  - apply String.eqb_eq in He. by rewrite decide_True.
  - apply String.eqb_neq in He. by rewrite decide_False.
Qed.

Lemma podRows_length ext statuses :
  length (podRows ext statuses) = length (flat_map boundPods statuses).
Proof.
  unfold podRows. induction statuses as [|status rest IH]; [done|].
  cbn [flat_map]. by rewrite !length_app, IH, boundPods_rows.
Qed.

Lemma boundPods_le status :
  (length (boundPods status) ≤ length (nsPods status))%nat ∧
  (length (boundPods status) = length (nsPods status) <-> allBound status).
Proof.
  unfold boundPods, allBound. induction (nsPods status) as [|pod rest [IHle IHeq]].
  - split; [done|]. split; [constructor | done].
  - rewrite filter_cons. case_decide as Hb; cbn.
    + split; [lia|]. split.
      * intros Hl. constructor; [done|]. apply IHeq. lia.
      * intros Hall. inversion Hall; subst. f_equal. by apply IHeq.
    + split; [lia|]. split; [lia|]. intros Hall. by inversion Hall.
Qed.

(** X18. The pod table lists, node status by node status and in order,
    the pods that are bound to the node of their status, and only those;
    the "Pod Count" cell of the node table counts every pod of the
    status. The two agree exactly when every pod of every status is bound
    to the node of its status. *)
Theorem pod_table_and_pod_count extendedResources nodeStatuses :
  length (podRows extendedResources nodeStatuses)
    = length (flat_map boundPods nodeStatuses) ∧
  (length (podRows extendedResources nodeStatuses)
     ≤ length (allPodsOf nodeStatuses))%nat ∧
  (length (podRows extendedResources nodeStatuses) = length (allPodsOf nodeStatuses)
     <-> Forall allBound nodeStatuses) ∧
  (∀ allPods status,
     nodeTableHeader extendedResources
       !! (length (nodeTableHeader extendedResources) - 2)%nat = Some "Pod Count"%string ∧
     nodeRow extendedResources allPods status
       !! (length (nodeTableHeader extendedResources) - 2)%nat
     = Some (fmtd (Z.of_nat (length (nsPods status))))).
Proof.
  split; [apply podRows_length|]. rewrite podRows_length. unfold allPodsOf.
  split; [| split].
  - induction nodeStatuses as [|status rest IH]; [done|].
    cbn [flat_map]. rewrite !length_app.
    destruct (boundPods_le status) as [Hle _]. lia.
  - induction nodeStatuses as [|status rest IH]; [split; [constructor|done]|].
    cbn [flat_map]. rewrite !length_app.
    destruct (boundPods_le status) as [Hle Heq].
    assert (length (flat_map boundPods rest) ≤ length (flat_map nsPods rest))%nat as Hrest.
    { clear. induction rest as [|s r IHr]; [done|]. cbn [flat_map].
      rewrite !length_app. destruct (boundPods_le s) as [Hs _]. lia. }
    split.
    + intros Hl. constructor; [apply Heq; lia | apply IH; lia].
    + intros Hall. inversion Hall as [|? ? Hb Hr]; subst.
      apply Heq in Hb. apply IH in Hr. lia.
  - intros allPods status. unfold nodeTableHeader, nodeRow.
    destruct (containGpu extendedResources); done.
Qed.

(** X19. The nodes that [newFakeNodes] makes are marked in the report:
    the "New Node" cell of the row of such a node holds the check mark,
    and the row of a node without the marker label holds an empty cell.
    A count that is not positive makes no node. *)
Theorem new_nodes_marked extendedResources node nodeCount w nodes w' :
  newFakeNodes (Some node) nodeCount w = (inr nodes, w') ->
  (nodeCount <= 0 -> nodes = [] ∧ w' = w) ∧
  (∀ allPods status,
     In (nsNode status) nodes ->
     last (nodeRow extendedResources allPods status) = Some "√"%string) ∧
  (∀ allPods status,
     NodeLabels (nsNode status) !! LabelNewNode = None ->
     last (nodeRow extendedResources allPods status) = Some ""%string).
Proof.
  intros Hnew. split; [| split].
  - intros Hle. unfold newFakeNodes in Hnew.
    replace (Z.to_nat nodeCount) with 0%nat in Hnew by lia. cbn in Hnew.
    by injection Hnew as <- <-.
  - intros allPods status Hin. unfold newFakeNodes in Hnew.
    destruct (makeFakeNodes_ok _ _ _ _ _ _ _ Hnew) as (new & Hnodes & _ & Hmark & _).
    cbn in Hnodes. subst nodes. rewrite Forall_forall in Hmark.
    apply list_elem_of_In, Hmark in Hin. unfold isNewNode in Hin.
    unfold nodeRow. rewrite Hin, !last_app. done.
  - intros allPods status Hnone. unfold nodeRow. rewrite Hnone, !last_app. done.
Qed.

End ReportContents.

Lemma report_sections_witness :
  tableCount (@report Scenario.consts amd64 (Scenario.storageCollab Scenario.noEnv)
                Scenario.reportCollab Scenario.twoNodes ["open-local"%string]).1 = 3%nat.
Proof.
  apply (@report_sections Scenario.consts amd64 (Scenario.storageCollab Scenario.noEnv)
           Scenario.reportCollab Scenario.twoNodes ["open-local"%string]).
  vm_compute. reflexivity.
Defined.

Lemma new_nodes_marked_witness :
  ∃ nodes,
    (@newFakeNodes Scenario.consts (Scenario.admissionCollab Scenario.noEnv)
       Scenario.template 2 0%nat).1 = inr nodes ∧
    ∀ allPods status,
      In (nsNode status) nodes ->
      last (@nodeRow Scenario.consts amd64 (Scenario.admissionCollab Scenario.noEnv)
              Scenario.reportCollab [] allPods status) = Some "√"%string.
Proof.
  eexists. split; [vm_compute; reflexivity|].
  eapply (@new_nodes_marked Scenario.consts amd64 (Scenario.admissionCollab Scenario.noEnv)
            Scenario.reportCollab [] (Scenario.mkNode "template" 2000 4000) 2 0%nat).
  vm_compute. reflexivity.
Defined.

(** ** [NewApplier] *)

(** X20. [NewApplier] returns an applier exactly when the configuration
    can be read, exactly one cluster source is given and [os.Stat]
    accepts every checked path; the applier then takes the cluster, the
    applications and the new node from the configuration and everything
    else from the options. It ends the process with [log.Fatalf] exactly
    when the configuration cannot be read, and otherwise with status 1
    after printing the error of [validate]. *)
Theorem NewApplier_cases `{SimonType} `{Platform} `{Collab}
    (readConfig : string -> ExtError + Simon) (opts : Options) :
  (∀ applier,
     NewApplier readConfig opts = Applied applier <->
     ∃ simonCR,
       readConfig (SimonConfig opts) = inr simonCR ∧
       applier = applierOf opts simonCR ∧
       oneClusterSource (cluster applier) ∧
       Forall (fun p => Stat p.2 = None) (checkedPaths applier)) ∧
  (∀ cause,
     NewApplier readConfig opts = Fatal cause <-> readConfig (SimonConfig opts) = inl cause) ∧
  (∀ status printed,
     NewApplier readConfig opts = Exit status printed <->
     status = 1 ∧
     ∃ simonCR,
       readConfig (SimonConfig opts) = inr simonCR ∧
       validate (applierOf opts simonCR) = Some printed).
Proof.
  unfold NewApplier. split; [| split].
  - intros applier. destruct (readConfig (SimonConfig opts)) as [e|simonCR] eqn:Hread.
    { split; [done | intros (? & ? & _); done]. }
    destruct (validate (applierOf opts simonCR)) as [err|] eqn:Hv.
    + split; [done|]. intros (cr & [= <-] & -> & Hone & Hpaths).
      assert (validate (applierOf opts simonCR) = None) as Hx
        by (by apply validate_accepts).
      congruence.
    + split.
      * intros [= <-]. exists simonCR. split; [done|]. split; [done|].
        by apply validate_accepts.
      * intros (cr & [= <-] & -> & _). done.
  - intros cause. destruct (readConfig (SimonConfig opts)) as [e|simonCR].
    + split; intros [= ->]; done.
    + destruct (validate _); split; done.
  - intros status printed. destruct (readConfig (SimonConfig opts)) as [e|simonCR].
    { split; [done | intros (_ & ? & ? & _); done]. }
    destruct (validate (applierOf opts simonCR)) as [err|] eqn:Hv.
    + split.
      * intros [= <- <-]. split; [done|]. by exists simonCR.
      * intros (-> & cr & [= <-] & Hv'). congruence.
    + split; [done|]. intros (_ & cr & [= <-] & Hv'). congruence.
Qed.

(** ** How often a run reports *)

Section ReportOnce.
Context `{SimonType} `{Platform} `{Collab}.
Variable clusterResource : ResourceTypes Workloads.
Variable selectedResourceList : list (AppResource Workloads).
Variable newNodePtr : option Node.
Variable ext : list string.

Local Notation "'iteration_'" :=
  (iteration clusterResource selectedResourceList newNodePtr ext).
Local Notation "'Steps_'" :=
  (Steps clusterResource selectedResourceList newNodePtr ext).
Local Notation "'Ends_'" :=
  (Ends clusterResource selectedResourceList newNodePtr ext).

Local Arguments firstBlocker : simpl never.
Local Arguments rangeEvents : simpl never.

Lemma reportCalls_app (l1 l2 : list Event) :
  reportCalls (l1 ++ l2) = (reportCalls l1 + reportCalls l2)%nat.
Proof. unfold reportCalls. by rewrite filter_app, length_app. Qed.

Lemma reportCalls_cons ev (l : list Event) :
  reportCalls (ev :: l) = ((if isReport ev then 1 else 0) + reportCalls l)%nat.
Proof.
  unfold reportCalls. rewrite filter_cons. destruct (isReport ev); case_decide; done.
Qed.

Lemma reportCalls_none (l : list Event) :
  Forall (fun ev => isReport ev = false) l -> reportCalls l = 0%nat.
Proof.
  induction 1 as [|ev l Hev _ IH]; [done|]. by rewrite reportCalls_cons, Hev, IH.
Qed.

Lemma quiet_no_report (l : list Event) :
  Forall (fun ev => isVerdict ev = false) l -> reportCalls l = 0%nat.
Proof.
  intros Hq. apply reportCalls_none. eapply Forall_impl; [exact Hq|].
  intros ev Hev. by destruct ev.
Qed.

Lemma rangeEvents_reports node ds result pods :
  reportCalls (rangeEvents node ds result ext pods) =
  match firstBlocker node ds pods with
  | inr (Some _) => 1%nat
  | _ => 0%nat
  end.
Proof.
  induction pods as [| up rest IH]; [done |].
  unfold firstBlocker, rangeEvents; fold firstBlocker; fold rangeEvents.
  unfold classify. rewrite !reportCalls_cons.
  destruct (NodeShouldRunPod node (upPod up)); cbn [negb structural isReport];
    [| unfold abortEvents; rewrite !reportCalls_cons; done].
  rewrite !reportCalls_cons.
  destruct (MeetResourceRequests node (upPod up) ds) as [e | []];
    cbn [negb structural isReport]; [done | by rewrite IH |].
  unfold abortEvents; rewrite !reportCalls_cons; done.
Qed.

(** The reports of one pass: one when it ends the run on a blocking pod,
    none otherwise. *)
Lemma iteration_report_calls i s r s1 :
  iteration_ i s = (r, s1) ->
  ∃ events, out s1 = out s ++ events ∧
    reportCalls events =
    match r with
    | inr (CtlReturnNil _ _, _) => 1%nat
    | _ => 0%nat
    end.
Proof.
  intros Hit. apply iteration_Iter in Hit.
  destruct Hit as [ | | | | | c res node hd allDaemonSets ds pods Hans Hpods Hptr Hcol ];
    eexists; (split; [reflexivity |]); unfold oracleEvents;
    rewrite ?reportCalls_app, ?reportCalls_cons; try done.
  rewrite rangeEvents_reports.
  destruct (firstBlocker node ds pods) as [e|[[up why]|]]; done.
Qed.

(** X21. A run of the search calls [report] exactly once when it ends in
    success or on a pod that blocks structurally, and never otherwise:
    not when the ceiling is reached and not when an error is returned. *)
Theorem Run_reports_once st R st' :
  Run clusterResource selectedResourceList newNodePtr ext st = (R, st') ->
  ∃ events, out st' = out st ++ events ∧
    reportCalls events =
    match R with
    | inr (Success _ _) | inr (StructurallyFailed _ _ _ _) => 1%nat
    | inr Exhausted | inl _ => 0%nat
    end.
Proof.
  intros HR.
  destruct (Run_run _ _ _ _ _ _ _ HR) as (j & s & Hsteps & Hle & Hends).
  destruct (Steps_quiet _ _ _ _ _ _ _ _ Hsteps) as (e0 & He0 & Hq0).
  apply quiet_no_report in Hq0.
  destruct Hends as [Hj | e st1 Hj Hit | result st1 Hj Hit | result pod why st1 Hj Hit].
  - exists (e0 ++ [Printf (MsgStillFailed MaxNumNewNode)]). cbn.
    rewrite He0, app_assoc. split; [done |].
    by rewrite reportCalls_app, reportCalls_cons, Hq0.
  - destruct (iteration_report_calls _ _ _ _ Hit) as (e1 & He1 & Hr1).
    exists (e0 ++ e1). rewrite He1, He0, app_assoc. split; [done |].
    by rewrite reportCalls_app, Hq0, Hr1.
  - destruct (iteration_report_calls _ _ _ _ Hit) as (e1 & He1 & Hr1).
    exists (e0 ++ e1 ++ successEvents ext result). cbn.
    rewrite He1, He0, !app_assoc. split; [done |].
    rewrite <- !app_assoc, !reportCalls_app, Hq0, Hr1.
    unfold successEvents. by rewrite !reportCalls_cons.
  - destruct (iteration_report_calls _ _ _ _ Hit) as (e1 & He1 & Hr1).
    exists (e0 ++ e1). rewrite He1, He0, app_assoc. split; [done |].
    by rewrite reportCalls_app, Hq0, Hr1.
Qed.

End ReportOnce.

Lemma Run_reports_once_witness :
  let run := @Run Scenario.consts amd64 Scenario.tainted Scenario.cluster1 []
               Scenario.template [] (Scenario.start Scenario.tainted 0%nat) in
  ∃ events, out run.2 = [] ++ events ∧
    reportCalls events =
    match run.1 with
    | inr (Success _ _) | inr (StructurallyFailed _ _ _ _) => 1%nat
    | inr Exhausted | inl _ => 0%nat
    end.
Proof.
  intros run.
  exact (@Run_reports_once Scenario.consts amd64 Scenario.tainted Scenario.cluster1 []
           Scenario.template [] (Scenario.start Scenario.tainted 0%nat) run.1 run.2
           (surjective_pairing _)).
Defined.

(** ** Steps 1 to 3 of [Run] *)

Section PreparationFacts.
Context `{SimonType} `{Platform} `{Collab} `{!Loader}.

Lemma silent_ret {A} (x : A) : silent (mret x : M A).
Proof. intros st r st' [= <- <-]. done. Qed.

Lemma silent_bind {A B} (m : M A) (f : A -> M B) :
  silent m -> (∀ x, silent (f x)) -> silent (x ← m; f x).
Proof.
  intros Hm Hf st r st' Hrun.
  apply bind_inv in Hrun as [(e & Hrun & _)|(x & s1 & Hrun & Hk)].
  - by apply Hm in Hrun.
  - apply Hm in Hrun. apply Hf in Hk. congruence.
Qed.

Lemma silent_inWorld {A} (f : World -> Result A * World) : silent (inWorld f).
Proof.
  intros st r st'. unfold inWorld. destruct (f (world st)) as [r0 w].
  by intros [= <- <-].
Qed.

Lemma silent_decoding {A}
    (f : World -> gmap nat (list Node) -> gmap nat (list DaemonSet) ->
         (ExtError + A) * (World * gmap nat (list Node) * gmap nat (list DaemonSet))) :
  silent (decoding f).
Proof.
  intros st r st'. unfold decoding.
  destruct (f _ _ _) as [r0 [[w hn] hd]]. by intros [= <- <-].
Qed.

Lemma silent_matchAndSet nodes dir : silent (matchAndSet nodes dir).
Proof.
  intros st r st'. unfold matchAndSet.
  destruct (MatchAndSetLocalStorageAnnotationOnNode _ _ _) as [new w].
  by intros [= <- <-].
Qed.

Lemma silent_askSelection resourceList : silent (askSelection resourceList).
Proof.
  intros st r st'. unfold askSelection.
  destruct (Ask _ _) as [answer w]. by intros [= <- <-].
Qed.

Lemma silent_selectAll c m nodeResource names : silent (selectAll c m nodeResource names).
Proof.
  unfold selectAll. apply silent_bind; [|intros; apply silent_ret].
  intros st r st' [= <- <-]. done.
Qed.

Lemma silent_loadApps apps m l : silent (loadApps apps m l).
Proof.
  revert m l. induction apps as [|app rest IH]; intros m l; cbn [loadApps].
  - apply silent_ret.
  - apply silent_bind; [apply silent_inWorld|]. intros content.
    apply silent_bind; [apply silent_decoding|]. intros appResource. apply IH.
Qed.

Lemma silent_loadCluster applier : silent (loadCluster applier).
Proof.
  unfold loadCluster. destruct (negb _).
  - apply silent_bind; [apply silent_inWorld|]. intros. apply silent_decoding.
  - apply silent_decoding.
Qed.

Lemma loadApps_names apps m l st m' l' s1 :
  loadApps apps m l st = (inr (m', l'), s1) -> l' = l ++ map AppName apps.
Proof.
  revert m l st. induction apps as [|app rest IH]; intros m l st; cbn [loadApps].
  - intros [= <- <- <-]. by rewrite app_nil_r.
  - intros Hrun.
    apply bind_inv in Hrun as [(e & _ & ?)|(content & s2 & _ & Hrun)]; [done|].
    apply bind_inv in Hrun as [(e & _ & ?)|(appResource & s3 & _ & Hrun)]; [done|].
    apply IH in Hrun. rewrite Hrun, <- app_assoc. done.
Qed.

(** What steps 1 to 3 hand to the search. *)
Lemma prepare_ready applier st c sel n st' :
  prepare applier st = (inr (Ready c sel n), st') ->
  ∃ resourceMap resourceList names,
    sel = map (selectResource resourceMap) names ∧
    resourceList = map AppName (appList applier) ∧
    (interactive applier = false -> names = resourceList).
Proof.
  unfold prepare. intros Hrun.
  apply bind_inv in Hrun as [(e & _ & ?)|([m l] & s1 & Hload & Hrun)]; [done|].
  apply loadApps_names in Hload. cbn in Hload.
  apply bind_inv in Hrun as [(e & _ & ?)|(cr & s2 & _ & Hrun)]; [done|].
  apply bind_inv in Hrun as [(e & _ & ?)|(content & s3 & _ & Hrun)]; [done|].
  apply bind_inv in Hrun as [(e & _ & ?)|(nodeResource & s4 & _ & Hrun)]; [done|].
  destruct (_ =? _)%nat; [done|].
  apply bind_inv in Hrun as [(e & _ & ?)|(u & s5 & _ & Hrun)]; [done|].
  exists m, l.
  assert (∀ names s, selectAll cr m nodeResource names s = (inr (Ready c sel n), st') ->
            sel = map (selectResource m) names) as Hsel.
  { intros names s. unfold selectAll. intros Hs.
    apply bind_inv in Hs as [(e & _ & ?)|(node & s6 & _ & Hs)]; [done|].
    by injection Hs as _ <- _ _. }
  destruct (interactive applier).
  - apply bind_inv in Hrun as [(e & _ & ?)|(answer & s6 & _ & Hrun)]; [done|].
    destruct answer as [cause|names]; [done|].
    exists names. split; [by eapply Hsel|]. done.
  - exists l. split; [by eapply Hsel|]. done.
Qed.

(** X22. Applications are handed to the search by name. Without the
    prompt the selected list has one entry per application of the
    configuration, in order, under the application's name; and two
    entries of the selected list with the same name carry the same
    resources, because the resources are looked up by name in a map that
    a later application of the same name has overwritten. *)
Theorem selected_by_name applier st c sel n st' :
  prepare applier st = (inr (Ready c sel n), st') ->
  (interactive applier = false -> map Name sel = map AppName (appList applier)) ∧
  (∀ a b, a ∈ sel -> b ∈ sel -> Name a = Name b -> Resource a = Resource b).
Proof.
  intros Hrun.
  destruct (prepare_ready _ _ _ _ _ _ Hrun) as (m & l & names & -> & -> & Hnames).
  split.
  - intros Hni. rewrite (Hnames Hni).
    generalize (map AppName (appList applier)). intros l.
    induction l as [|x l IH]; [done|]. cbn. by rewrite IH.
  - intros a b Ha Hb Hab.
    apply list_elem_of_fmap in Ha as (na & -> & _).
    apply list_elem_of_fmap in Hb as (nb & -> & _).
    cbn in *. by subst.
Qed.


(** X24. [Run] never reads the scheduler configuration or the greed flag
    of the applier, nor the custom cluster when a kubeconfig is given:
    two appliers that agree on everything else run alike. *)
Theorem runApplier_ignores a b st :
  sameForRun a b -> runApplier a st = runApplier b st.
Proof.
  intros (Happs & Hnode & Hint & Hext & Hkube & Hcustom).
  unfold runApplier, prepare, loadCluster.
  rewrite Happs, Hnode, Hint, Hext, Hkube.
  destruct (String.eqb (KubeConfig (cluster b)) "") eqn:He; cbn [negb]; [|done].
  apply String.eqb_eq in He. rewrite Hcustom by congruence. done.
Qed.

End PreparationFacts.

Lemma selected_by_name_witness :
  ∃ c sel n,
    (@prepare Scenario.neverFits Scenario.loader
       Scenario.twiceNamed Scenario.blank).1 = inr (Ready c sel n) ∧
    length sel = 2%nat ∧
    (∀ a b, a ∈ sel -> b ∈ sel -> Name a = Name b -> Resource a = Resource b).
Proof.
  eexists _, _, _. split; [vm_compute; reflexivity|]. split; [reflexivity|].
  eapply (@selected_by_name Scenario.neverFits Scenario.loader
            Scenario.twiceNamed Scenario.blank).
  vm_compute. reflexivity.
Defined.


Lemma runApplier_ignores_witness :
  let greedy :=
    {| cluster := {| KubeConfig := "/root/.kube/config"; CustomCluster := "ignored" |};
       appList := []; newNode := "example/newnode";
       schedulerConfig := "scheduler.yaml"; useGreed := true;
       interactive := false; extendedResources := [] |} in
  let plain :=
    {| cluster := {| KubeConfig := "/root/.kube/config"; CustomCluster := "" |};
       appList := []; newNode := "example/newnode";
       schedulerConfig := ""; useGreed := false;
       interactive := false; extendedResources := [] |} in
  @runApplier Scenario.consts amd64 Scenario.neverFits Scenario.loader greedy Scenario.blank
  = @runApplier Scenario.consts amd64 Scenario.neverFits Scenario.loader plain Scenario.blank.
Proof.
  intros greedy plain.
  apply (@runApplier_ignores Scenario.consts amd64 Scenario.neverFits Scenario.loader
           greedy plain Scenario.blank).
  unfold sameForRun. cbn. repeat split; done.
Defined.

(** A node whose storage annotation cannot be decoded: the admission
    check returns the error that names it, and the report with the
    local-storage section ends the process on it. *)
Lemma broken_storage_example :
  @satisfyResourceSetting Scenario.consts amd64 (Scenario.storageCollab Scenario.noEnv)
    Scenario.brokenNodes = inl (ErrUnmarshalNode "node-c") ∧
  (@report Scenario.consts amd64 (Scenario.storageCollab Scenario.noEnv)
     Scenario.reportCollab Scenario.brokenNodes ["open-local"%string]).2
  = Some {| fatalNode := "node-c"; fatalCause := "unexpected end of JSON input" |} ∧
  (@report Scenario.consts amd64 (Scenario.storageCollab Scenario.noEnv)
     Scenario.reportCollab Scenario.brokenNodes []).2 = None.
Proof. repeat split; vm_compute; reflexivity. Qed.
